(** * Detection-head adapters (tools/modules/heads.py, yolo/detect_head.py)

    A shallow embedding of the export adapters for YOLO detection heads and
    of [make_anchors], with the properties their specification states.

    Modelling choices.
    - Tensor elements are real numbers: [softmax], [exp] and the arithmetic
      of the decoders are the mathematical functions, and rounding is outside
      the model.  Of float32 the model keeps the saturation of
      [torch.sigmoid], which is exactly 1 on the logits from 100 on and
      exactly 0 on those up to -104; between them it is the logistic
      function.
    - A tensor of rank [k] is a [k]-fold nested list in row-major order (the
      outermost list is dimension 0).  [view]/[reshape] flatten and regroup.
    - A Python object is its attribute dictionary, a [gmap string value].
      Reading a missing attribute, indexing a list out of range, using a
      value at the wrong type and [torch.cat] of an empty list make the
      computation fail ([None]).
    - Of the run-time checks of torch only the one of [torch.cat] on an
      empty list is modelled.  The operations are total functions: on tensors
      whose sizes agree (the tensors handed to [torch.cat] in the other
      dimensions, the dimensions of a [view] with the number of elements, the
      operands of an arithmetic operation with each other) they return what
      torch returns; where torch raises an error on the sizes, or broadcasts
      a dimension of size 1, the value has no meaning.  What is proved of a
      [forward] is therefore proved of the calls that return, on tensors of
      such sizes.
    - [forward] threads the adapter's attributes and the caller's list [x]
      explicitly: it returns the attributes and the list as they are after
      the call, next to the value returned.
    - The layers copied from the wrapped head ([nn.Module]s) are functions on
      tensors. *)

From Stdlib Require Import Reals Lra Lia.
From stdpp Require Import base option list gmap strings.

(** ** Lists as arrays *)

Section chunks.
Context {A : Type}.

(** [chunks k n l]: the first [k] consecutive blocks of [n] elements. *)
Fixpoint chunks (k n : nat) (l : list A) : list (list A) :=
  match k with
  | O => []
  | S k' => take n l :: chunks k' n (drop n l)
  end.

(** Python's [l[s:e]] for [0 <= s], [0 <= e]. *)
Definition slice (s e : nat) (l : list A) : list A := take (e - s) (drop s l).

(** Left-to-right reduction of a non-empty list; [d] stands for the error
    torch raises on an empty one. *)
Definition reduce (f : A → A → A) (d : A) (l : list A) : A :=
  match l with
  | [] => d
  | a :: l' => foldl f a l'
  end.

(** Rows and columns exchanged; the rows have the length of the first. *)
Definition transpose (m : list (list A)) : list (list A) :=
  foldr (zip_with cons) (replicate (length (default [] (head m))) []) m.
End chunks.

(** [tabulate n f] is [[f 0; ...; f (n-1)]]. *)
Definition tabulate {A} (n : nat) (f : nat → A) : list A := f <$> seq 0 n.

(** ** Tensors *)

Abbreviation T1 := (list R).
Abbreviation T2 := (list (list R)).
Abbreviation T3 := (list (list (list R))).
Abbreviation T4 := (list (list (list (list R)))).
Abbreviation T5 := (list (list (list (list (list R))))).

Inductive tensor : Type :=
| Ten1 (t : T1)
| Ten2 (t : T2)
| Ten3 (t : T3)
| Ten4 (t : T4)
| Ten5 (t : T5).

(** [t.shape]: the sizes of the dimensions, read off the first element of
    each level (a dimension below an empty one reads as 0). *)
Definition len1 {X} (t : list (list X)) : nat := length (default [] (head t)).
Definition len2 {X} (t : list (list (list X))) : nat := len1 (default [] (head t)).
Definition len3 {X} (t : list (list (list (list X)))) : nat :=
  len2 (default [] (head t)).
Definition len4 {X} (t : list (list (list (list (list X))))) : nat :=
  len3 (default [] (head t)).

Definition shape (t : tensor) : list nat :=
  match t with
  | Ten1 t => [length t]
  | Ten2 t => [length t; len1 t]
  | Ten3 t => [length t; len1 t; len2 t]
  | Ten4 t => [length t; len1 t; len2 t; len3 t]
  | Ten5 t => [length t; len1 t; len2 t; len3 t; len4 t]
  end.

(** The nested list [t] is a tensor of the given size (it is rectangular). *)
Definition has_shape1 (a : nat) (t : T1) : Prop := length t = a.
Definition has_shape2 (a b : nat) (t : T2) : Prop :=
  length t = a ∧ Forall (has_shape1 b) t.
Definition has_shape3 (a b c : nat) (t : T3) : Prop :=
  length t = a ∧ Forall (has_shape2 b c) t.
Definition has_shape4 (a b c d : nat) (t : T4) : Prop :=
  length t = a ∧ Forall (has_shape3 b c d) t.

Definition flat2 (t : T2) : T1 := concat t.
Definition flat3 (t : T3) : T1 := concat (concat t).
Definition flat4 (t : T4) : T1 := concat (concat (concat t)).
Definition flat5 (t : T5) : T1 := concat (concat (concat (concat t))).

(** Row-major regrouping of flat data. *)
Definition build2 (a b : nat) (l : T1) : T2 := chunks a b l.
Definition build3 (a b c : nat) (l : T1) : T3 :=
  build2 b c <$> chunks a (b * c) l.
Definition build4 (a b c d : nat) (l : T1) : T4 :=
  build3 b c d <$> chunks a (b * c * d) l.
Definition build5 (a b c d e : nat) (l : T1) : T5 :=
  build4 b c d e <$> chunks a (b * c * d * e) l.

Section scalar.
Local Open Scope R_scope.

(** [torch.sigmoid] on float32: [1 / (1 + exp(-v))], which is rounded to
    exactly 1 for the logits from 100 on and to exactly 0 for those up to
    -104. *)
Definition sigmoid (v : R) : R :=
  if Rle_dec 100 v then 1
  else if Rle_dec v (-104) then 0
  else 1 / (1 + exp (- v)).

(** [softmax] of one vector. *)
Definition sum_list_R (l : T1) : R := foldr Rplus 0 l.
Definition softmax_vec (l : T1) : T1 :=
  (λ v, exp v / sum_list_R (exp <$> l)) <$> l.

Definition dot (ws l : T1) : R := sum_list_R (zip_with Rmult ws l).
End scalar.

(** Element-wise application. *)
Definition map2 (f : R → R) (t : T2) : T2 := (λ r : T1, f <$> r) <$> t.
Definition map3 (f : R → R) (t : T3) : T3 := map2 f <$> t.
Definition map4 (f : R → R) (t : T4) : T4 := map3 f <$> t.
Definition map5 (f : R → R) (t : T5) : T5 := map4 f <$> t.

(** [torch.cat(ts, 1)] for rank 3 and 4, [torch.cat(ts, 2)] for rank 3 and
    [torch.cat(ts, 0)], for tensors that agree in the other dimensions
    (torch raises on others; here the result has the smallest of the sizes). *)
Definition cat_dim1 {X} (ts : list (list (list X))) : list (list X) :=
  reduce (zip_with app) [] ts.
Fixpoint cat_dim2 {X} (ts : list (list (list (list X)))) : list (list (list X)) :=
  match ts with
  | [] => []
  | t :: ts' =>
      match ts' with
      | [] => t
      | _ => zip_with (zip_with app) t (cat_dim2 ts')
      end
  end.
Definition cat_dim0 {X} (ts : list (list X)) : list X := concat ts.

(** The list of tensors handed to [torch.cat], which raises on an empty
    one. *)
Definition nonempty {X} (ts : list X) : option (list X) :=
  match ts with
  | [] => None
  | _ => Some ts
  end.

(** [t.split((a, b), 1)] *)
Definition split_dim1 {X} (a b : nat) (t : list (list X))
  : list (list X) * list (list X) :=
  (take a <$> t, (λ tb, take b (drop a tb)) <$> t).

(** [t.max(1, keepdim=True)[0]] for rank 3 and 4. *)
Definition max_dim1_3 (t : T3) : T3 :=
  (λ tb, [reduce (zip_with Rmax) [] tb]) <$> t.
Definition max_dim1_4 (t : T4) : T4 :=
  (λ tb, [reduce (zip_with (zip_with Rmax)) [] tb]) <$> t.

(** [torch.ones((a, b, c))] and [torch.ones((a, b, c, d))] *)
Definition ones3 (a b c : nat) : T3 := replicate a (replicate b (replicate c 1%R)).
Definition ones4 (a b c d : nat) : T4 := replicate a (ones3 b c d).

(** [t[:, :, s:e]] on rank 3. *)
Definition slice_dim2 (s e : nat) (t : T3) : T3 :=
  (λ tb : T2, slice s e <$> tb) <$> t.

(** [t.view(a, b, -1)] and [t.view(a, -1, c, d)]: the free dimension is what
    the number of elements leaves, for a number of elements that the given
    dimensions divide (torch raises on others; here the rest is dropped). *)
Definition view3_last (a b : nat) (l : T1) : T3 :=
  build3 a b (length l `div` (a * b)) l.
Definition view4_dim1 (a c d : nat) (l : T1) : T4 :=
  build4 a (length l `div` (a * c * d)) c d l.
Definition view4_dim0 (b c d : nat) (l : T1) : T4 :=
  build4 (length l `div` (b * c * d)) b c d l.

(** [t.reshape([-1, b, c, d])] of a rank-4 and of a rank-3 tensor. *)
Definition reshape4 (b c d : nat) (t : T4) : T4 := view4_dim0 b c d (flat4 t).
Definition reshape4_of3 (b c d : nat) (t : T3) : T4 := view4_dim0 b c d (flat3 t).

(** [t.permute(0, 2, 1, 3)] *)
Definition permute_0213 (t : T4) : T4 := transpose <$> t.

(** [F.softmax(t, dim=1)] on rank 4: every entry's exponential over the sum
    of the exponentials along dimension 1. *)
Definition softmax_dim1 (t : T4) : T4 :=
  (λ tb : T3,
     let e := map3 exp tb in
     let s := reduce (zip_with (zip_with Rplus)) [] e in
     (λ ch : T2, zip_with (zip_with Rdiv) ch s) <$> e) <$> t.

(** [t[:, 0]] *)
Definition select_dim1_0 (t : T4) : T3 := (λ tb : T3, default [] (head tb)) <$> t.

(** [t.flatten(1)] on rank 4. *)
Definition flatten_from1 (t : T4) : T2 := flat3 <$> t.

(** [torch.arange(n)], [torch.meshgrid(a, b, indexing="ij")],
    [torch.stack((a, b), -1)] of two matrices, [torch.full((n, 1), v)]. *)
Definition arange (n : nat) : T1 := tabulate n INR.
Definition meshgrid (a b : T1) : T2 * T2 :=
  ((λ v, replicate (length b) v) <$> a, replicate (length a) b).
Definition stack_last (a b : T2) : T3 :=
  zip_with (zip_with (λ u v, [u; v])) a b.
Definition full_col (n : nat) (v : R) : T2 := replicate n [v].

(** ** Python objects *)

(** The layers of a head, by the rank of what they map. *)
Abbreviation layer := (T4 → T4).

Inductive value : Type :=
| VNone
| VBool (b : bool)
| VInt (n : nat)
| VFloat (r : R)
| VInts (ns : list nat)              (* a tuple of ints: [kpt_shape] *)
| VTensor (t : tensor)
| VTensors (ts : list tensor)        (* a list of tensors: [grid] *)
| VModule2 (m : T2 → T2)
| VModule3 (m : T3 → T3)
| VModule4 (m : layer)
| VModuleList (ms : list layer)
| VOther (tag : string).             (* a value no adapter looks into *)

Abbreviation obj := (gmap string value).

(** What [forward] returns: a list of tensors or one tensor. *)
Inductive result : Type :=
| RList (ts : list tensor)
| RTensor (t : tensor).

(** [self.a]: the instance's attribute, else the class's. *)
Definition getattr (cls self : obj) (a : string) : option value :=
  match self !! a with
  | Some v => Some v
  | None => cls !! a
  end.

Definition as_nat (v : value) : option nat :=
  match v with VInt n => Some n | _ => None end.
Definition as_bool (v : value) : option bool :=
  match v with VBool b => Some b | _ => None end.
Definition as_ints (v : value) : option (list nat) :=
  match v with VInts ns => Some ns | _ => None end.
Definition as_T1 (v : value) : option T1 :=
  match v with VTensor (Ten1 t) => Some t | _ => None end.
Definition as_T2 (v : value) : option T2 :=
  match v with VTensor (Ten2 t) => Some t | _ => None end.
Definition as_tensors (v : value) : option (list tensor) :=
  match v with VTensors ts => Some ts | _ => None end.
Definition as_module2 (v : value) : option (T2 → T2) :=
  match v with VModule2 m => Some m | _ => None end.
Definition as_module3 (v : value) : option (T3 → T3) :=
  match v with VModule3 m => Some m | _ => None end.
Definition as_module4 (v : value) : option layer :=
  match v with VModule4 m => Some m | _ => None end.
Definition as_modules (v : value) : option (list layer) :=
  match v with VModuleList ms => Some ms | _ => None end.

Definition attr_nat (self : obj) (a : string) : option nat := self !! a ≫= as_nat.
Definition attr_bool (self : obj) (a : string) : option bool := self !! a ≫= as_bool.
Definition attr_ints (self : obj) (a : string) : option (list nat) :=
  self !! a ≫= as_ints.
Definition attr_T1 (self : obj) (a : string) : option T1 := self !! a ≫= as_T1.
Definition attr_tensors (self : obj) (a : string) : option (list tensor) :=
  self !! a ≫= as_tensors.
Definition attr_module2 (self : obj) (a : string) : option (T2 → T2) :=
  self !! a ≫= as_module2.
Definition attr_module3 (self : obj) (a : string) : option (T3 → T3) :=
  self !! a ≫= as_module3.
Definition attr_module4 (self : obj) (a : string) : option layer :=
  self !! a ≫= as_module4.
Definition attr_modules (self : obj) (a : string) : option (list layer) :=
  self !! a ≫= as_modules.

(** The statements of the constructors.
    [self.dst = old.src] *)
Definition copy_attr (old : obj) (dst src : string) (self : obj) : option obj :=
  v ← old !! src; Some (<[dst := v]> self).
(** [if hasattr(old, src): self.dst = old.src] *)
Definition copy_if_has (old : obj) (dst src : string) (self : obj) : option obj :=
  match old !! src with
  | Some v => Some (<[dst := v]> self)
  | None => Some self
  end.
(** [if hasattr(old, a): self.dst = old.a  elif hasattr(old, b): self.dst = old.b] *)
Definition copy_first_of (old : obj) (dst a b : string) (self : obj) : option obj :=
  match old !! a with
  | Some v => Some (<[dst := v]> self)
  | None => copy_if_has old dst b self
  end.
(** [self.dst = v] *)
Definition set_attr (dst : string) (v : value) (self : obj) : option obj :=
  Some (<[dst := v]> self).

(** [for i in range(n): s = body(i, s)], from index [i]. *)
Fixpoint for_range {St} (body : nat → St → option St) (i n : nat) (s : St)
  : option St :=
  match n with
  | O => Some s
  | S n' => s' ← body i s; for_range body (S i) n' s'
  end.

(** [[f(i) for i in range(n)]] *)
Definition comprehension {A} (n : nat) (f : nat → option A) : option (list A) :=
  mapM f (seq 0 n).

(** A constructor body: its statements run in order on the empty instance. *)
Definition run_init (body : list (obj → option obj)) : option obj :=
  foldl (λ self stmt, self ≫= stmt) (Some ∅) body.

(** The loop shared by [DetectV5.forward] and [DetectV7.forward]:
    [x[i] = self.m[i](x[i]); outputs.append(torch.sigmoid(x[i]))]. *)
Definition conv_sigmoid_step (m : list layer) (i : nat)
    (s : list T4 * list T4) : option (list T4 * list T4) :=
  let '(x, outputs) := s in
  mi ← m !! i;
  xi ← x !! i;
  let x := <[i := mi xi]> x in
  xi ← x !! i;
  Some (x, outputs ++ [map4 sigmoid xi]).

Module DetectV5.
Definition init (old_detect : obj) : option obj :=
  run_init [
    copy_attr old_detect "nc" "nc";
    copy_attr old_detect "no" "no";
    copy_attr old_detect "nl" "nl";
    copy_attr old_detect "na" "na";
    copy_attr old_detect "grid" "grid";
    copy_attr old_detect "anchor_grid" "anchor_grid";
    copy_attr old_detect "m" "m";
    copy_attr old_detect "inplace" "inplace";
    copy_attr old_detect "stride" "stride";
    copy_attr old_detect "anchors" "anchors";
    copy_attr old_detect "f" "f";
    copy_attr old_detect "i" "i" ].

Definition forward (self : obj) (x : list T4)
  : option (obj * list T4 * result) :=
  nl ← attr_nat self "nl";
  m ← attr_modules self "m";
  '(x, outputs) ← for_range (conv_sigmoid_step m) 0 nl (x, []);
  Some (self, x, RList (Ten4 <$> outputs)).
End DetectV5.

Module DetectV7.
Definition init (old_detect : obj) : option obj :=
  run_init [
    copy_attr old_detect "nc" "nc";
    copy_attr old_detect "no" "no";
    copy_attr old_detect "nl" "nl";
    copy_attr old_detect "na" "na";
    copy_attr old_detect "grid" "grid";
    copy_attr old_detect "anchor_grid" "anchor_grid";
    copy_attr old_detect "m" "m";
    copy_attr old_detect "stride" "stride";
    copy_attr old_detect "anchors" "anchors";
    copy_attr old_detect "f" "f";
    copy_attr old_detect "i" "i" ].

Definition forward (self : obj) (x : list T4)
  : option (obj * list T4 * result) :=
  nl ← attr_nat self "nl";
  m ← attr_modules self "m";
  '(x, outputs) ← for_range (conv_sigmoid_step m) 0 nl (x, []);
  Some (self, x, RList (Ten4 <$> outputs)).
End DetectV7.

(** ** The anchor-based decoupled heads: DetectV6R1 and DetectV1 *)

(** [t.view(a, -1, c)] *)
Definition view3_mid (a c : nat) (l : T1) : T3 :=
  build3 a (length l `div` (a * c)) c l.

(** [t.permute(0, 1, 3, 4, 2)] *)
Definition permute_01342 (t : T5) : T5 :=
  (λ tb : T4, (λ ta : T3, transpose <$> transpose ta) <$> tb) <$> t.

(** The grid the anchor-based heads cache per level:
    [yv, xv = torch.meshgrid([arange(ny), arange(nx)])];
    [torch.stack((xv, yv), 2).view(1, na, ny, nx, 2).float()]. *)
Definition make_grid (na ny nx : nat) : T5 :=
  let '(yv, xv) := meshgrid (arange ny) (arange nx) in
  build5 1 na ny nx 2 (flat3 (stack_last xv yv)).

Section box_decode.
Local Open Scope R_scope.
Variable stride_i : R.

Definition decode_xy (r g : T1) : T1 :=
  zip_with (λ v gv, (v + gv) * stride_i) (take 2 r) g.
Definition decode_wh (r : T1) : T1 := (λ v, exp v * stride_i) <$> slice 2 4 r.

(** One cell [y[b, a, j, k, :]] against [grid[0, a, j, k, :]]; with
    [inplace] the two slices are assigned one after the other, without it
    the cell is concatenated from [xy], [wh] and [y[..., 4:]]. *)
Definition decode_cell (inplace : bool) (r g : T1) : T1 :=
  if inplace then
    let r1 := decode_xy r g ++ drop 2 r in
    take 2 r1 ++ decode_wh r1 ++ drop 4 r1
  else decode_xy r g ++ decode_wh r ++ drop 4 r.

Definition decode_boxes (inplace : bool) (y grid : T5) : T5 :=
  (λ yb : T4,
     zip_with (zip_with (zip_with (decode_cell inplace)))
       yb (default [] (head grid))) <$> y.
End box_decode.

Definition as_T5 (t : tensor) : option T5 :=
  match t with Ten5 g => Some g | _ => None end.

(** One iteration of the loop of [DetectV6R1.forward] ([DetectV1.forward] is
    the same text); the state is the instance, the caller's list and [z]. *)
Definition anchor_head_step (i : nat) (s : obj * list T4 * list T3)
  : option (obj * list T4 * list T3) :=
  let '(self, x, z) := s in
  stems ← attr_modules self "stems"; stem ← stems !! i;
  xi ← x !! i;
  let x := <[i := stem xi]> x in
  xi ← x !! i;
  cls_convs ← attr_modules self "cls_convs"; cls_conv ← cls_convs !! i;
  cls_preds ← attr_modules self "cls_preds"; cls_pred ← cls_preds !! i;
  let cls_output := cls_pred (cls_conv xi) in
  reg_convs ← attr_modules self "reg_convs"; reg_conv ← reg_convs !! i;
  let reg_feat := reg_conv xi in
  reg_preds ← attr_modules self "reg_preds"; reg_pred ← reg_preds !! i;
  let reg_output := reg_pred reg_feat in
  obj_preds ← attr_modules self "obj_preds"; obj_pred ← obj_preds !! i;
  let obj_output := obj_pred reg_feat in
  let y := cat_dim1 [reg_output; map4 sigmoid obj_output; map4 sigmoid cls_output] in
  let '(bs, ny, nx) := (length y, len2 y, len3 y) in
  na ← attr_nat self "na";
  no ← attr_nat self "no";
  let y := permute_01342 (build5 bs na no ny nx (flat4 y)) in
  grid ← attr_tensors self "grid"; grid_i ← grid !! i;
  let self :=
    if decide (slice 2 4 (shape grid_i) ≠ [ny; nx])
    then <["grid" := VTensors (<[i := Ten5 (make_grid na ny nx)]> grid)]> self
    else self in
  grid ← attr_tensors self "grid"; grid_i ← grid !! i ≫= as_T5;
  stride ← attr_T1 self "stride"; stride_i ← stride !! i;
  inplace ← attr_bool self "inplace";
  let y := decode_boxes stride_i inplace y grid_i in
  Some (self, x, z ++ [view3_mid bs no (flat5 y)]).

Definition anchor_head_forward (self : obj) (x : list T4)
  : option (obj * list T4 * result) :=
  nl ← attr_nat self "nl";
  '(self, x, z) ← for_range anchor_head_step 0 nl (self, x, []);
  z ← nonempty z;
  Some (self, x, RTensor (Ten3 (cat_dim1 z))).

(** [stride = [8, 16, 32]; self.stride = torch.tensor(stride)] *)
Definition fixed_stride : value := VTensor (Ten1 [8; 16; 32]%R).

Module DetectV6R1.
Definition init (old_detect : obj) : option obj :=
  run_init [
    copy_attr old_detect "nc" "nc";
    copy_attr old_detect "no" "no";
    copy_attr old_detect "nl" "nl";
    copy_attr old_detect "na" "na";
    copy_attr old_detect "anchors" "anchors";
    copy_attr old_detect "grid" "grid";
    set_attr "prior_prob" (VFloat (1 / 100));
    copy_attr old_detect "inplace" "inplace";
    set_attr "stride" fixed_stride;
    copy_attr old_detect "stems" "stems";
    copy_attr old_detect "cls_convs" "cls_convs";
    copy_attr old_detect "reg_convs" "reg_convs";
    copy_attr old_detect "cls_preds" "cls_preds";
    copy_attr old_detect "reg_preds" "reg_preds";
    copy_attr old_detect "obj_preds" "obj_preds" ].

Definition forward := anchor_head_forward.
End DetectV6R1.

(** yolo/detect_head.py *)
Module DetectV1.
Definition init (old_detect : obj) : option obj :=
  run_init [
    copy_attr old_detect "nc" "nc";
    copy_attr old_detect "no" "no";
    copy_attr old_detect "nl" "nl";
    copy_attr old_detect "na" "na";
    copy_attr old_detect "anchors" "anchors";
    copy_attr old_detect "grid" "grid";
    set_attr "prior_prob" (VFloat (1 / 100));
    copy_attr old_detect "inplace" "inplace";
    set_attr "stride" fixed_stride;
    copy_attr old_detect "stems" "stems";
    copy_attr old_detect "cls_convs" "cls_convs";
    copy_attr old_detect "reg_convs" "reg_convs";
    copy_attr old_detect "cls_preds" "cls_preds";
    copy_attr old_detect "reg_preds" "reg_preds";
    copy_attr old_detect "obj_preds" "obj_preds" ].

Definition forward := anchor_head_forward.
End DetectV1.

(** ** The anchor-free decoupled heads: DetectV6R3, DetectV6R4s, DetectV6R4m, DetectV2 *)

(** The layers of level [i] applied as every decoupled head does:
    [x[i] = self.stems[i](x[i])], then the class and the regression branch.
    Returns the updated list, [cls_output] and [reg_output]. *)
Definition decoupled_branches (self : obj) (i : nat) (x : list T4)
  : option (list T4 * T4 * T4) :=
  stems ← attr_modules self "stems"; stem ← stems !! i;
  xi ← x !! i;
  let x := <[i := stem xi]> x in
  xi ← x !! i;
  cls_convs ← attr_modules self "cls_convs"; cls_conv ← cls_convs !! i;
  cls_preds ← attr_modules self "cls_preds"; cls_pred ← cls_preds !! i;
  reg_convs ← attr_modules self "reg_convs"; reg_conv ← reg_convs !! i;
  reg_preds ← attr_modules self "reg_preds"; reg_pred ← reg_preds !! i;
  Some (x, cls_pred (cls_conv xi), reg_pred (reg_conv xi)).

(** The distribution decoding of [DetectV6R3.forward] and [DetectV2.forward]:
    [reg_output.reshape([-1, 4, reg_max + 1, l]).permute(0, 2, 1, 3)],
    [proj_conv(F.softmax(reg_output, dim=1))[:, 0]],
    [reg_output.reshape([-1, 4, h, w])]. *)
Definition dfl_decode_select (proj_conv : layer) (reg_max h w : nat)
    (reg_output : T4) : T4 :=
  let l := h * w in
  let reg_output := permute_0213 (reshape4 4 (reg_max + 1) l reg_output) in
  let reg_output := select_dim1_0 (proj_conv (softmax_dim1 reg_output)) in
  reshape4_of3 4 h w reg_output.

(** The one of [DetectV6R4m.forward]:
    [proj_conv(F.softmax(reg_output, dim=1)).reshape([-1, 4, h, w])]. *)
Definition dfl_decode_reshape (proj_conv : layer) (reg_max h w : nat)
    (reg_output : T4) : T4 :=
  let l := h * w in
  let reg_output := permute_0213 (reshape4 4 (reg_max + 1) l reg_output) in
  reshape4 4 h w (proj_conv (softmax_dim1 reg_output)).

(** [if self.use_dfl: reg_output = decode(reg_output)] *)
Definition dfl_branch (decode : layer → nat → nat → nat → T4 → T4)
    (self : obj) (h w : nat) (reg_output : T4) : option T4 :=
  use_dfl ← attr_bool self "use_dfl";
  if use_dfl : bool then
    reg_max ← attr_nat self "reg_max";
    proj_conv ← attr_module4 self "proj_conv";
    Some (decode proj_conv reg_max h w reg_output)
  else Some reg_output.

(** [conf, _ = cls_output.max(1, keepdim=True)] when [use_rvc2], else
    [torch.ones((cls_output.shape[0], 1, cls_output.shape[2], cls_output.shape[3]))]. *)
Definition confidence4 (use_rvc2 : bool) (cls_output : T4) : T4 :=
  if use_rvc2 then max_dim1_4 cls_output
  else ones4 (length cls_output) 1 (len2 cls_output) (len3 cls_output).

(** How the head variants differ: whether and how the regression output is
    decoded, and where the confidence comes from. *)
Definition decoupled_step
    (decode : obj → nat → nat → T4 → option T4)
    (conf : obj → T4 → option T4)
    (self : obj) (i : nat) (s : list T4 * list T4)
  : option (list T4 * list T4) :=
  let '(x, outputs) := s in
  xi ← x !! i;
  let '(h, w) := (len2 xi, len3 xi) in
  '(x, cls_output, reg_output) ← decoupled_branches self i x;
  reg_output ← decode self h w reg_output;
  let cls_output := map4 sigmoid cls_output in
  conf ← conf self cls_output;
  let output := cat_dim1 [reg_output; conf; cls_output] in
  Some (x, outputs ++ [output]).

Definition decoupled_forward
    (decode : obj → nat → nat → T4 → option T4)
    (conf : obj → T4 → option T4)
    (self : obj) (x : list T4) : option (obj * list T4 * result) :=
  nl ← attr_nat self "nl";
  '(x, outputs) ← for_range (decoupled_step decode conf self) 0 nl (x, []);
  Some (self, x, RList (Ten4 <$> outputs)).

Definition conf_rvc2 (self : obj) (cls_output : T4) : option T4 :=
  use_rvc2 ← attr_bool self "use_rvc2";
  Some (confidence4 use_rvc2 cls_output).
Definition conf_max (self : obj) (cls_output : T4) : option T4 :=
  Some (max_dim1_4 cls_output).
Definition no_decode (self : obj) (h w : nat) (reg_output : T4) : option T4 :=
  Some reg_output.

Module DetectV6R3.
Definition init (old_detect : obj) (use_rvc2 : bool) : option obj :=
  run_init [
    copy_attr old_detect "nc" "nc";
    copy_attr old_detect "no" "no";
    copy_attr old_detect "nl" "nl";
    copy_if_has old_detect "anchors" "anchors";
    copy_attr old_detect "grid" "grid";
    set_attr "prior_prob" (VFloat (1 / 100));
    copy_attr old_detect "inplace" "inplace";
    set_attr "stride" fixed_stride;
    copy_attr old_detect "use_dfl" "use_dfl";
    copy_attr old_detect "reg_max" "reg_max";
    copy_attr old_detect "proj_conv" "proj_conv";
    set_attr "grid_cell_offset" (VFloat (1 / 2));
    set_attr "grid_cell_size" (VFloat 5);
    copy_attr old_detect "stems" "stems";
    copy_attr old_detect "cls_convs" "cls_convs";
    copy_attr old_detect "reg_convs" "reg_convs";
    copy_first_of old_detect "cls_preds" "cls_preds" "cls_preds_af";
    copy_first_of old_detect "reg_preds" "reg_preds" "reg_preds_af";
    set_attr "use_rvc2" (VBool use_rvc2) ].

Definition forward : obj → list T4 → option (obj * list T4 * result) :=
  decoupled_forward (dfl_branch dfl_decode_select) conf_rvc2.
End DetectV6R3.

Module DetectV6R4s.
Definition init (old_detect : obj) (use_rvc2 : bool) : option obj :=
  run_init [
    copy_attr old_detect "nc" "nc";
    copy_attr old_detect "no" "no";
    copy_attr old_detect "nl" "nl";
    copy_if_has old_detect "anchors" "anchors";
    copy_attr old_detect "grid" "grid";
    set_attr "prior_prob" (VFloat (1 / 100));
    copy_attr old_detect "inplace" "inplace";
    copy_attr old_detect "stride" "stride";
    copy_if_has old_detect "use_dfl" "use_dfl";
    copy_if_has old_detect "reg_max" "reg_max";
    copy_if_has old_detect "proj_conv" "proj_conv";
    set_attr "grid_cell_offset" (VFloat (1 / 2));
    set_attr "grid_cell_size" (VFloat 5);
    copy_attr old_detect "stems" "stems";
    copy_attr old_detect "cls_convs" "cls_convs";
    copy_attr old_detect "reg_convs" "reg_convs";
    copy_first_of old_detect "cls_preds" "cls_preds" "cls_preds_af";
    copy_first_of old_detect "reg_preds" "reg_preds" "reg_preds_af";
    set_attr "use_rvc2" (VBool use_rvc2) ].

Definition forward : obj → list T4 → option (obj * list T4 * result) :=
  decoupled_forward no_decode conf_rvc2.
End DetectV6R4s.

Module DetectV6R4m.
Definition init (old_detect : obj) (use_rvc2 : bool) : option obj :=
  run_init [
    copy_attr old_detect "nc" "nc";
    copy_attr old_detect "no" "no";
    copy_attr old_detect "nl" "nl";
    copy_if_has old_detect "anchors" "anchors";
    copy_attr old_detect "grid" "grid";
    set_attr "prior_prob" (VFloat (1 / 100));
    copy_attr old_detect "inplace" "inplace";
    copy_attr old_detect "stride" "stride";
    copy_attr old_detect "use_dfl" "use_dfl";
    copy_attr old_detect "reg_max" "reg_max";
    copy_attr old_detect "proj_conv" "proj_conv";
    set_attr "grid_cell_offset" (VFloat (1 / 2));
    set_attr "grid_cell_size" (VFloat 5);
    copy_attr old_detect "stems" "stems";
    copy_attr old_detect "cls_convs" "cls_convs";
    copy_attr old_detect "reg_convs" "reg_convs";
    copy_first_of old_detect "cls_preds" "cls_preds" "cls_preds_af";
    copy_first_of old_detect "reg_preds" "reg_preds" "reg_preds_af";
    set_attr "use_rvc2" (VBool use_rvc2) ].

Definition forward : obj → list T4 → option (obj * list T4 * result) :=
  decoupled_forward (dfl_branch dfl_decode_reshape) conf_rvc2.
End DetectV6R4m.

(** yolo/detect_head.py *)
Module DetectV2.
Definition init (old_detect : obj) : option obj :=
  run_init [
    copy_attr old_detect "nc" "nc";
    copy_attr old_detect "no" "no";
    copy_attr old_detect "nl" "nl";
    copy_if_has old_detect "anchors" "anchors";
    copy_attr old_detect "grid" "grid";
    set_attr "prior_prob" (VFloat (1 / 100));
    copy_attr old_detect "inplace" "inplace";
    set_attr "stride" fixed_stride;
    copy_attr old_detect "use_dfl" "use_dfl";
    copy_attr old_detect "reg_max" "reg_max";
    copy_attr old_detect "proj_conv" "proj_conv";
    set_attr "grid_cell_offset" (VFloat (1 / 2));
    set_attr "grid_cell_size" (VFloat 5);
    copy_attr old_detect "stems" "stems";
    copy_attr old_detect "cls_convs" "cls_convs";
    copy_attr old_detect "reg_convs" "reg_convs";
    copy_attr old_detect "cls_preds" "cls_preds";
    copy_attr old_detect "reg_preds" "reg_preds" ].

Definition forward : obj → list T4 → option (obj * list T4 * result) :=
  decoupled_forward (dfl_branch dfl_decode_select) conf_max.
End DetectV2.

(** ** make_anchors *)

(** One round of the loop: the anchor points and the stride rows of a level. *)
Definition level_anchor_points (grid_cell_offset : R) (feat : T4) : T2 :=
  let '(h, w) := (len2 feat, len3 feat) in
  let sx := (λ v, v + grid_cell_offset)%R <$> arange w in
  let sy := (λ v, v + grid_cell_offset)%R <$> arange h in
  let '(sy, sx) := meshgrid sy sx in
  let st := flat3 (stack_last sx sy) in
  build2 (length st `div` 2) 2 st.

Definition level_stride_rows (stride : R) (feat : T4) : T2 :=
  let '(h, w) := (len2 feat, len3 feat) in
  full_col (h * w) stride.

Definition make_anchors_step (feats : list T4) (grid_cell_offset : R)
    (i : nat) (stride : R) (s : list T2 * list T2) : option (list T2 * list T2) :=
  let '(anchor_points, stride_tensor) := s in
  feat ← feats !! i;
  Some (anchor_points ++ [level_anchor_points grid_cell_offset feat],
        stride_tensor ++ [level_stride_rows stride feat]).

(** [for i, stride in enumerate(strides)] from position [i]. *)
Fixpoint make_anchors_loop (feats : list T4) (grid_cell_offset : R)
    (i : nat) (strides : T1) (s : list T2 * list T2)
  : option (list T2 * list T2) :=
  match strides with
  | [] => Some s
  | stride :: strides' =>
      s' ← make_anchors_step feats grid_cell_offset i stride s;
      make_anchors_loop feats grid_cell_offset (S i) strides' s'
  end.

Definition make_anchors (feats : list T4) (strides : T1) (grid_cell_offset : R)
  : option (T2 * T2) :=
  _ ← feats !! 0;
  '(anchor_points, stride_tensor) ←
    make_anchors_loop feats grid_cell_offset 0 strides ([], []);
  anchor_points ← nonempty anchor_points;
  stride_tensor ← nonempty stride_tensor;
  Some (cat_dim0 anchor_points, cat_dim0 stride_tensor).

(** ** The YOLOv8 heads *)

(** The class attributes of DetectV8, OBBV8, PoseV8 and SegmentV8:
    [dynamic = False], [export = False], [shape = None],
    [anchors = torch.empty(0)], [strides = torch.empty(0)]. *)
Definition v8_class : obj :=
  <["dynamic" := VBool false]> (<["export" := VBool false]> (<["shape" := VNone]>
  (<["anchors" := VTensor (Ten1 [])]> (<["strides" := VTensor (Ten1 [])]> ∅)))).

(** [x[i] = torch.cat((self.cv2[i](x[i]), self.cv3[i](x[i])), 1)] *)
Definition cv_step (self : obj) (i : nat) (x : list T4) : option (list T4) :=
  cv2 ← attr_modules self "cv2"; cv2_i ← cv2 !! i;
  xi ← x !! i;
  cv3 ← attr_modules self "cv3"; cv3_i ← cv3 !! i;
  Some (<[i := cat_dim1 [cv2_i xi; cv3_i xi]]> x).

(** [torch.cat([xi.view(bs, self.no, -1) for xi in x], 2)] *)
Definition v8_x_cat (self : obj) (bs : nat) (x : list T4) : option T3 :=
  no ← attr_nat self "no";
  Some (cat_dim2 ((λ xi, view3_last bs no (flat4 xi)) <$> x)).

(** [conf, _ = cls_output.max(1, keepdim=True)] when [use_rvc2], else
    [torch.ones((cls_output.shape[0], 1, cls_output.shape[2]))]. *)
Definition confidence3 (use_rvc2 : bool) (cls_output : T3) : T3 :=
  if use_rvc2 then max_dim1_3 cls_output
  else ones3 (length cls_output) 1 (len2 cls_output).

(** From [x_cat] to [y = torch.cat([box, conf, cls_output], axis=1)]. *)
Definition v8_y (self : obj) (x_cat : T3) : option T3 :=
  reg_max ← attr_nat self "reg_max";
  nc ← attr_nat self "nc";
  let '(box, cls) := split_dim1 (reg_max * 4) nc x_cat in
  dfl ← attr_module3 self "dfl";
  let box := dfl box in
  let cls_output := map3 sigmoid cls in
  use_rvc2 ← attr_bool self "use_rvc2";
  let conf := confidence3 use_rvc2 cls_output in
  Some (cat_dim1 [box; conf; cls_output]).

(** [y[:, :, start:end].view(xi.shape[0], -1, xi.shape[-2], xi.shape[-1])] *)
Definition level_view (y : T3) (start end_ : nat) (xi : T4) : T4 :=
  view4_dim1 (length xi) (len2 xi) (len3 xi) (flat3 (slice_dim2 start end_ y)).

(** The loop that cuts [y] into the levels:
    [for i, xi in enumerate(x): end += h*w; outputs.append(...); start += h*w]. *)
Fixpoint split_levels (y : T3) (x : list T4) (start end_ : nat) : list T4 :=
  match x with
  | [] => []
  | xi :: x' =>
      let end_ := end_ + len2 xi * len3 xi in
      level_view y start end_ xi
        :: split_levels y x' (start + len2 xi * len3 xi) end_
  end.

(** The extra branch of OBBV8, PoseV8 and SegmentV8:
    [[self.cv4[i](x[i]).view(bs, n, -1) for i in range(self.nl)]]. *)
Definition cv4_views (self : obj) (bs n : nat) (x : list T4) : option (list T3) :=
  nl ← attr_nat self "nl";
  comprehension nl (λ i,
    cv4 ← attr_modules self "cv4"; cv4_i ← cv4 !! i;
    xi ← x !! i;
    Some (view3_last bs n (flat4 (cv4_i xi)))).

Definition v8_init_common (old : obj) : list (obj → option obj) :=
  [ copy_attr old "nc" "nc";
    copy_attr old "nl" "nl";
    copy_attr old "reg_max" "reg_max";
    copy_attr old "no" "no";
    copy_attr old "stride" "stride";
    copy_attr old "cv2" "cv2";
    copy_attr old "cv3" "cv3";
    copy_attr old "dfl" "dfl";
    copy_attr old "f" "f";
    copy_attr old "i" "i" ].

Module DetectV8.
Definition init (old_detect : obj) (use_rvc2 : bool) : option obj :=
  run_init (v8_init_common old_detect ++ [ set_attr "use_rvc2" (VBool use_rvc2) ]).

Definition forward (self : obj) (x : list T4)
  : option (obj * list T4 * result) :=
  x0 ← x !! 0;
  let bs := length x0 in
  nl ← attr_nat self "nl";
  x ← for_range (cv_step self) 0 nl x;
  x_cat ← v8_x_cat self bs x;
  y ← v8_y self x_cat;
  let outputs := split_levels y x 0 0 in
  Some (self, x, RList (Ten4 <$> outputs)).
End DetectV8.

Module OBBV8.
Definition init (old_obb : obj) (use_rvc2 : bool) : option obj :=
  run_init (v8_init_common old_obb ++
    [ set_attr "use_rvc2" (VBool use_rvc2);
      copy_attr old_obb "ne" "ne";
      copy_attr old_obb "cv4" "cv4" ]).

(** [(angle.sigmoid() - 0.25) * math.pi] *)
Definition decode_angle (v : R) : R := ((sigmoid v - 0.25) * PI)%R.

Definition forward (self : obj) (x : list T4)
  : option (obj * list T4 * result) :=
  x0 ← x !! 0;
  let bs := length x0 in
  ne ← attr_nat self "ne";
  angle ← cv4_views self bs ne x ≫= nonempty;
  let angle := map3 decode_angle (cat_dim2 angle) in
  nl ← attr_nat self "nl";
  x ← for_range (cv_step self) 0 nl x;
  x_cat ← v8_x_cat self bs x;
  y ← v8_y self x_cat;
  let outputs := split_levels y x 0 0 in
  Some (self, x, RList ((Ten4 <$> outputs) ++ [Ten3 angle])).
End OBBV8.

Module PoseV8.
Definition init (old_kpts : obj) (use_rvc2 : bool) : option obj :=
  run_init (v8_init_common old_kpts ++
    [ copy_attr old_kpts "kpt_shape" "kpt_shape";
      copy_attr old_kpts "nk" "nk";
      copy_attr old_kpts "cv4" "cv4";
      set_attr "use_rvc2" (VBool use_rvc2) ]).

(** [(y[b, k, :2] * 2.0 + (self.anchors - 0.5)) * self.strides] for one
    keypoint: [anchors] is [(2, A)], [strides] is [(1, A)], with [A] the
    number of cells of the keypoints (torch raises when the sizes cannot be
    broadcast; here the cells that all three have are decoded). *)
Definition decode_xy (anchors strides : T2) (yk : T2) : T2 :=
  zip_with (λ ch an,
      zip_with (λ v s, v * s)%R
        (zip_with (λ raw a, raw * 2 + (a - 0.5))%R ch an)
        (default [] (head strides)))
    (take 2 yk) anchors.

Definition kpts_decode (self : obj) (bs : nat) (kpts : T3) : option T3 :=
  kpt_shape ← attr_ints self "kpt_shape";
  ndim ← kpt_shape !! 1;
  nkpt ← kpt_shape !! 0;
  guard (length kpt_shape = 2);;
  let flat := flat3 kpts in
  let y := build4 bs nkpt ndim (length flat `div` (bs * nkpt * ndim)) flat in
  anchors ← getattr v8_class self "anchors" ≫= as_T2;
  strides ← getattr v8_class self "strides" ≫= as_T2;
  let a := (λ yb : T3, decode_xy anchors strides <$> yb) <$> y in
  let a :=
    if decide (ndim = 3)
    then zip_with (zip_with app) a
           ((λ yb : T3, (λ yk : T2, (λ r : T1, sigmoid <$> r) <$> slice 2 3 yk) <$> yb) <$> y)
    else a in
  nk ← attr_nat self "nk";
  Some (view3_last bs nk (flat4 a)).

(** [if self.shape != bs: self.anchors, self.strides =
     (x.transpose(0, 1) for x in make_anchors(x, self.stride, 0.5)); self.shape = bs] *)
Definition refresh_anchors (self : obj) (bs : nat) (x : list T4) : option obj :=
  shape ← getattr v8_class self "shape";
  if (match shape with VInt n => bool_decide (n ≠ bs) | _ => true end) then
    stride ← attr_T1 self "stride";
    '(anchor_points, stride_tensor) ← make_anchors x stride 0.5;
    Some (<["shape" := VInt bs]>
           (<["strides" := VTensor (Ten2 (transpose stride_tensor))]>
           (<["anchors" := VTensor (Ten2 (transpose anchor_points))]> self)))
  else Some self.

Definition forward (self : obj) (x : list T4)
  : option (obj * list T4 * result) :=
  x0 ← x !! 0;
  let bs := length x0 in
  nk ← attr_nat self "nk";
  kpt ← cv4_views self bs nk x ≫= nonempty;
  let kpt := cat_dim2 kpt in
  nl ← attr_nat self "nl";
  x ← for_range (cv_step self) 0 nl x;
  x_cat ← v8_x_cat self bs x;
  self ← refresh_anchors self bs x;
  y ← v8_y self x_cat;
  let outputs := split_levels y x 0 0 in
  pred_kpt ← kpts_decode self bs kpt;
  Some (self, x, RList ((Ten4 <$> outputs) ++ [Ten3 pred_kpt])).
End PoseV8.

Module SegmentV8.
Definition init (old_segment : obj) (use_rvc2 : bool) : option obj :=
  run_init (v8_init_common old_segment ++
    [ copy_attr old_segment "nm" "nm";
      copy_attr old_segment "npr" "npr";
      copy_attr old_segment "proto" "proto";
      copy_attr old_segment "detect" "detect";
      copy_attr old_segment "cv4" "cv4";
      set_attr "use_rvc2" (VBool use_rvc2) ]).

(** The output loop: per level the mask coefficients
    [mc[i].view(xi.shape[0], -1, h, w)], then the detection output. *)
Fixpoint split_levels_mc (mc : list T3) (y : T3) (x : list T4)
    (i start end_ : nat) : option (list T4) :=
  match x with
  | [] => Some []
  | xi :: x' =>
      let end_ := end_ + len2 xi * len3 xi in
      mc_i ← mc !! i;
      rest ← split_levels_mc mc y x' (S i) (start + len2 xi * len3 xi) end_;
      Some (view4_dim1 (length xi) (len2 xi) (len3 xi) (flat3 mc_i)
              :: level_view y start end_ xi :: rest)
  end.

Definition forward (self : obj) (x : list T4)
  : option (obj * list T4 * result) :=
  x0 ← x !! 0;
  proto ← attr_module4 self "proto";
  let p := proto x0 in
  let bs := length p in
  nm ← attr_nat self "nm";
  mc ← cv4_views self bs nm x;
  nl ← attr_nat self "nl";
  x ← for_range (cv_step self) 0 nl x;
  x_cat ← v8_x_cat self bs x;
  y ← v8_y self x_cat;
  outputs ← split_levels_mc mc y x 0 0 0;
  Some (self, x, RList ((Ten4 <$> outputs) ++ [Ten4 p])).
End SegmentV8.

Module ClassifyV8.
Definition init (old_classify : obj) (use_rvc2 : bool) : option obj :=
  run_init [
    copy_attr old_classify "conv" "conv";
    copy_attr old_classify "pool" "pool";
    copy_attr old_classify "drop" "drop";
    copy_attr old_classify "linear" "linear";
    copy_attr old_classify "f" "f";
    copy_attr old_classify "i" "i";
    set_attr "use_rvc2" (VBool use_rvc2) ].

(** [self.linear(self.drop(self.pool(self.conv(x)).flatten(1)))] *)
Definition classify (self : obj) (x : T4) : option T2 :=
  linear ← attr_module2 self "linear";
  drop ← attr_module2 self "drop";
  pool ← attr_module4 self "pool";
  conv ← attr_module4 self "conv";
  Some (linear (drop (flatten_from1 (pool (conv x))))).

(** Called on a list: [x = torch.cat(x, 1)] binds the local name to a new
    tensor; the list is not written. *)
Definition forward (self : obj) (x : list T4)
  : option (obj * list T4 * result) :=
  xs ← nonempty x;
  out ← classify self (cat_dim1 xs);
  Some (self, x, RTensor (Ten2 out)).

(** Called on a tensor. *)
Definition forward_tensor (self : obj) (x : T4) : option (obj * result) :=
  out ← classify self x;
  Some (self, RTensor (Ten2 out)).
End ClassifyV8.

(** ** The adapters together *)

Inductive adapter : Type :=
| CDetectV5 | CDetectV7 | CDetectV6R1 | CDetectV6R3 | CDetectV6R4s | CDetectV6R4m
| CDetectV8 | COBBV8 | CPoseV8 | CSegmentV8 | CClassifyV8
| CDetectV2 | CDetectV1.

Definition adapters : list adapter :=
  [ CDetectV5; CDetectV7; CDetectV6R1; CDetectV6R3; CDetectV6R4s; CDetectV6R4m;
    CDetectV8; COBBV8; CPoseV8; CSegmentV8; CClassifyV8; CDetectV2; CDetectV1 ].

(** [C(old, use_rvc2)]; the classes whose constructor has no [use_rvc2]
    parameter ignore it. *)
Definition init (c : adapter) (old : obj) (use_rvc2 : bool) : option obj :=
  match c with
  | CDetectV5 => DetectV5.init old
  | CDetectV7 => DetectV7.init old
  | CDetectV6R1 => DetectV6R1.init old
  | CDetectV6R3 => DetectV6R3.init old use_rvc2
  | CDetectV6R4s => DetectV6R4s.init old use_rvc2
  | CDetectV6R4m => DetectV6R4m.init old use_rvc2
  | CDetectV8 => DetectV8.init old use_rvc2
  | COBBV8 => OBBV8.init old use_rvc2
  | CPoseV8 => PoseV8.init old use_rvc2
  | CSegmentV8 => SegmentV8.init old use_rvc2
  | CClassifyV8 => ClassifyV8.init old use_rvc2
  | CDetectV2 => DetectV2.init old
  | CDetectV1 => DetectV1.init old
  end.

(** [adapter.forward(x)] on a list [x]: the instance and the list after the
    call, and the value returned. *)
Definition forward (c : adapter) (self : obj) (x : list T4)
  : option (obj * list T4 * result) :=
  match c with
  | CDetectV5 => DetectV5.forward self x
  | CDetectV7 => DetectV7.forward self x
  | CDetectV6R1 => DetectV6R1.forward self x
  | CDetectV6R3 => DetectV6R3.forward self x
  | CDetectV6R4s => DetectV6R4s.forward self x
  | CDetectV6R4m => DetectV6R4m.forward self x
  | CDetectV8 => DetectV8.forward self x
  | COBBV8 => OBBV8.forward self x
  | CPoseV8 => PoseV8.forward self x
  | CSegmentV8 => SegmentV8.forward self x
  | CClassifyV8 => ClassifyV8.forward self x
  | CDetectV2 => DetectV2.forward self x
  | CDetectV1 => DetectV1.forward self x
  end.

(** The class attributes behind an instance. *)
Definition class_attrs (c : adapter) : obj :=
  match c with
  | CDetectV8 | COBBV8 | CPoseV8 | CSegmentV8 => v8_class
  | _ => ∅
  end.

(** * Specification-side definitions *)

(** The positions of each channel laid out in a row: [(a, b, h, w)] seen as
    [(a, b, h * w)]. *)
Definition flat_hw (t : T4) : T3 := (λ tb : T3, @concat _ <$> tb) <$> t.
(** And back: [(a, b, h * w)] seen as [(a, b, h, w)]. *)
Definition unflat_hw (h w : nat) (t : T3) : T4 :=
  (λ tb : T2, chunks h w <$> tb) <$> t.

(** A loop body that writes [x[i]] and appends one output, both computed by
    [g] from the old [x[i]]; [upd_step] only writes [x[i]]. *)
Definition level_step {O} (g : nat → T4 → option (T4 * O)) (i : nat)
    (s : list T4 * list O) : option (list T4 * list O) :=
  let '(x, outs) := s in
  xi ← x !! i; ro ← g i xi; Some (<[i := ro.1]> x, outs ++ [ro.2]).
Definition upd_step (h : nat → T4 → option T4) (i : nat) (x : list T4)
  : option (list T4) :=
  xi ← x !! i; r ← h i xi; Some (<[i := r]> x).

(** What such a loop computes for the levels [i, i + n). *)
Definition levels_of {O} (g : nat → T4 → option O) (x : list T4) (i n : nat)
  : option (list O) :=
  mapM (λ j, x !! j ≫= g j) (seq i n).

Definition map_rows {X Y} (g : X → Y) (t : list (list X)) : list (list Y) :=
  (λ tb : list X, g <$> tb) <$> t.

(** Entry [t[n, k]] of a tensor of rank 2 or more. *)
Definition at2 {X} `{Inhabited X} (t : list (list X)) (n k : nat) : X :=
  (t !!! n) !!! k.

#[global] Instance R_inhabited : Inhabited R := populate 0%R.

(** A tensor whose first two dimensions are [a] and [b], by its entries. *)
Definition shape2d {X} (a b : nat) (t : list (list X)) : Prop :=
  length t = a ∧ Forall (λ tb, length tb = b) t.

(** A feature map of batch [bs] with [c] channels and a non-empty grid. *)
Definition shaped4 (bs c : nat) (t : T4) : Prop :=
  has_shape4 bs c (len2 t) (len3 t) t ∧ 0 < len2 t ∧ 0 < len3 t.

(** The number of cells of a level, and of the levels before level [i]. *)
Definition cells (t : T4) : nat := len2 t * len3 t.
Definition level_offset (x : list T4) (i : nat) : nat :=
  sum_list_with cells (take i x).

(** The row of entry [(n, k)] of [torch.cat([xi.view(bs, no, -1) for xi in x], 2)]:
    the cells of one level after the other. *)
Definition level_rows (x : list T4) (n k : nat) : T1 :=
  concat ((λ xi : T4, concat (at2 xi n k)) <$> x).

(** The rows of a level cut out of a row of [y] and regrouped. *)
Definition level_cut (xi : T4) (s : nat) : T1 → T2 :=
  chunks (len2 xi) (len3 xi) ∘ slice s (s + cells xi).

(** The layer of level [i] of a module list (total). *)
Definition layer_at (ms : list layer) (i : nat) : layer := ms !!! i.

(** What a branch of the head gives on the levels: [ms[i](x[i])]. *)
Definition branch (ms : list layer) (x : list T4) : list T4 :=
  imap (λ i xi, layer_at ms i xi) x.

(** The [(bs, ch, cells)] tensor of the maps [ts]: the row of batch item
    [n] and channel [k] holds the cells of that channel, level after
    level. *)
Definition cells_of_levels (bs ch : nat) (ts : list T4) : T3 :=
  tabulate bs (λ n, tabulate ch (level_rows ts n)).

Definition v8_levels (cv2 cv3 : list layer) (x : list T4) : list T4 :=
  imap (λ i xi, cat_dim1 [layer_at cv2 i xi; layer_at cv3 i xi]) x.

(** [x_cat] and [box = self.dfl(box)] of the YOLOv8 heads, from the levels
    after the convolution loop. *)
Definition v8_cat (bs no : nat) (x' : list T4) : T3 :=
  cat_dim2 ((λ xi, view3_last bs no (flat4 xi)) <$> x').
Definition v8_box (dfl : T3 → T3) (reg_max nc : nat) (x_cat : T3) : T3 :=
  dfl (split_dim1 (reg_max * 4) nc x_cat).1.

(** What a caller observes of a call: the list after it and the value
    returned. *)
Definition observed (r : option (obj * list T4 * result))
  : option (list T4 * result) :=
  (λ s, (s.1.2, s.2)) <$> r.

(** The loop bodies of the adapters as functions of the level [i] and the
    old [x[i]]: what is written to [x[i]] and what is appended. *)
Definition conv_sigmoid_level (m : list layer) (i : nat) (xi : T4)
  : option (T4 * T4) :=
  mi ← m !! i; Some (mi xi, map4 sigmoid (mi xi)).

Definition decoupled_level
    (decode : obj → nat → nat → T4 → option T4)
    (conf : obj → T4 → option T4)
    (self : obj) (i : nat) (xi : T4) : option (T4 * T4) :=
  stems ← attr_modules self "stems"; stem ← stems !! i;
  cls_convs ← attr_modules self "cls_convs"; cls_conv ← cls_convs !! i;
  cls_preds ← attr_modules self "cls_preds"; cls_pred ← cls_preds !! i;
  reg_convs ← attr_modules self "reg_convs"; reg_conv ← reg_convs !! i;
  reg_preds ← attr_modules self "reg_preds"; reg_pred ← reg_preds !! i;
  reg_output ← decode self (len2 xi) (len3 xi) (reg_pred (reg_conv (stem xi)));
  let cls_output := map4 sigmoid (cls_pred (cls_conv (stem xi))) in
  c ← conf self cls_output;
  Some (stem xi, cat_dim1 [reg_output; c; cls_output]).

Definition cv_level (self : obj) (i : nat) (xi : T4) : option T4 :=
  cv2 ← attr_modules self "cv2"; cv2_i ← cv2 !! i;
  cv3 ← attr_modules self "cv3"; cv3_i ← cv3 !! i;
  Some (cat_dim1 [cv2_i xi; cv3_i xi]).

(** Entries of a matrix and of a rank-4 tensor. *)
Definition get2 (t : T2) (r c : nat) : option R := t !! r ≫= λ row, row !! c.
Definition get4 (t : T4) (n k r c : nat) : option R :=
  t !! n ≫= λ tb, tb !! k ≫= λ p, get2 p r c.


(** ** The detection layout *)

(** The heads with a [use_rvc2] switch. *)
Definition rvc2_heads : list adapter :=
  [ CDetectV8; COBBV8; CPoseV8; CSegmentV8; CDetectV6R3; CDetectV6R4s; CDetectV6R4m ].

Definition is_v8 (c : adapter) : bool :=
  match c with
  | CDetectV8 | COBBV8 | CPoseV8 | CSegmentV8 => true
  | _ => false
  end.

(** Attributes read at their type, with a default for a missing one. *)
Definition nat_attr (self : obj) (a : string) : nat := default 0 (attr_nat self a).
Definition modules_attr (self : obj) (a : string) : list layer :=
  default [] (attr_modules self a).
Definition dfl_attr (self : obj) : T3 → T3 := default (λ t : T3, t) (attr_module3 self "dfl").

(** [self.a] is a module list with a layer for each of [n] levels. *)
Definition has_modules (self : obj) (a : string) (n : nat) : Prop :=
  ∃ ms, attr_modules self a = Some ms ∧ n ≤ length ms.

(** The batch size the YOLOv8 heads use: [x[0].shape[0]], and for SegmentV8
    [self.proto(x[0]).shape[0]]. *)
Definition batch (c : adapter) (self : obj) (x : list T4) : nat :=
  match c with
  | CSegmentV8 => length (default (λ t : T4, t) (attr_module4 self "proto") (x !!! 0))
  | _ => length (x !!! 0)
  end.

(** The class logits of level [i]: [cv3[i](x[i])] in the YOLOv8 heads,
    [cls_preds[i](cls_convs[i](stems[i](x[i])))] in the decoupled heads. *)
Definition class_logits (c : adapter) (self : obj) (x : list T4) (i : nat) : T4 :=
  let xi := x !!! i in
  if is_v8 c then layer_at (modules_attr self "cv3") i xi
  else layer_at (modules_attr self "cls_preds") i
         (layer_at (modules_attr self "cls_convs") i
            (layer_at (modules_attr self "stems") i xi)).

Definition class_scores (c : adapter) (self : obj) (x : list T4) (i : nat) : T4 :=
  map4 sigmoid (class_logits c self x i).

(** [reg_preds[i](reg_convs[i](stems[i](x[i])))] *)
Definition reg_logits (self : obj) (x : list T4) (i : nat) : T4 :=
  layer_at (modules_attr self "reg_preds") i
    (layer_at (modules_attr self "reg_convs") i
       (layer_at (modules_attr self "stems") i (x !!! i))).


(** ** Distribution decoding *)

(** The values the channels [chans] hold at the cell [(r, c)]. *)
Definition cell_vector (chans : T3) (r c : nat) : T1 :=
  (λ m : T2, at2 m r c) <$> chans.

(** The [h] x [w] map that holds, at every cell, [f] of the values the
    channels hold there. *)
Definition pointwise (f : T1 → R) (h w : nat) (chans : T3) : T2 :=
  tabulate h (λ r, tabulate w (λ c, f (cell_vector chans r c))).

(** A 1 x 1 convolution with one output channel: every cell of the output
    is [φ] of the input channels at that cell ([φ] is the dot product with
    the kernel). *)
Definition conv1x1 (φ : T1 → R) : layer :=
  λ t, (λ chans : T3, [pointwise φ (len1 chans) (len2 chans) chans]) <$> t.


(** What the specification says of the decoding: the channels of every
    batch item are taken in 4 groups of [reg_max + 1] — the bin logits of a
    coordinate —; at every cell the softmax of the group's values is a
    distribution, which [φ] maps to the coordinate. *)
Definition dfl_decoded (φ : T1 → R) (reg_max h w : nat) (reg : T4) : T4 :=
  (λ reg_n : T3,
     pointwise (φ ∘ softmax_vec) h w <$> chunks 4 (reg_max + 1) reg_n) <$> reg.

(** What a 1 x 1 convolution with one output channel makes of the values
    [v] that the channels hold at a cell: its output on the map of one cell
    with these channels. *)
Definition cell_projection (proj_conv : layer) (v : T1) : R :=
  default 0%R (get4 (proj_conv [ (λ u : R, [[u]]) <$> v ]) 0 0 0 0).

(** Whether the head decodes its regression output: DetectV6R3,
    DetectV6R4m and DetectV2 with [use_dfl] set. *)
Definition uses_dfl (c : adapter) (self : obj) : bool :=
  match c with
  | CDetectV6R3 | CDetectV6R4m | CDetectV2 => default false (attr_bool self "use_dfl")
  | _ => false
  end.

(** The bounding-box regression channels of level [i].  In the YOLOv8 heads
    [dfl] is applied to the box logits [cv2[j](x[j])] of all levels, cell
    after cell, and the rows of the result are cut at the cells of level [i]
    and regrouped to the level's grid (the grid of its class logits).  In
    the decoupled heads they are the regression output
    [reg_preds[i](reg_convs[i](stems[i](x[i])))] of the level; a head that
    decodes it gives the four coordinates [dfl_decoded] on the grid of
    [x[i]], each the projection of the softmax of the coordinate's bin
    logits. *)
Definition level_box (c : adapter) (self : obj) (x : list T4) (i : nat) : T4 :=
  if is_v8 c then
    let c2 := branch (modules_attr self "cv2") x in
    let c3 := branch (modules_attr self "cv3") x in
    let box := dfl_attr self
                 (cells_of_levels (batch c self x) (nat_attr self "reg_max" * 4) c2) in
    map_rows (level_cut (c3 !!! i) (level_offset c3 i)) box
  else if uses_dfl c self then
    let xi := x !!! i in
    let proj_conv := default (λ t : T4, t) (attr_module4 self "proj_conv") in
    dfl_decoded (cell_projection proj_conv) (nat_attr self "reg_max")
      (len2 xi) (len3 xi) (reg_logits self x i)
  else reg_logits self x i.


(** Where the detection output of level [i] stands in the list returned
    (SegmentV8 puts the mask coefficients of the level before it). *)
Definition detection_index (c : adapter) (i : nat) : nat :=
  match c with
  | CSegmentV8 => 2 * i + 1
  | _ => i
  end.


(** What the regression decoding of a decoupled head needs: [use_dfl],
    and when it is set [reg_max] and a projection that is a 1 x 1
    convolution with one output channel. *)
Definition decode_ready (c : adapter) (self : obj) : Prop :=
  match c with
  | CDetectV6R3 | CDetectV6R4m | CDetectV2 =>
      is_Some (attr_bool self "use_dfl") ∧
      (uses_dfl c self = true →
       is_Some (attr_nat self "reg_max") ∧
       ∃ proj_conv φ, attr_module4 self "proj_conv" = Some proj_conv ∧
                      ∀ t, proj_conv t = conv1x1 φ t)
  | _ => True
  end.

(** What the extra branch of a YOLOv8 head needs: its attributes, and the
    shape of what [cv4] gives on each level.  The angle maps of OBBV8 are
    [(bs, ne, h, w)] tensors on some grid; the keypoint maps of PoseV8 and
    the mask coefficients of SegmentV8 have [nk] and [nm] channels on the
    grid of the level.  PoseV8 has a stride for each level, and its
    keypoints have two or three rows each. *)
Definition extras_ready (c : adapter) (self : obj) (x : list T4) : Prop :=
  let nl := nat_attr self "nl" in
  let bs := batch c self x in
  let c3 := branch (modules_attr self "cv3") x in
  let c4 := branch (modules_attr self "cv4") x in
  let on_grid (ch : nat) :=
    Forall2 (λ t4 t3 : T4, has_shape4 bs ch (len2 t3) (len3 t3) t4) c4 c3 in
  match c with
  | COBBV8 =>
      is_Some (attr_nat self "ne") ∧ has_modules self "cv4" nl ∧
      0 < nat_attr self "ne" ∧ Forall (shaped4 bs (nat_attr self "ne")) c4
  | CPoseV8 =>
      is_Some (attr_nat self "nk") ∧ has_modules self "cv4" nl ∧
      (∃ nkpt ndim, attr_ints self "kpt_shape" = Some [nkpt; ndim] ∧
         nat_attr self "nk" = nkpt * ndim ∧ 0 < nkpt ∧ (ndim = 2 ∨ ndim = 3)) ∧
      (∃ stride, attr_T1 self "stride" = Some stride ∧ length stride = nl) ∧
      on_grid (nat_attr self "nk")
  | CSegmentV8 =>
      is_Some (attr_module4 self "proto") ∧ is_Some (attr_nat self "nm") ∧
      has_modules self "cv4" nl ∧ 0 < nat_attr self "nm" ∧
      on_grid (nat_attr self "nm")
  | _ => True
  end.

(** A well-shaped call of a YOLOv8 head: one feature map per level; the
    layers of level [i] map it to [(bs, 4 * reg_max, h, w)] box logits and
    [(bs, nc, h, w)] class logits; [dfl] maps the box logits of all cells to
    a [(bs, cb, cells)] tensor; the extra branch is as [extras_ready] says. *)
Definition v8_well_shaped (c : adapter) (self : obj) (x : list T4) : Prop :=
  let nl := nat_attr self "nl" in
  let no := nat_attr self "no" in
  let reg_max := nat_attr self "reg_max" in
  let nc := nat_attr self "nc" in
  let bs := batch c self x in
  let cv2 := modules_attr self "cv2" in
  let cv3 := modules_attr self "cv3" in
  is_Some (attr_nat self "nl") ∧ is_Some (attr_nat self "no") ∧
  is_Some (attr_nat self "reg_max") ∧ is_Some (attr_nat self "nc") ∧
  is_Some (attr_module3 self "dfl") ∧
  has_modules self "cv2" nl ∧ has_modules self "cv3" nl ∧
  length x = nl ∧ 0 < nl ∧ no = reg_max * 4 + nc ∧ 0 < bs ∧ 0 < nc ∧
  (∀ i xi, x !! i = Some xi →
     ∃ h w, 0 < h ∧ 0 < w ∧
       has_shape4 bs (reg_max * 4) h w (layer_at cv2 i xi) ∧
       has_shape4 bs nc h w (layer_at cv3 i xi)) ∧
  (∃ cb, has_shape3 bs cb (sum_list_with cells (branch cv3 x))
           (dfl_attr self (cells_of_levels bs (reg_max * 4) (branch cv2 x)))) ∧
  extras_ready c self x.

(** A well-shaped call of a decoupled head: a feature map and layers for
    each level; the class branch of level [i] gives [(b, nc, h, w)] logits
    and the regression branch a [(b, cb, h, w)] tensor of the same batch
    size on the same grid; for a head that decodes it, that grid is the one
    of [x[i]] and the [cb = 4 * (reg_max + 1)] channels are the bin logits
    of the four coordinates. *)
Definition decoupled_well_shaped (c : adapter) (self : obj) (x : list T4) : Prop :=
  let nl := nat_attr self "nl" in
  let nc := nat_attr self "nc" in
  is_Some (attr_nat self "nl") ∧ nl ≤ length x ∧
  has_modules self "stems" nl ∧ has_modules self "cls_convs" nl ∧
  has_modules self "cls_preds" nl ∧ has_modules self "reg_convs" nl ∧
  has_modules self "reg_preds" nl ∧
  decode_ready c self ∧ 0 < nc ∧
  ∀ i, i < nl →
    ∃ b cb h w, 0 < b ∧ 0 < h ∧ 0 < w ∧
      has_shape4 b nc h w (class_logits c self x i) ∧
      has_shape4 b cb h w (reg_logits self x i) ∧
      (uses_dfl c self = true →
       len2 (x !!! i) = h ∧ len3 (x !!! i) = w ∧
       cb = 4 * (nat_attr self "reg_max" + 1)).

Definition well_shaped (c : adapter) (self : obj) (x : list T4) : Prop :=
  if is_v8 c then v8_well_shaped c self x else decoupled_well_shaped c self x.

(** ** Anchors *)

(** The centres of the cells of an [h] x [w] grid, row by row: the point of
    the cell in row [r] and column [c] is [(c + offset, r + offset)]. *)
Definition cell_centers (offset : R) (h w : nat) : T2 :=
  concat (tabulate h (λ r, tabulate w (λ c, [INR c + offset; INR r + offset]%R))).

(** The feature map [f] has the spatial size [hw]. *)
Definition level_of_size (f : T4) (hw : nat * nat) : Prop :=
  ∃ b c, 0 < b ∧ 0 < c ∧ has_shape4 b c hw.1 hw.2 f.

(** The anchors and the strides PoseV8 caches for the maps [ts]: the row of
    the [x] and the row of the [y] coordinates of the cell centres, level
    after level, and the row that holds for every cell the stride of its
    level. *)
Definition anchor_rows (ts : list T4) : T2 :=
  let points := concat ((λ t : T4, cell_centers 0.5 (len2 t) (len3 t)) <$> ts) in
  [ (λ p : T1, p !!! 0) <$> points; (λ p : T1, p !!! 1) <$> points ].
Definition stride_row (stride : T1) (ts : list T4) : T2 :=
  [ concat (zip_with (λ s (t : T4), replicate (cells t) s) stride ts) ].

(** ** Keypoints *)

(** The rows of one keypoint decoded: row 0 and row 1 are the [x] and the
    [y] channel, [(raw * 2.0 + (anchor - 0.5)) * stride] with the anchor row
    of the same index; a further row is the visibility, through sigmoid. *)
Definition keypoint_rows (anchors strides : T2) (yk : T2) : T2 :=
  imap (λ d (row : T1),
      if decide (d < 2)
      then zip_with (λ v s, v * s)%R
             (zip_with (λ raw a, raw * 2 + (a - 0.5))%R row (anchors !!! d))
             (strides !!! 0)
      else sigmoid <$> row)
    yk.

(** The [(bs, nk, A)] keypoint tensor decoded: in every batch item the rows
    are taken keypoint by keypoint, [ndim] rows each. *)
Definition decoded_keypoints (anchors strides : T2) (nkpt ndim : nat) (kpts : T3) : T3 :=
  (λ tb : T2, concat (keypoint_rows anchors strides <$> chunks nkpt ndim tb)) <$> kpts.

(** ** Constructors *)

(** What a statement of a constructor leaves in the attribute [k], from
    what the attribute held before the statement. *)
Abbreviation effect := (string → option value → option value).

Class Assigns (stmt : obj → option obj) (E : effect) : Prop :=
  assigns : ∀ self self', stmt self = Some self' → ∀ k, self' !! k = E k (self !! k).

(** The same for the statements of a constructor body, one by one. *)
Class BodyAssigns (body : list (obj → option obj)) (Es : list effect) : Prop :=
  body_assigns : Forall2 Assigns body Es.

(** The attribute [k] after the statements with the effects [Es], run on
    the empty instance. *)
Definition attr_after (Es : list effect) (k : string) : option value :=
  foldl (λ prev (E : effect), E k prev) None Es.

(** The attributes each constructor takes unchanged from the wrapped head
    (an attribute copied under [hasattr] is absent on both sides when the
    head has none). *)
Definition v8_copied : list string :=
  ["nc"; "nl"; "reg_max"; "no"; "stride"; "cv2"; "cv3"; "dfl"; "f"; "i"].
Definition copied_attrs (c : adapter) : list string :=
  match c with
  | CDetectV5 =>
      ["nc"; "no"; "nl"; "na"; "grid"; "anchor_grid"; "m"; "inplace"; "stride";
       "anchors"; "f"; "i"]
  | CDetectV7 =>
      ["nc"; "no"; "nl"; "na"; "grid"; "anchor_grid"; "m"; "stride"; "anchors";
       "f"; "i"]
  | CDetectV6R1 | CDetectV1 =>
      ["nc"; "no"; "nl"; "na"; "anchors"; "grid"; "inplace"; "stems"; "cls_convs";
       "reg_convs"; "cls_preds"; "reg_preds"; "obj_preds"]
  | CDetectV6R3 =>
      ["nc"; "no"; "nl"; "anchors"; "grid"; "inplace"; "use_dfl"; "reg_max";
       "proj_conv"; "stems"; "cls_convs"; "reg_convs"]
  | CDetectV6R4s | CDetectV6R4m =>
      ["nc"; "no"; "nl"; "anchors"; "grid"; "inplace"; "stride"; "use_dfl";
       "reg_max"; "proj_conv"; "stems"; "cls_convs"; "reg_convs"]
  | CDetectV8 => v8_copied
  | COBBV8 => v8_copied ++ ["ne"; "cv4"]
  | CPoseV8 => v8_copied ++ ["kpt_shape"; "nk"; "cv4"]
  | CSegmentV8 => v8_copied ++ ["nm"; "npr"; "proto"; "detect"; "cv4"]
  | CClassifyV8 => ["conv"; "pool"; "drop"; "linear"; "f"; "i"]
  | CDetectV2 =>
      ["nc"; "no"; "nl"; "anchors"; "grid"; "inplace"; "use_dfl"; "reg_max";
       "proj_conv"; "stems"; "cls_convs"; "reg_convs"; "cls_preds"; "reg_preds"]
  end.

(** The classes whose stride is the wrapped head's, and those that set the
    constant [[8, 16, 32]]. *)
Definition stride_copying : list adapter :=
  [ CDetectV5; CDetectV7; CDetectV6R4s; CDetectV6R4m;
    CDetectV8; COBBV8; CPoseV8; CSegmentV8 ].
Definition stride_fixing : list adapter :=
  [ CDetectV6R1; CDetectV6R3; CDetectV2; CDetectV1 ].

(** ** Effects of a call *)

(** The attributes a [forward] assigns: PoseV8 caches the anchors, the
    strides and the batch size, DetectV6R1 and DetectV1 write the grid. *)
Definition cached_attrs (c : adapter) : list string :=
  match c with
  | CPoseV8 => ["anchors"; "strides"; "shape"]
  | CDetectV6R1 | CDetectV1 => ["grid"]
  | _ => []
  end.

(** The tensor a [forward] assigns to [x[i]]: [self.m[i](x[i])] in DetectV5
    and DetectV7, [self.stems[i](x[i])] in the six YOLOv6 heads,
    [torch.cat((self.cv2[i](x[i]), self.cv3[i](x[i])), 1)] in the YOLOv8
    detection heads.  ClassifyV8 has one convolved map, [self.conv] of the
    concatenated list. *)
Definition written (c : adapter) (self : obj) (x : list T4) (i : nat) : T4 :=
  let xi := x !!! i in
  match c with
  | CDetectV5 | CDetectV7 => layer_at (modules_attr self "m") i xi
  | CDetectV8 | COBBV8 | CPoseV8 | CSegmentV8 =>
      cat_dim1 [layer_at (modules_attr self "cv2") i xi;
                layer_at (modules_attr self "cv3") i xi]
  | CClassifyV8 =>
      default (λ t : T4, t) (attr_module4 self "conv") (cat_dim1 x)
  | _ => layer_at (modules_attr self "stems") i xi
  end.

(** [x'] is the list [x] after a loop over [nl] levels that has assigned
    [w i] to [x[i]]: the list has its length, the levels below [nl] hold what
    was written and the elements from [nl] on are untouched. *)
Definition levels_written (w : nat → T4) (nl : nat) (x x' : list T4) : Prop :=
  nl ≤ length x ∧ length x' = length x ∧
  (∀ i, i < nl → x' !! i = Some (w i)) ∧
  (∀ i, nl ≤ i → x' !! i = x !! i).

(** ** Examples *)

(** A module list of [n] layers that return their input. *)
Definition identity_layers (n : nat) : value :=
  VModuleList (replicate n (λ t : T4, t)).

(** A YOLOv6 head with four levels (a P6 model): its strides are
    [[8, 16, 32, 64]]. *)
Definition v6_p6_head : obj :=
  list_to_map
    [ ("nc", VInt 1); ("no", VInt 6); ("nl", VInt 4);
      ("grid", VTensors (replicate 4 (Ten1 [0%R]))); ("inplace", VBool true);
      ("stride", VTensor (Ten1 [8; 16; 32; 64]%R));
      ("use_dfl", VBool false); ("reg_max", VInt 0);
      ("proj_conv", VModule4 (λ t, t));
      ("stems", identity_layers 4); ("cls_convs", identity_layers 4);
      ("reg_convs", identity_layers 4); ("cls_preds", identity_layers 4);
      ("reg_preds", identity_layers 4) ].

(** [DetectV6R3(v6_p6_head, True)] *)
Definition v6_p6_adapter : obj := default ∅ (init CDetectV6R3 v6_p6_head true).

(** A layer that repeats the channels of its input [n] times. *)
Definition repeat_channels (n : nat) : layer := λ t, cat_dim1 (replicate n t).

(** A one-level YOLOv8 pose head: one class, [reg_max = 1], one keypoint
    with [x], [y] and visibility. *)
Definition pose_head : obj :=
  list_to_map
    [ ("nc", VInt 1); ("nl", VInt 1); ("reg_max", VInt 1); ("no", VInt 5);
      ("stride", VTensor (Ten1 [8%R]));
      ("cv2", VModuleList [repeat_channels 4]);
      ("cv3", VModuleList [repeat_channels 1]);
      ("dfl", VModule3 (λ t, t));
      ("f", VInt 0); ("i", VInt 0);
      ("kpt_shape", VInts [1; 3]); ("nk", VInt 3);
      ("cv4", VModuleList [repeat_channels 3]) ].

(** [PoseV8(pose_head, False)] *)
Definition pose_adapter : obj := default ∅ (init CPoseV8 pose_head false).

(** One feature map of batch size 1 with one channel on a 1 x 2 grid. *)
Definition one_level : list T4 := [ [[[[0; 1]]]]%R ].

(** The projection of YOLOv6 for [reg_max = 1]: a 1 x 1 convolution whose
    kernel is [[0, 1]]. *)
Definition proj_conv_01 : layer := conv1x1 (dot [0; 1]%R).


(** The attributes every YOLOv8 head has, for one level, one class and
    [reg_max = 1]: [cv2] gives the four box channels, [cv3] the class
    channel, [dfl] returns its input. *)
Definition v8_head_common : list (string * value) :=
  [ ("nc", VInt 1); ("nl", VInt 1); ("reg_max", VInt 1); ("no", VInt 5);
    ("stride", VTensor (Ten1 [8%R]));
    ("cv2", VModuleList [repeat_channels 4]);
    ("cv3", VModuleList [repeat_channels 1]);
    ("dfl", VModule3 (λ t, t));
    ("f", VInt 0); ("i", VInt 0) ].

(** An oriented-box head: one angle channel. *)
Definition obb_head : obj :=
  list_to_map (v8_head_common ++
    [ ("ne", VInt 1); ("cv4", VModuleList [repeat_channels 1]) ]).

(** [OBBV8(obb_head, False)] *)
Definition obb_adapter : obj := default ∅ (init COBBV8 obb_head false).

(** A layer with two output channels: its input and one minus its input. *)
Definition two_scores : layer := λ t, cat_dim1 [t; map4 (λ v, 1 - v)%R t].

(** Two feature maps of batch size 1 with one channel, on a 1 x 2 and on a
    2 x 1 grid. *)
Definition two_levels : list T4 := [ [[[[0; 1]]]]; [[[[0]; [1]]]] ]%R.

(** A two-level YOLOv8 detection head with two classes and [reg_max = 1];
    the class logits of a cell are its input [v] and [1 - v]. *)
Definition detect2_head : obj :=
  list_to_map
    [ ("nc", VInt 2); ("nl", VInt 2); ("reg_max", VInt 1); ("no", VInt 6);
      ("stride", VTensor (Ten1 [8; 16]%R));
      ("cv2", VModuleList [repeat_channels 4; repeat_channels 4]);
      ("cv3", VModuleList [two_scores; two_scores]);
      ("dfl", VModule3 (λ t, t));
      ("f", VInt 0); ("i", VInt 0) ].

(** [DetectV8(detect2_head, True)] *)
Definition detect2_adapter : obj := default ∅ (init CDetectV8 detect2_head true).



(** A one-level YOLOv6 head with distribution decoding: [reg_max = 1], the
    projection [proj_conv_01], eight channels of bin logits. *)
Definition dfl_head : obj :=
  list_to_map
    [ ("nc", VInt 1); ("no", VInt 5); ("nl", VInt 1);
      ("grid", VTensors [Ten1 [0%R]]); ("inplace", VBool true);
      ("stride", VTensor (Ten1 [8%R]));
      ("use_dfl", VBool true); ("reg_max", VInt 1);
      ("proj_conv", VModule4 proj_conv_01);
      ("stems", identity_layers 1); ("cls_convs", identity_layers 1);
      ("reg_convs", identity_layers 1);
      ("cls_preds", VModuleList [repeat_channels 1]);
      ("reg_preds", VModuleList [repeat_channels 8]) ].

(** [DetectV6R3(dfl_head, True)] *)
Definition dfl_adapter : obj := default ∅ (init CDetectV6R3 dfl_head true).

(** A one-level YOLOv6 head without distribution decoding: one class, four
    box channels. *)
Definition v6_head : obj :=
  list_to_map
    [ ("nc", VInt 1); ("no", VInt 6); ("nl", VInt 1);
      ("grid", VTensors [Ten1 [0%R]]); ("inplace", VBool true);
      ("stride", VTensor (Ten1 [8%R]));
      ("stems", identity_layers 1); ("cls_convs", identity_layers 1);
      ("reg_convs", identity_layers 1);
      ("cls_preds", VModuleList [repeat_channels 1]);
      ("reg_preds", VModuleList [repeat_channels 4]) ].

(** [DetectV6R4s(v6_head, False)] *)
Definition v6_adapter : obj := default ∅ (init CDetectV6R4s v6_head false).

(** A YOLOv5/YOLOv7 head with one level. *)
Definition yolo_head : obj :=
  list_to_map
    [ ("nc", VInt 1); ("no", VInt 6); ("nl", VInt 1); ("na", VInt 1);
      ("grid", VTensors [Ten1 [0%R]]); ("anchor_grid", VTensors [Ten1 [0%R]]);
      ("m", VModuleList [repeat_channels 6]); ("inplace", VBool true);
      ("stride", VTensor (Ten1 [8%R])); ("anchors", VTensor (Ten3 [[[10; 13]%R]]));
      ("f", VInt 0); ("i", VInt 0) ].

(** [DetectV5(yolo_head)] and [DetectV7(yolo_head)] *)
Definition v5_adapter : obj := default ∅ (init CDetectV5 yolo_head false).
Definition v7_adapter : obj := default ∅ (init CDetectV7 yolo_head false).

(** The pose adapter after a call on [one_level]: the anchors of the two
    cells (the columns [(0 + 0.5, 0 + 0.5)] and [(1 + 0.5, 0 + 0.5)]), their
    strides and the batch size are cached. *)
Definition cell_anchors : T2 := [[0 + 0.5; 1 + 0.5]; [0 + 0.5; 0 + 0.5]]%R.
Definition cell_strides : T2 := [[8; 8]]%R.
Definition pose_cached : obj :=
  <["shape" := VInt 1]>
    (<["strides" := VTensor (Ten2 cell_strides)]>
    (<["anchors" := VTensor (Ten2 cell_anchors)]> pose_adapter)).

(** Raw keypoints of batch size 1: one keypoint of three rows on two cells. *)
Definition kpts_example : T3 := [ [[0; 1]; [0; 1]; [0; 1]]%R ].

(** A classification head whose convolution adds one to every entry. *)
Definition classify_head : obj :=
  list_to_map
    [ ("conv", VModule4 (map4 (λ v, v + 1)%R)); ("pool", VModule4 (λ t, t));
      ("drop", VModule2 (λ t, t)); ("linear", VModule2 (λ t, t));
      ("f", VInt 0); ("i", VInt 0) ].

(** [ClassifyV8(classify_head, False)] *)
Definition classify_adapter : obj :=
  default ∅ (init CClassifyV8 classify_head false).

(** ** Further properties of the code *)

(** A tensor of rank 5 all of whose innermost rows satisfy [P]. *)
Definition rows5 (P : T1 → Prop) (t : T5) : Prop :=
  Forall (Forall (Forall (Forall P))) t.

(** One decoded box: a prediction of at least four entries and its grid
    cell [(gx, gy)]. *)
Definition box_example : T5 := [[[[[0; 1; 0; 1; 0; 1]]]]]%R.
Definition grid_example : T5 := [[[[[0; 0]]]]]%R.

(** What a statement of a constructor needs to succeed (it does not depend
    on the instance built so far), and the same for a constructor body. *)
Class Needs (stmt : obj → option obj) (P : Prop) : Prop :=
  needs : ∀ self, is_Some (stmt self) ↔ P.
Class BodyNeeds (body : list (obj → option obj)) (Ps : list Prop) : Prop :=
  body_needs : Forall2 Needs body Ps.

(** The attributes each constructor reads from the wrapped head without
    asking [hasattr] first. *)
Definition required_attrs (c : adapter) : list string :=
  match c with
  | CDetectV5 =>
      ["nc"; "no"; "nl"; "na"; "grid"; "anchor_grid"; "m"; "inplace"; "stride";
       "anchors"; "f"; "i"]
  | CDetectV7 =>
      ["nc"; "no"; "nl"; "na"; "grid"; "anchor_grid"; "m"; "stride"; "anchors";
       "f"; "i"]
  | CDetectV6R1 | CDetectV1 =>
      ["nc"; "no"; "nl"; "na"; "anchors"; "grid"; "inplace"; "stems"; "cls_convs";
       "reg_convs"; "cls_preds"; "reg_preds"; "obj_preds"]
  | CDetectV6R3 =>
      ["nc"; "no"; "nl"; "grid"; "inplace"; "use_dfl"; "reg_max"; "proj_conv";
       "stems"; "cls_convs"; "reg_convs"]
  | CDetectV6R4s =>
      ["nc"; "no"; "nl"; "grid"; "inplace"; "stride"; "stems"; "cls_convs";
       "reg_convs"]
  | CDetectV6R4m =>
      ["nc"; "no"; "nl"; "grid"; "inplace"; "stride"; "use_dfl"; "reg_max";
       "proj_conv"; "stems"; "cls_convs"; "reg_convs"]
  | CDetectV8 => v8_copied
  | COBBV8 => v8_copied ++ ["ne"; "cv4"]
  | CPoseV8 => v8_copied ++ ["kpt_shape"; "nk"; "cv4"]
  | CSegmentV8 => v8_copied ++ ["nm"; "npr"; "proto"; "detect"; "cv4"]
  | CClassifyV8 => ["conv"; "pool"; "drop"; "linear"; "f"; "i"]
  | CDetectV2 =>
      ["nc"; "no"; "nl"; "grid"; "inplace"; "use_dfl"; "reg_max"; "proj_conv";
       "stems"; "cls_convs"; "reg_convs"; "cls_preds"; "reg_preds"]
  end.

(** The number of tensors in the list a [forward] returns: one per level
    in the heads that loop over [range(self.nl)]; in the YOLOv8 heads, whose
    output loop runs over the list, one per element of the list, one more
    for the angles or keypoints, and in SegmentV8 two per element and the
    prototypes. *)
Definition output_count (c : adapter) (self : obj) (x : list T4) : nat :=
  match c with
  | CDetectV8 => length x
  | COBBV8 | CPoseV8 => length x + 1
  | CSegmentV8 => 2 * length x + 1
  | _ => nat_attr self "nl"
  end.

(** The classes whose [forward] returns one tensor. *)
Definition tensor_heads : list adapter := [CDetectV6R1; CDetectV1; CClassifyV8].

(** One feature map of batch size 1 with one channel on a 2 x 1 grid: as
    many cells as [one_level], in a column. *)
Definition tall_level : list T4 := [ [[[[0]; [1]]]]%R ].

(** The attributes [forward] of the anchor-free decoupled heads reads. *)
Definition decoupled_reads : list string :=
  ["nl"; "stems"; "cls_convs"; "cls_preds"; "reg_convs"; "reg_preds";
   "use_dfl"; "reg_max"; "proj_conv"].

(** Class logits of batch size 1: two classes on a 1 x 2 grid, and the
    same with the cells in a row. *)
Definition logits4_example : T4 := [ [[[0; 1]]; [[1; 0]]] ]%R.
Definition logits3_example : T3 := [ [[0; 1]; [1; 0]] ]%R.

(** A feature map of batch size 1 with two channels on a 1 x 2 grid: the
    grid of [one_level], other values. *)
Definition other_level : list T4 := [ [[[[5; 7]]; [[1; 2]]]]%R ].

(** Two feature maps have the same spatial size. *)
Definition same_size (f g : T4) : Prop := len2 f = len2 g ∧ len3 f = len3 g.

(** The attributes of the distribution decoding. *)
Definition dfl_attrs : list string := ["use_dfl"; "reg_max"; "proj_conv"].

(** * Properties *)

(** ** Blocks, slices and reductions *)

Section list_facts.
Context {A B C : Type}.
Implicit Types (l : list A) (ls : list (list A)).

Lemma length_chunks k n l : length (chunks k n l) = k.
Proof. revert l; induction k; intros; simpl; auto. Qed.

Lemma chunks_app k n l r :
  length r = n → chunks (S k) n (r ++ l) = r :: chunks k n l.
Proof.
  intros <-. simpl. rewrite take_app_length, drop_app_length. done.
Qed.

Lemma chunks_concat n ls :
  Forall (λ r, length r = n) ls → chunks (length ls) n (concat ls) = ls.
Proof.
  induction 1 as [|r ls Hr _ IH]; [done|].
  cbn [length concat]. rewrite chunks_app by done. by rewrite IH.
Qed.

Lemma length_concat_uniform n ls :
  Forall (λ r, length r = n) ls → length (concat ls) = length ls * n.
Proof.
  induction 1 as [|r ls Hr _ IH]; [done|].
  cbn [length concat]. rewrite length_app, IH, Hr. lia.
Qed.

Lemma chunks_fmap (f : A → B) k n l :
  chunks k n (f <$> l) = (λ r : list A, f <$> r) <$> chunks k n l.
Proof.
  revert l; induction k as [|k IH]; intros l; [done|].
  simpl. rewrite <- fmap_take, <- fmap_drop, IH. done.
Qed.

Lemma chunks_zip_with (f : A → B → C) k n l (l' : list B) :
  chunks k n (zip_with f l l')
  = zip_with (zip_with f) (chunks k n l) (chunks k n l').
Proof.
  revert l l'; induction k as [|k IH]; intros l l'; [done|].
  simpl. rewrite zip_with_take, zip_with_drop, IH. done.
Qed.

Lemma chunks_replicate k n m (v : A) :
  k * n ≤ m → chunks k n (replicate m v) = replicate k (replicate n v).
Proof.
  revert m; induction k as [|k IH]; intros m Hm; [done|].
  simpl. rewrite take_replicate, drop_replicate, IH by lia.
  f_equal. f_equal. lia.
Qed.


Lemma slice_fmap (f : A → B) s e l : slice s e (f <$> l) = f <$> slice s e l.
Proof. unfold slice. by rewrite <- fmap_drop, <- fmap_take. Qed.

Lemma slice_zip_with (f : A → B → C) s e l (l' : list B) :
  slice s e (zip_with f l l') = zip_with f (slice s e l) (slice s e l').
Proof. unfold slice. by rewrite zip_with_drop, zip_with_take. Qed.

Lemma slice_replicate s e m (v : A) :
  e ≤ m → slice s e (replicate m v) = replicate (e - s) v.
Proof.
  intros. unfold slice. rewrite drop_replicate, take_replicate.
  f_equal. lia.
Qed.

Lemma length_slice s e l : e ≤ length l → length (slice s e l) = e - s.
Proof. intros. unfold slice. rewrite length_take, length_drop. lia. Qed.

Lemma slice_app_l s e l l' :
  e ≤ length l → slice s e (l ++ l') = slice s e l.
Proof.
  intros He. unfold slice.
  destruct (decide (s ≤ length l)) as [Hs|Hs].
  - rewrite drop_app_le by done. rewrite take_app_le; [done|].
    rewrite length_drop. lia.
  - replace (e - s) with 0 by lia. done.
Qed.

Lemma slice_app_r s e l l' :
  slice (length l + s) (length l + e) (l ++ l') = slice s e l'.
Proof.
  unfold slice. rewrite drop_app_ge by lia.
  f_equal; [lia|]. f_equal. lia.
Qed.

Lemma slice_app_exact l l' r :
  slice (length l) (length l + length r) (l ++ r ++ l') = r.
Proof.
  unfold slice. rewrite drop_app_length.
  replace (length l + length r - length l) with (length r) by lia.
  by rewrite take_app_length.
Qed.

Lemma foldl_commute (g : A → B) (f : A → A → A) (f' : B → B → B) a l :
  (∀ u v, g (f u v) = f' (g u) (g v)) →
  g (foldl f a l) = foldl f' (g a) (g <$> l).
Proof.
  intros Hg. revert a; induction l as [|b l IH]; intros a; [done|].
  simpl. by rewrite IH, Hg.
Qed.

Lemma reduce_commute (g : A → B) (f : A → A → A) (f' : B → B → B) d d' l :
  (∀ u v, g (f u v) = f' (g u) (g v)) → l ≠ [] →
  g (reduce f d l) = reduce f' d' (g <$> l).
Proof.
  intros Hg Hl. destruct l as [|a l]; [done|]. simpl.
  by apply foldl_commute.
Qed.
End list_facts.

(** ** Shapes, flattening and views *)

Lemma concat_fmap_concat {A} (l : list (list (list A))) :
  concat (@concat _ <$> l) = concat (concat l).
Proof.
  induction l as [|a l IH]; [done|]. cbn. by rewrite concat_app, IH.
Qed.

Lemma has_shape2_length_concat a b (t : T2) :
  has_shape2 a b t → length (concat t) = a * b.
Proof.
  intros [<- Ht]. by apply length_concat_uniform.
Qed.

Lemma has_shape3_length_flat a b c (t : T3) :
  has_shape3 a b c t → length (flat3 t) = a * (b * c).
Proof.
  intros [<- Ht]. unfold flat3. rewrite <- concat_fmap_concat.
  rewrite (length_concat_uniform (b * c)), length_fmap; [done|].
  apply Forall_fmap. eapply Forall_impl; [exact Ht|].
  intros tb. apply has_shape2_length_concat.
Qed.

Lemma build2_concat a b (t : T2) : has_shape2 a b t → build2 a b (concat t) = t.
Proof. intros [<- Ht]. by apply chunks_concat. Qed.

Lemma build3_flat3 a b c (t : T3) : has_shape3 a b c t → build3 a b c (flat3 t) = t.
Proof.
  intros [<- Ht]. unfold build3, flat3. rewrite <- concat_fmap_concat.
  rewrite <- (length_fmap (@concat _) t), (chunks_concat (b * c)).
  - rewrite <- list_fmap_compose. rewrite <- (list_fmap_id t) at 2.
    apply Forall_fmap_ext. eapply Forall_impl; [exact Ht|].
    intros tb. apply build2_concat.
  - apply Forall_fmap. eapply Forall_impl; [exact Ht|].
    intros tb. apply has_shape2_length_concat.
Qed.

Lemma flat3_flat_hw (t : T4) : flat3 (flat_hw t) = flat4 t.
Proof.
  unfold flat3, flat4, flat_hw.
  induction t as [|tb t IH]; [done|]. cbn.
  rewrite !concat_app, IH. by rewrite concat_fmap_concat.
Qed.

Lemma has_shape3_flat_hw a b h w (t : T4) :
  has_shape4 a b h w t → has_shape3 a b (h * w) (flat_hw t).
Proof.
  intros [<- Ht]. unfold flat_hw. split; [by rewrite length_fmap|].
  apply Forall_fmap. eapply Forall_impl; [exact Ht|].
  intros tb [<- Htb]. cbn. split; [by rewrite length_fmap|].
  apply Forall_fmap. eapply Forall_impl; [exact Htb|].
  intros ch. apply has_shape2_length_concat.
Qed.

Lemma has_shape4_length_flat a b c d (t : T4) :
  has_shape4 a b c d t → length (flat4 t) = a * (b * (c * d)).
Proof.
  intros Ht. rewrite <- flat3_flat_hw.
  apply has_shape3_length_flat. by apply has_shape3_flat_hw.
Qed.

Lemma unflat_flat_hw a b h w (t : T4) :
  has_shape4 a b h w t → unflat_hw h w (flat_hw t) = t.
Proof.
  intros [_ Ht]. unfold unflat_hw, flat_hw.
  rewrite <- list_fmap_compose. rewrite <- (list_fmap_id t) at 2.
  apply Forall_fmap_ext. eapply Forall_impl; [exact Ht|].
  intros tb [_ Htb]. cbn. rewrite <- list_fmap_compose.
  rewrite <- (list_fmap_id tb) at 2.
  apply Forall_fmap_ext. eapply Forall_impl; [exact Htb|].
  intros ch. apply build2_concat.
Qed.

Lemma div_mul_l a b : 0 < a → (a * b) `div` a = b.
Proof. intros. rewrite Nat.mul_comm. apply Nat.div_mul. lia. Qed.

(** [t.view(a, b, -1)] of an [(a, b, h, w)] tensor. *)
Lemma view3_last_flat4 a b h w (t : T4) :
  has_shape4 a b h w t → 0 < a → 0 < b →
  view3_last a b (flat4 t) = flat_hw t.
Proof.
  intros Ht Ha Hb. unfold view3_last.
  rewrite (has_shape4_length_flat a b h w) by done.
  rewrite Nat.mul_assoc, div_mul_l by lia.
  rewrite <- flat3_flat_hw. apply build3_flat3. by apply has_shape3_flat_hw.
Qed.

(** [t.view(a, -1, h, w)] of an [(a, b, h * w)] tensor. *)
Lemma view4_dim1_flat3 a b h w (t : T3) :
  has_shape3 a b (h * w) t → 0 < a → 0 < h → 0 < w →
  view4_dim1 a h w (flat3 t) = unflat_hw h w t.
Proof.
  intros Ht Ha Hh Hw. unfold view4_dim1.
  rewrite (has_shape3_length_flat a b (h * w)) by done.
  replace (a * (b * (h * w))) with (b * (a * h * w)) by lia.
  rewrite Nat.div_mul by lia.
  destruct Ht as [<- Ht]. unfold build4, flat3.
  rewrite <- concat_fmap_concat.
  rewrite <- (length_fmap (@concat _) t), (chunks_concat (b * h * w)).
  - rewrite <- list_fmap_compose. apply Forall_fmap_ext.
    eapply Forall_impl; [exact Ht|]. intros tb [<- Htb]. cbn.
    unfold build3. replace (h * w) with (h * w) by done.
    rewrite (chunks_concat (h * w)) by done. done.
  - apply Forall_fmap. eapply Forall_impl; [exact Ht|].
    intros tb Htb. cbn. rewrite (has_shape2_length_concat b (h * w)) by done. lia.
Qed.

Lemma len1_shape {X} a b (t : list (list X)) :
  length t = a → Forall (λ r, length r = b) t → 0 < a → len1 t = b.
Proof.
  intros Ha Ht Hpos. destruct t as [|r t]; [simpl in *; lia|].
  by inversion Ht.
Qed.

Lemma has_shape4_dims a b h w (t : T4) :
  has_shape4 a b h w t → 0 < a → 0 < b → 0 < h →
  length t = a ∧ len1 t = b ∧ len2 t = h ∧ len3 t = w.
Proof.
  intros [Ha Ht] ? ? ?. destruct t as [|tb t]; [simpl in *; lia|].
  inversion Ht as [|?? [Hb Htb] _]; subst.
  destruct tb as [|ch tb]; [simpl in *; lia|].
  inversion Htb as [|?? [Hh Hch] _]; subst.
  destruct ch as [|r ch]; [simpl in *; lia|].
  inversion Hch as [|?? Hw _]; subst. done.
Qed.

(** ** Loops over the levels *)

Lemma levels_of_insert {O} (g : nat → T4 → option O) x i j n v :
  j < i → levels_of g (<[j := v]> x) i n = levels_of g x i n.
Proof.
  intros Hj. unfold levels_of. revert i Hj.
  induction n as [|n IH]; intros i Hj; [done|]. cbn.
  rewrite list_lookup_insert_ne by lia. rewrite IH by lia. done.
Qed.

Lemma upd_step_eq h i x :
  upd_step h i x
  = match x !! i with
    | Some xi => match h i xi with Some r => Some (<[i:=r]> x) | None => None end
    | None => None
    end.
Proof. unfold upd_step. destruct (x !! i); [|done]. cbn. by destruct (h i _). Qed.

Lemma level_step_eq {O} (g : nat → T4 → option (T4 * O)) i x outs :
  level_step g i (x, outs)
  = match x !! i with
    | Some xi =>
        match g i xi with
        | Some ro => Some (<[i:=ro.1]> x, outs ++ [ro.2])
        | None => None
        end
    | None => None
    end.
Proof. unfold level_step. destruct (x !! i); [|done]. cbn. by destruct (g i _). Qed.

Lemma for_range_upd_step h x i n :
  for_range (upd_step h) i n x
  = rs ← levels_of h x i n; Some (take i x ++ rs ++ drop (i + n) x).
Proof.
  revert x i. induction n as [|n IH]; intros x i.
  - unfold levels_of. cbn. rewrite Nat.add_0_r, take_drop. done.
  - cbn [for_range]. rewrite upd_step_eq. unfold levels_of. cbn [seq mapM].
    destruct (x !! i) as [xi|] eqn:Hxi; [|done]. cbn [mbind option_bind].
    destruct (h i xi) as [r|]; [|done]. cbn [mbind option_bind].
    rewrite IH. fold (levels_of h x (S i) n).
    rewrite levels_of_insert by lia.
    destruct (levels_of h x (S i) n) as [rs|]; [|done]. cbn.
    apply lookup_lt_Some in Hxi.
    f_equal. rewrite (take_S_r _ _ r) by (by apply list_lookup_insert_eq).
    rewrite take_insert_ge by lia.
    rewrite drop_insert_lt by lia.
    rewrite <- app_assoc. cbn. by replace (i + S n) with (S (i + n)) by lia.
Qed.

Lemma for_range_level_step {O} (g : nat → T4 → option (T4 * O)) x outs i n :
  for_range (level_step g) i n (x, outs)
  = rs ← levels_of g x i n;
    Some (take i x ++ rs.*1 ++ drop (i + n) x, outs ++ rs.*2).
Proof.
  revert x outs i. induction n as [|n IH]; intros x outs i.
  - unfold levels_of. cbn. rewrite Nat.add_0_r, take_drop, app_nil_r. done.
  - cbn [for_range]. rewrite level_step_eq. unfold levels_of. cbn [seq mapM].
    destruct (x !! i) as [xi|] eqn:Hxi; [|done]. cbn [mbind option_bind].
    destruct (g i xi) as [[r o]|]; [|done]. cbn [mbind option_bind fst snd].
    rewrite IH. fold (levels_of g x (S i) n).
    rewrite levels_of_insert by lia.
    destruct (levels_of g x (S i) n) as [rs|]; [|done]. cbn.
    apply lookup_lt_Some in Hxi.
    f_equal. rewrite (take_S_r _ _ r) by (by apply list_lookup_insert_eq).
    rewrite take_insert_ge by lia.
    rewrite drop_insert_lt by lia.
    rewrite <- !app_assoc. cbn. by replace (i + S n) with (S (i + n)) by lia.
Qed.

Lemma levels_of_Some {O} (g : nat → T4 → option O) x i n rs :
  levels_of g x i n = Some rs →
  length rs = n ∧
  ∀ k, k < n →
    ∃ xk, x !! (i + k) = Some xk ∧ ∃ rk, g (i + k) xk = Some rk ∧ rs !! k = Some rk.
Proof.
  unfold levels_of. revert i rs. induction n as [|n IH]; intros i rs.
  - cbn. intros [= <-]. split; [done|]. lia.
  - cbn. destruct (x !! i) as [xi|] eqn:Hxi; [|done]. cbn.
    destruct (g i xi) as [r|] eqn:Hg; [|done]. cbn.
    destruct (mapM _ (seq (S i) n)) as [rs'|] eqn:Hrs; [|done]. cbn.
    intros [= <-]. destruct (IH _ _ Hrs) as [Hlen Hk].
    split; [cbn; lia|]. intros [|k] Hlt.
    + exists xi. rewrite Nat.add_0_r. split; [done|]. by exists r.
    + destruct (Hk k) as (xk & ? & ?); [lia|]. exists xk.
      replace (i + S k) with (S i + k) by lia. done.
Qed.

Lemma levels_of_is_Some {O} (g : nat → T4 → option O) x i n :
  (∀ k, k < n → ∃ xk, x !! (i + k) = Some xk ∧ is_Some (g (i + k) xk)) →
  is_Some (levels_of g x i n).
Proof.
  unfold levels_of. revert i. induction n as [|n IH]; intros i Hk; [by eexists|].
  cbn. destruct (Hk 0) as [x0 [Hx0 [r Hr]]]; [lia|].
  rewrite Nat.add_0_r in Hx0, Hr. rewrite Hx0. cbn. rewrite Hr. cbn.
  destruct (IH (S i)) as [rs Hrs].
  - intros k Hlt. destruct (Hk (S k)) as [xk [? ?]]; [lia|].
    exists xk. replace (S i + k) with (i + S k) by lia. done.
  - rewrite Hrs. by eexists.
Qed.

(** ** Tensors by their entries *)

Lemma tabulate_ext {A} n (f g : nat → A) :
  (∀ i, i < n → f i = g i) → tabulate n f = tabulate n g.
Proof.
  intros Hfg. unfold tabulate. apply list_eq. intros i.
  rewrite !list_lookup_fmap.
  destruct (decide (i < n)) as [Hi|Hi].
  - rewrite lookup_seq_lt by done. cbn. f_equal. by apply Hfg.
  - by rewrite lookup_seq_ge by lia.
Qed.

Lemma length_tabulate {A} n (f : nat → A) : length (tabulate n f) = n.
Proof. unfold tabulate. by rewrite length_fmap, length_seq. Qed.

Lemma lookup_tabulate {A} n (f : nat → A) i :
  i < n → tabulate n f !! i = Some (f i).
Proof. intros. unfold tabulate. by rewrite list_lookup_fmap, lookup_seq_lt. Qed.

Lemma tabulate_lookup_total {A} `{Inhabited A} (l : list A) :
  l = tabulate (length l) (λ i, l !!! i).
Proof.
  apply list_eq. intros i. destruct (decide (i < length l)) as [Hi|Hi].
  - rewrite lookup_tabulate by done. by apply list_lookup_lookup_total_lt.
  - rewrite !lookup_ge_None_2; [done| |lia]. rewrite length_tabulate. lia.
Qed.

Lemma fmap_tabulate {A B} (g : A → B) n (f : nat → A) :
  g <$> tabulate n f = tabulate n (λ i, g (f i)).
Proof. unfold tabulate. by rewrite <- list_fmap_compose. Qed.

Lemma zip_with_tabulate {A B C} (h : A → B → C) n (f : nat → A) (g : nat → B) :
  zip_with h (tabulate n f) (tabulate n g) = tabulate n (λ i, h (f i) (g i)).
Proof.
  unfold tabulate. rewrite zip_with_fmap_l, zip_with_fmap_r, zip_with_diag.
  done.
Qed.

Lemma tabulate_at2 {X} `{Inhabited X} a b (t : list (list X)) :
  shape2d a b t → t = tabulate a (λ n, tabulate b (at2 t n)).
Proof.
  intros [<- Ht]. rewrite (tabulate_lookup_total t) at 1.
  apply tabulate_ext. intros n Hn.
  assert (length (t !!! n) = b) as <-.
  { rewrite Forall_lookup in Ht. eapply Ht. by apply list_lookup_lookup_total_lt. }
  apply tabulate_lookup_total.
Qed.


Lemma at2_tabulate {X} `{Inhabited X} a b (F : nat → nat → X) n k :
  n < a → k < b → at2 (tabulate a (λ n, tabulate b (F n))) n k = F n k.
Proof.
  intros Hn Hk. unfold at2.
  rewrite (list_lookup_total_correct _ n (tabulate b (F n)))
    by (by apply (lookup_tabulate a (λ n, tabulate b (F n)))).
  apply list_lookup_total_correct. by apply lookup_tabulate.
Qed.

Lemma map_rows_tabulate {X Y} (g : X → Y) a b (F : nat → nat → X) :
  map_rows g (tabulate a (λ n, tabulate b (F n)))
  = tabulate a (λ n, tabulate b (λ k, g (F n k))).
Proof.
  unfold map_rows. rewrite fmap_tabulate. apply tabulate_ext.
  intros n _. apply fmap_tabulate.
Qed.

Lemma at2_map_rows {X Y} `{Inhabited X, Inhabited Y} (g : X → Y) a b
    (t : list (list X)) n k :
  shape2d a b t → n < a → k < b → at2 (map_rows g t) n k = g (at2 t n k).
Proof.
  intros Ht Hn Hk. rewrite (tabulate_at2 a b t) at 1 by done.
  rewrite map_rows_tabulate. by apply at2_tabulate.
Qed.


Lemma zip_app_tabulate {X} a b (F G : nat → nat → list X) :
  zip_with (zip_with app) (tabulate a (λ n, tabulate b (F n)))
                          (tabulate a (λ n, tabulate b (G n)))
  = tabulate a (λ n, tabulate b (λ k, F n k ++ G n k)).
Proof.
  rewrite zip_with_tabulate. apply tabulate_ext. intros n _.
  apply zip_with_tabulate.
Qed.

(** [torch.cat(ts, 2)] by entries. *)
Lemma cat_dim2_tabulate {X} a b (ts : list (list (list (list X)))) :
  ts ≠ [] → Forall (shape2d a b) ts →
  cat_dim2 ts = tabulate a (λ n, tabulate b (λ k, concat ((λ t, at2 t n k) <$> ts))).
Proof.
  intros Hne Hts. induction Hts as [|t ts Ht Hts IH]; [done|].
  destruct ts as [|t' ts].
  - cbn. rewrite (tabulate_at2 a b t) at 1 by done.
    apply tabulate_ext. intros n _. apply tabulate_ext. intros k _.
    by rewrite app_nil_r.
  - change (cat_dim2 (t :: t' :: ts))
      with (zip_with (zip_with app) t (cat_dim2 (t' :: ts))).
    rewrite IH by done. rewrite (tabulate_at2 a b t) at 1 by done.
    by rewrite zip_app_tabulate.
Qed.

(** ** Cutting [y] into the levels *)

Lemma shaped4_intro bs c h w (t : T4) :
  has_shape4 bs c h w t → 0 < bs → 0 < c → 0 < h → 0 < w → shaped4 bs c t.
Proof.
  intros Ht ????. unfold shaped4.
  destruct (has_shape4_dims bs c h w t) as (_ & _ & -> & ->); done.
Qed.

Lemma has_shape3_shape2d a b c (t : T3) : has_shape3 a b c t → shape2d a b t.
Proof.
  intros [? Ht]. split; [done|]. eapply Forall_impl; [exact Ht|]. by intros ? [? _].
Qed.

Lemma has_shape4_shape2d a b c d (t : T4) : has_shape4 a b c d t → shape2d a b t.
Proof.
  intros [? Ht]. split; [done|]. eapply Forall_impl; [exact Ht|]. by intros ? [? _].
Qed.

Lemma has_shape4_at2 a b h w (t : T4) n k :
  has_shape4 a b h w t → n < a → k < b → has_shape2 h w (at2 t n k).
Proof.
  intros [<- Ht] Hn Hk. unfold at2.
  rewrite Forall_lookup in Ht.
  destruct (Ht n (t !!! n)) as [<- Htb]; [by apply list_lookup_lookup_total_lt|].
  rewrite Forall_lookup in Htb. apply (Htb k).
  by apply list_lookup_lookup_total_lt.
Qed.

Lemma has_shape3_at2 a b c (t : T3) n k :
  has_shape3 a b c t → n < a → k < b → length (at2 t n k) = c.
Proof.
  intros [<- Ht] Hn Hk. unfold at2.
  rewrite Forall_lookup in Ht.
  destruct (Ht n (t !!! n)) as [<- Htb]; [by apply list_lookup_lookup_total_lt|].
  rewrite Forall_lookup in Htb. apply (Htb k).
  by apply list_lookup_lookup_total_lt.
Qed.

Lemma has_shape3_tabulate a b c (F : nat → nat → T1) :
  (∀ n k, n < a → k < b → length (F n k) = c) →
  has_shape3 a b c (tabulate a (λ n, tabulate b (F n))).
Proof.
  intros HF. split; [apply length_tabulate|].
  apply Forall_lookup. intros n tb Hn.
  assert (n < a) as Hlt.
  { apply lookup_lt_Some in Hn. by rewrite length_tabulate in Hn. }
  rewrite (lookup_tabulate a (λ n, tabulate b (F n))) in Hn by done.
  injection Hn as <-. split; [apply length_tabulate|].
  apply Forall_lookup. intros k r Hk.
  assert (k < b) as Hlt'.
  { apply lookup_lt_Some in Hk. by rewrite length_tabulate in Hk. }
  rewrite lookup_tabulate in Hk by done. injection Hk as <-. by apply HF.
Qed.

Lemma has_shape4_tabulate a b h w (F : nat → nat → T2) :
  (∀ n k, n < a → k < b → has_shape2 h w (F n k)) →
  has_shape4 a b h w (tabulate a (λ n, tabulate b (F n))).
Proof.
  intros HF. split; [apply length_tabulate|].
  apply Forall_lookup. intros n tb Hn.
  assert (n < a) as Hlt.
  { apply lookup_lt_Some in Hn. by rewrite length_tabulate in Hn. }
  rewrite (lookup_tabulate a (λ n, tabulate b (F n))) in Hn by done.
  injection Hn as <-. split; [apply length_tabulate|].
  apply Forall_lookup. intros k r Hk.
  assert (k < b) as Hlt'.
  { apply lookup_lt_Some in Hk. by rewrite length_tabulate in Hk. }
  rewrite lookup_tabulate in Hk by done. injection Hk as <-. by apply HF.
Qed.

Lemma flat_hw_map_rows (t : T4) : flat_hw t = map_rows (@concat _) t.
Proof. done. Qed.
Lemma unflat_hw_map_rows h w (t : T3) : unflat_hw h w t = map_rows (chunks h w) t.
Proof. done. Qed.
Lemma slice_dim2_map_rows s e (t : T3) : slice_dim2 s e t = map_rows (slice s e) t.
Proof. done. Qed.

Lemma map_rows_compose {X Y Z} (f : X → Y) (g : Y → Z) (t : list (list X)) :
  map_rows g (map_rows f t) = map_rows (g ∘ f) t.
Proof.
  unfold map_rows. rewrite <- list_fmap_compose. apply list_fmap_ext.
  intros _ tb _. cbn. by rewrite <- list_fmap_compose.
Qed.

Lemma map_rows_zip_app {X Y} (g : X → Y) (a b : list (list X)) :
  map_rows g (zip_with app a b) = zip_with app (map_rows g a) (map_rows g b).
Proof.
  unfold map_rows. revert b. induction a as [|ra a IH]; intros [|rb b]; try done.
  cbn. by rewrite fmap_app, IH.
Qed.

Lemma cat_dim1_3 {X} (a b c : list (list X)) :
  cat_dim1 [a; b; c] = zip_with app (zip_with app a b) c.
Proof. done. Qed.

Lemma map_rows_cat_dim1 {X Y} (g : X → Y) (a b c : list (list X)) :
  map_rows g (cat_dim1 [a; b; c])
  = cat_dim1 [map_rows g a; map_rows g b; map_rows g c].
Proof. by rewrite !cat_dim1_3, !map_rows_zip_app. Qed.

Lemma has_shape3_zip_app a b b' c (t t' : T3) :
  has_shape3 a b c t → has_shape3 a b' c t' →
  has_shape3 a (b + b') c (zip_with app t t').
Proof.
  intros [<- Ht] [Hlen Ht']. split; [rewrite length_zip_with; lia|].
  clear Hlen. revert t' Ht'. induction Ht as [|tb t [Hb Htb] _ IH]; intros t' Ht'.
  - constructor.
  - destruct Ht' as [|tb' t' [Hb' Htb'] Ht']; [constructor|].
    cbn. constructor; [|by apply IH].
    split; [rewrite length_app; lia|]. by apply Forall_app.
Qed.

Lemma has_shape3_slice a b c s e (t : T3) :
  has_shape3 a b c t → e ≤ c → has_shape3 a b (e - s) (slice_dim2 s e t).
Proof.
  intros [<- Ht] He. unfold slice_dim2. split; [by rewrite length_fmap|].
  apply Forall_fmap. eapply Forall_impl; [exact Ht|].
  intros tb [<- Htb]. cbn. split; [by rewrite length_fmap|].
  apply Forall_fmap. eapply Forall_impl; [exact Htb|].
  intros r Hr. cbn. unfold has_shape1 in *. apply length_slice. lia.
Qed.

(** [y[:, :, s:e].view(bs, -1, h, w)] regroups every row of the slice. *)
Lemma level_view_eq bs c cy a (y : T3) s e (xi : T4) :
  shaped4 bs c xi → 0 < bs → 0 < c → has_shape3 bs cy a y →
  e = s + cells xi → e ≤ a →
  level_view y s e xi
  = map_rows (chunks (len2 xi) (len3 xi) ∘ slice s e) y.
Proof.
  intros (Hxi & Hh & Hw) Hbs Hc Hy -> He. unfold level_view.
  destruct (has_shape4_dims _ _ _ _ _ Hxi) as (-> & _); [done..|].
  rewrite (view4_dim1_flat3 bs cy), unflat_hw_map_rows, slice_dim2_map_rows,
    map_rows_compose; [done| |done..].
  replace (len2 xi * len3 xi) with (s + cells xi - s) by (unfold cells; lia).
  by apply (has_shape3_slice bs cy a).
Qed.

Lemma split_levels_lookup (y : T3) (x : list T4) s i xi :
  x !! i = Some xi →
  split_levels y x s s !! i
  = Some (level_view y (s + level_offset x i) (s + level_offset x i + cells xi) xi).
Proof.
  revert s i. induction x as [|x0 x IH]; intros s i Hi; [done|].
  destruct i as [|i]; cbn -[len2 len3 level_view] in *.
  - injection Hi as ->. unfold level_offset. cbn -[len2 len3 level_view].
    rewrite Nat.add_0_r. done.
  - rewrite IH by done.
    unfold level_offset. cbn -[len2 len3 level_view]. fold (cells x0).
    do 2 f_equal; lia.
Qed.

Lemma length_split_levels (y : T3) (x : list T4) s e :
  length (split_levels y x s e) = length x.
Proof. revert s e. induction x as [|x0 x IH]; intros; cbn; [done|]. by rewrite IH. Qed.

Lemma take_tabulate {A} m n (f : nat → A) : m ≤ n → take m (tabulate n f) = tabulate m f.
Proof.
  intros Hm. unfold tabulate. rewrite <- fmap_take. f_equal.
  apply list_eq. intros i. rewrite lookup_take.
  case_decide; [|by rewrite lookup_seq_ge by lia].
  by rewrite !lookup_seq_lt by lia.
Qed.

Lemma drop_tabulate {A} m n (f : nat → A) :
  drop m (tabulate n f) = tabulate (n - m) (λ k, f (m + k)).
Proof.
  unfold tabulate. rewrite <- fmap_drop.
  replace (drop m (seq 0 n)) with (Nat.add m <$> seq 0 (n - m)).
  - by rewrite <- list_fmap_compose.
  - rewrite fmap_add_seq, Nat.add_0_r. apply list_eq. intros i.
    rewrite lookup_drop. destruct (decide (i < n - m)).
    + by rewrite !lookup_seq_lt by lia.
    + by rewrite !lookup_seq_ge by lia.
Qed.

Lemma length_level_cells bs c (xi : T4) n k :
  shaped4 bs c xi → n < bs → k < c → length (concat (at2 xi n k)) = cells xi.
Proof.
  intros (Hxi & _) Hn Hk. apply has_shape2_length_concat.
  by apply (has_shape4_at2 bs c).
Qed.

Lemma length_level_rows bs c (x : list T4) n k :
  Forall (shaped4 bs c) x → n < bs → k < c →
  length (level_rows x n k) = sum_list_with cells x.
Proof.
  intros Hx Hn Hk. unfold level_rows.
  induction Hx as [|xi x Hxi _ IH]; [done|].
  cbn. rewrite length_app, IH. f_equal. by apply (length_level_cells bs c).
Qed.

Lemma level_offset_le (x : list T4) i xi :
  x !! i = Some xi → level_offset x i + cells xi ≤ sum_list_with cells x.
Proof.
  intros Hi. rewrite <- (take_drop_middle x i xi Hi) at 2.
  rewrite sum_list_with_app. unfold level_offset. cbn. lia.
Qed.

Lemma level_rows_slice bs c (x : list T4) i xi n k :
  Forall (shaped4 bs c) x → x !! i = Some xi → n < bs → k < c →
  chunks (len2 xi) (len3 xi)
    (slice (level_offset x i) (level_offset x i + cells xi) (level_rows x n k))
  = at2 xi n k.
Proof.
  intros Hx Hi Hn Hk. unfold level_rows.
  rewrite <- (take_drop_middle x i xi Hi) at 3.
  rewrite fmap_app, concat_app. cbn [fmap list_fmap concat].
  assert (shaped4 bs c xi) as Hxi.
  { rewrite Forall_lookup in Hx. by apply (Hx i). }
  assert (level_offset x i
          = length (concat ((λ xi : T4, concat (at2 xi n k)) <$> take i x))) as ->.
  { symmetry. apply (length_level_rows bs c); [|done..]. by apply Forall_take. }
  rewrite <- (length_level_cells bs c xi n k) by done.
  rewrite slice_app_exact.
  destruct Hxi as (Hxi & _). apply (build2_concat (len2 xi) (len3 xi)).
  by apply (has_shape4_at2 bs c).
Qed.

(** [x_cat] by entries. *)
Lemma x_cat_tabulate bs no (x : list T4) :
  x ≠ [] → Forall (shaped4 bs no) x → 0 < bs → 0 < no →
  cat_dim2 ((λ xi, view3_last bs no (flat4 xi)) <$> x)
  = tabulate bs (λ n, tabulate no (level_rows x n)).
Proof.
  intros Hne Hx Hbs Hno.
  rewrite (Forall_fmap_ext_1 _ flat_hw).
  2:{ eapply Forall_impl; [exact Hx|]. intros xi (Hxi & _).
      by apply (view3_last_flat4 bs no (len2 xi) (len3 xi)). }
  rewrite (cat_dim2_tabulate bs no).
  - apply tabulate_ext. intros n Hn. apply tabulate_ext. intros k Hk.
    unfold level_rows. f_equal. rewrite <- list_fmap_compose.
    apply Forall_fmap_ext_1. eapply Forall_impl; [exact Hx|].
    intros xi (Hxi & _). cbn. rewrite flat_hw_map_rows.
    apply (at2_map_rows _ bs no); [|done..]. by apply (has_shape4_shape2d bs no (len2 xi) (len3 xi)).
  - by destruct x.
  - apply Forall_fmap. eapply Forall_impl; [exact Hx|].
    intros xi (Hxi & _). cbn. apply (has_shape3_shape2d bs no (len2 xi * len3 xi)).
    by apply has_shape3_flat_hw.
Qed.

Lemma split_dim1_tabulate {X} bs no a b (F : nat → nat → X) :
  a + b ≤ no →
  split_dim1 a b (tabulate bs (λ n, tabulate no (F n)))
  = (tabulate bs (λ n, tabulate a (F n)),
     tabulate bs (λ n, tabulate b (λ k, F n (a + k)))).
Proof.
  intros Hab. unfold split_dim1. rewrite !fmap_tabulate. f_equal.
  - apply tabulate_ext. intros n _. apply take_tabulate. lia.
  - apply tabulate_ext. intros n _. rewrite drop_tabulate, take_tabulate by lia.
    done.
Qed.

Lemma map3_map_rows f (t : T3) : map3 f t = map_rows (fmap f) t.
Proof. done. Qed.
Lemma map4_map_rows f (t : T4) : map4 f t = map_rows (map2 f) t.
Proof. done. Qed.

Lemma at2_zip_app_r {X} `{Inhabited X} a b b' (t t' : list (list X)) n k :
  shape2d a b t → shape2d a b' t' → n < a → k < b' →
  at2 (zip_with app t t') n (b + k) = at2 t' n k.
Proof.
  intros Ht Ht' Hn Hk.
  rewrite (tabulate_at2 a b t) at 1 by done.
  rewrite (tabulate_at2 a b' t') at 1 by done.
  rewrite zip_with_tabulate. unfold at2 at 1.
  rewrite (list_lookup_total_correct _ n (tabulate b (at2 t n) ++ tabulate b' (at2 t' n))).
  2:{ by apply (lookup_tabulate a (λ i, tabulate b (at2 t i) ++ tabulate b' (at2 t' i))). }
  apply list_lookup_total_correct.
  rewrite lookup_app_r; rewrite length_tabulate; [|lia].
  replace (b + k - b) with k by lia. by apply lookup_tabulate.
Qed.

Lemma shape2d_zip_app {X} a b b' (t t' : list (list X)) :
  shape2d a b t → shape2d a b' t' → shape2d a (b + b') (zip_with app t t').
Proof.
  intros [<- Ht] [Hlen Ht']. split; [rewrite length_zip_with; lia|].
  clear Hlen. revert t' Ht'. induction Ht as [|tb t Hb _ IH]; intros t' Ht'.
  - constructor.
  - destruct Ht' as [|tb' t' Hb' Ht']; [constructor|].
    cbn. constructor; [|by apply IH]. rewrite length_app; lia.
Qed.

Lemma level_cut_fmap (f : R → R) xi s (r : T1) :
  level_cut xi s (f <$> r) = (λ r : T1, f <$> r) <$> level_cut xi s r.
Proof. unfold level_cut. cbn. by rewrite slice_fmap, chunks_fmap. Qed.

Lemma level_cut_zip_with (f : R → R → R) xi s (r r' : T1) :
  level_cut xi s (zip_with f r r')
  = zip_with (zip_with f) (level_cut xi s r) (level_cut xi s r').
Proof. unfold level_cut. cbn. by rewrite slice_zip_with, chunks_zip_with. Qed.

Lemma cat_dim1_2 {X} (a b : list (list X)) : cat_dim1 [a; b] = zip_with app a b.
Proof. done. Qed.

(** The class scores of a level, read back from [cls_output]. *)
Lemma scores_level bs r4 nc h w (x : list T4) i (c2 c3 : T4) :
  Forall (shaped4 bs (r4 + nc)) x → x !! i = Some (cat_dim1 [c2; c3]) →
  has_shape4 bs r4 h w c2 → has_shape4 bs nc h w c3 → 0 < bs → 0 < nc →
  map_rows (level_cut (cat_dim1 [c2; c3]) (level_offset x i))
    (map3 sigmoid
       (split_dim1 r4 nc (tabulate bs (λ n, tabulate (r4 + nc) (level_rows x n)))).2)
  = map4 sigmoid c3.
Proof.
  intros Hx Hi Hc2 Hc3 Hbs Hnc.
  rewrite split_dim1_tabulate by lia. cbn [snd].
  rewrite map3_map_rows, !map_rows_tabulate, map4_map_rows.
  transitivity (map_rows (map2 sigmoid) (tabulate bs (λ n, tabulate nc (at2 c3 n)))).
  2:{ by rewrite <- (tabulate_at2 bs nc c3)
        by (by apply (has_shape4_shape2d bs nc h w)). }
  rewrite map_rows_tabulate.
  apply tabulate_ext. intros n Hn. apply tabulate_ext. intros k Hk.
  rewrite level_cut_fmap. unfold map2. f_equal. unfold level_cut. cbn.
  rewrite (level_rows_slice bs (r4 + nc)) by (done || lia).
  apply (at2_zip_app_r bs r4 nc c2 c3); try done.
  - by apply (has_shape4_shape2d bs r4 h w).
  - by apply (has_shape4_shape2d bs nc h w).
Qed.

(** The maximum over the classes commutes with cutting out a level. *)
Lemma max_level xi s (t : T3) :
  Forall (λ tb, tb ≠ []) t →
  map_rows (level_cut xi s) (max_dim1_3 t) = max_dim1_4 (map_rows (level_cut xi s) t).
Proof.
  intros Ht. unfold map_rows, max_dim1_3, max_dim1_4.
  rewrite <- !list_fmap_compose. apply Forall_fmap_ext_1.
  eapply Forall_impl; [exact Ht|]. intros tb Htb. cbn. f_equal.
  apply reduce_commute; [|done]. intros u v. apply level_cut_zip_with.
Qed.

Lemma ones_level xi s bs a :
  s + cells xi ≤ a →
  map_rows (level_cut xi s) (ones3 bs 1 a) = ones4 bs 1 (len2 xi) (len3 xi).
Proof.
  intros Ha. unfold map_rows, ones3, ones4, level_cut. cbn.
  rewrite fmap_replicate. cbn.
  rewrite slice_replicate by done. rewrite chunks_replicate; [done|].
  unfold cells in *. lia.
Qed.

Lemma has_shape4_map4 f a b c d (t : T4) :
  has_shape4 a b c d t → has_shape4 a b c d (map4 f t).
Proof.
  intros [<- Ht]. split; [unfold map4; by rewrite length_fmap|].
  apply Forall_fmap. eapply Forall_impl; [exact Ht|].
  intros tb [<- Htb]. cbn. split; [unfold map3; by rewrite length_fmap|].
  apply Forall_fmap. eapply Forall_impl; [exact Htb|].
  intros ch [<- Hch]. cbn. split; [unfold map2; by rewrite length_fmap|].
  apply Forall_fmap. eapply Forall_impl; [exact Hch|].
  intros r Hr. cbn. unfold has_shape1 in *. by rewrite length_fmap.
Qed.

Lemma has_shape4_cat2 a b b' c d (t t' : T4) :
  has_shape4 a b c d t → has_shape4 a b' c d t' →
  has_shape4 a (b + b') c d (cat_dim1 [t; t']).
Proof.
  intros [<- Ht] [Hlen Ht']. rewrite cat_dim1_2.
  split; [rewrite length_zip_with; lia|].
  clear Hlen. revert t' Ht'. induction Ht as [|tb t [Hb Htb] _ IH]; intros t' Ht'.
  - constructor.
  - destruct Ht' as [|tb' t' [Hb' Htb'] Ht']; [constructor|].
    cbn. constructor; [|by apply IH].
    split; [rewrite length_app; lia|]. by apply Forall_app.
Qed.

Lemma for_range_ext {St} (f g : nat → St → option St) i n s :
  (∀ j s, f j s = g j s) → for_range f i n s = for_range g i n s.
Proof.
  intros Hfg. revert i s. induction n as [|n IH]; intros i s; [done|].
  cbn. rewrite Hfg. destruct (g i s); [|done]. cbn. apply IH.
Qed.

Lemma levels_of_total_from {O} (g : nat → T4 → option O) (G : nat → T4 → O) x i n :
  i + n ≤ length x →
  (∀ k xk, i ≤ k < i + n → x !! k = Some xk → g k xk = Some (G k xk)) →
  levels_of g x i n = Some (imap (λ k, G (i + k)) (take n (drop i x))).
Proof.
  unfold levels_of. revert i. induction n as [|n IH]; intros i Hlen Hg; [done|].
  cbn [seq mapM].
  destruct (x !! i) as [xi|] eqn:Hxi.
  2:{ apply lookup_ge_None in Hxi. lia. }
  cbn [mbind option_bind]. rewrite (Hg i xi) by (done || lia).
  cbn [mbind option_bind]. rewrite (IH (S i)).
  - cbn. f_equal. rewrite (drop_S x xi i Hxi). cbn. rewrite Nat.add_0_r.
    f_equal. apply imap_ext. intros k xk _. cbn. f_equal. lia.
  - lia.
  - intros k xk Hk. apply Hg. lia.
Qed.

Lemma levels_of_total {O} (g : nat → T4 → option O) (G : nat → T4 → O) x n :
  n ≤ length x →
  (∀ k xk, k < n → x !! k = Some xk → g k xk = Some (G k xk)) →
  levels_of g x 0 n = Some (imap G (take n x)).
Proof.
  intros Hn Hg. rewrite (levels_of_total_from g G) by (done || intros; apply Hg; (lia || done)).
  done.
Qed.

Lemma layer_at_lookup ms i m : ms !! i = Some m → layer_at ms i = m.
Proof. apply list_lookup_total_correct. Qed.

Lemma lookup_layer_at ms i : i < length ms → ms !! i = Some (layer_at ms i).
Proof. apply list_lookup_lookup_total_lt. Qed.

(** What a successful loop has done. *)
Lemma for_range_level_step_inv {O} (g : nat → T4 → option (T4 * O)) x n x' outs :
  for_range (level_step g) 0 n (x, []) = Some (x', outs) →
  n ≤ length x ∧ length x' = length x ∧ length outs = n ∧
  (∀ i xi, i < n → x !! i = Some xi →
     ∃ r o, g i xi = Some (r, o) ∧ x' !! i = Some r ∧ outs !! i = Some o) ∧
  (∀ i, n ≤ i → x' !! i = x !! i).
Proof.
  rewrite for_range_level_step.
  destruct (levels_of g x 0 n) as [rs|] eqn:Hrs; [|done]. cbn.
  intros [= <- <-]. destruct (levels_of_Some _ _ _ _ _ Hrs) as [Hlen Hk].
  assert (n ≤ length x) as Hn.
  { destruct n as [|n]; [lia|]. destruct (Hk n) as (xk & Hxk & _); [lia|].
    apply lookup_lt_Some in Hxk. lia. }
  split; [done|]. split; [|split; [by rewrite length_fmap|split]].
  - rewrite length_app, length_fmap, length_drop. lia.
  - intros i xi Hi Hxi. destruct (Hk i Hi) as (xk & Hxk & rk & Hg & Hrk).
    cbn in Hxk, Hg. rewrite Hxi in Hxk. injection Hxk as <-.
    destruct rk as [r o]. exists r, o. split; [done|].
    rewrite lookup_app_l by (rewrite length_fmap; lia).
    rewrite !list_lookup_fmap, Hrk. done.
  - intros i Hi. rewrite lookup_app_r; rewrite length_fmap, Hlen; [|done].
    rewrite lookup_drop. f_equal. lia.
Qed.

Lemma for_range_upd_step_inv (h : nat → T4 → option T4) x n x' :
  for_range (upd_step h) 0 n x = Some x' →
  n ≤ length x ∧ length x' = length x ∧
  (∀ i xi, i < n → x !! i = Some xi → ∃ r, h i xi = Some r ∧ x' !! i = Some r) ∧
  (∀ i, n ≤ i → x' !! i = x !! i).
Proof.
  rewrite for_range_upd_step.
  destruct (levels_of h x 0 n) as [rs|] eqn:Hrs; [|done]. cbn.
  intros [= <-]. destruct (levels_of_Some _ _ _ _ _ Hrs) as [Hlen Hk].
  assert (n ≤ length x) as Hn.
  { destruct n as [|n]; [lia|]. destruct (Hk n) as (xk & Hxk & _); [lia|].
    apply lookup_lt_Some in Hxk. lia. }
  split; [done|]. split; [|split].
  - rewrite length_app, length_drop. lia.
  - intros i xi Hi Hxi. destruct (Hk i Hi) as (xk & Hxk & rk & Hg & Hrk).
    cbn in Hxk, Hg. rewrite Hxi in Hxk. injection Hxk as <-.
    exists rk. split; [done|]. by rewrite lookup_app_l by lia.
  - intros i Hi. rewrite lookup_app_r; rewrite Hlen; [|done].
    rewrite lookup_drop. f_equal. lia.
Qed.

(** *** The loop bodies in that form *)

Lemma conv_sigmoid_step_level m i s :
  conv_sigmoid_step m i s = level_step (conv_sigmoid_level m) i s.
Proof.
  destruct s as [x outs]. unfold conv_sigmoid_step, level_step, conv_sigmoid_level.
  destruct (m !! i) as [mi|]; cbn; [|by destruct (x !! i)].
  destruct (x !! i) as [xi|] eqn:Hxi; [|done]. cbn.
  rewrite list_lookup_insert_eq by (by eapply lookup_lt_Some). done.
Qed.

Lemma cv_step_level self i x : cv_step self i x = upd_step (cv_level self) i x.
Proof.
  unfold cv_step, upd_step, cv_level.
  destruct (attr_modules self "cv2") as [cv2|]; cbn; [|by destruct (x !! i)].
  destruct (cv2 !! i) as [c2|]; cbn; [|by destruct (x !! i)].
  destruct (x !! i) as [xi|]; [|done]. cbn.
  destruct (attr_modules self "cv3") as [cv3|]; [|done]. cbn.
  by destruct (cv3 !! i).
Qed.

Lemma decoupled_step_level decode conf self i s :
  decoupled_step decode conf self i s
  = level_step (decoupled_level decode conf self) i s.
Proof.
  destruct s as [x outs].
  unfold decoupled_step, level_step, decoupled_level, decoupled_branches.
  destruct (x !! i) as [xi|] eqn:Hxi; [|done]. cbn.
  destruct (attr_modules self "stems") as [stems|]; [|done]. cbn.
  destruct (stems !! i) as [stem|]; [|done]. cbn.
  rewrite list_lookup_insert_eq by (by eapply lookup_lt_Some). cbn.
  destruct (attr_modules self "cls_convs") as [cls_convs|]; [|done]. cbn.
  destruct (cls_convs !! i) as [cls_conv|]; [|done]. cbn.
  destruct (attr_modules self "cls_preds") as [cls_preds|]; [|done]. cbn.
  destruct (cls_preds !! i) as [cls_pred|]; [|done]. cbn.
  destruct (attr_modules self "reg_convs") as [reg_convs|]; [|done]. cbn.
  destruct (reg_convs !! i) as [reg_conv|]; [|done]. cbn.
  destruct (attr_modules self "reg_preds") as [reg_preds|]; [|done]. cbn.
  destruct (reg_preds !! i) as [reg_pred|]; [|done]. cbn.
  destruct (decode _ _ _ _) as [reg_output|]; [|done]. cbn.
  by destruct (conf _ _).
Qed.

(** *** DetectV5 and DetectV7 *)

Lemma conv_sigmoid_loop (m : list layer) (x : list T4) nl :
  nl ≤ length x → nl ≤ length m →
  for_range (conv_sigmoid_step m) 0 nl (x, [])
  = Some (imap (λ i xi, layer_at m i xi) (take nl x) ++ drop nl x,
          imap (λ i xi, map4 sigmoid (layer_at m i xi)) (take nl x)).
Proof.
  intros Hx Hm.
  rewrite (for_range_ext _ _ _ _ _ (conv_sigmoid_step_level m)).
  rewrite for_range_level_step.
  rewrite (levels_of_total _ (λ i xi, (layer_at m i xi, map4 sigmoid (layer_at m i xi)))).
  - cbn. rewrite !fmap_imap. done.
  - done.
  - intros k xk Hk _. unfold conv_sigmoid_level.
    rewrite lookup_layer_at by lia. done.
Qed.

(** *** The convolution loop of the YOLOv8 heads *)

Lemma cv_loop self (cv2 cv3 : list layer) (x : list T4) nl :
  attr_modules self "cv2" = Some cv2 → attr_modules self "cv3" = Some cv3 →
  length x = nl → nl ≤ length cv2 → nl ≤ length cv3 →
  for_range (cv_step self) 0 nl x = Some (v8_levels cv2 cv3 x).
Proof.
  intros H2 H3 Hx Hl2 Hl3.
  rewrite (for_range_ext _ _ _ _ _ (cv_step_level self)).
  rewrite for_range_upd_step.
  rewrite (levels_of_total _ (λ i xi, cat_dim1 [layer_at cv2 i xi; layer_at cv3 i xi])).
  - cbn. rewrite (drop_ge x nl) by lia. rewrite app_nil_r.
    rewrite (take_ge x nl) by lia. done.
  - lia.
  - intros k xk Hk _. unfold cv_level. rewrite H2, H3. cbn.
    rewrite !lookup_layer_at by lia. done.
Qed.

Lemma length_foldl_zip_with {A} (f : A → A → A) n (r : list A) rs :
  length r = n → Forall (λ r', length r' = n) rs →
  length (foldl (zip_with f) r rs) = n.
Proof.
  intros Hr Hrs. revert r Hr. induction Hrs as [|r' rs Hr' _ IH]; intros r Hr; [done|].
  cbn. apply IH. rewrite length_zip_with. lia.
Qed.

Lemma has_shape3_max a b c (t : T3) :
  has_shape3 a b c t → 0 < b → has_shape3 a 1 c (max_dim1_3 t).
Proof.
  intros [<- Ht] Hb. unfold max_dim1_3. split; [by rewrite length_fmap|].
  apply Forall_fmap. eapply Forall_impl; [exact Ht|].
  intros tb [Hlen Htb]. cbn. split; [done|]. constructor; [|done].
  destruct Htb as [|r rs Hr Hrs]; [cbn in Hlen; lia|].
  cbn. by apply length_foldl_zip_with.
Qed.

Lemma has_shape3_ones a b c : has_shape3 a b c (ones3 a b c).
Proof.
  unfold ones3. split; [apply length_replicate|].
  apply Forall_replicate. split; [apply length_replicate|].
  apply Forall_replicate. apply length_replicate.
Qed.

Lemma has_shape3_dims a b c (t : T3) :
  has_shape3 a b c t → 0 < a → 0 < b → length t = a ∧ len1 t = b ∧ len2 t = c.
Proof.
  intros [Ha Ht] ? ?. destruct t as [|tb t]; [simpl in *; lia|].
  inversion Ht as [|?? [Hb Htb] _]; subst.
  destruct tb as [|r tb]; [simpl in *; lia|].
  inversion Htb as [|?? Hr _]; subst. done.
Qed.

Lemma has_shape3_nonempty a b c (t : T3) :
  has_shape3 a b c t → 0 < b → Forall (λ tb, tb ≠ []) t.
Proof.
  intros [_ Ht] Hb. eapply Forall_impl; [exact Ht|].
  intros tb [Hlen _] ->. cbn in Hlen. lia.
Qed.

Lemma at2_zip_app_l {X} `{Inhabited X} a b b' (t t' : list (list X)) n k :
  shape2d a b t → shape2d a b' t' → n < a → k < b →
  at2 (zip_with app t t') n k = at2 t n k.
Proof.
  intros Ht Ht' Hn Hk.
  rewrite (tabulate_at2 a b t) at 1 by done.
  rewrite (tabulate_at2 a b' t') at 1 by done.
  rewrite zip_with_tabulate. unfold at2 at 1.
  rewrite (list_lookup_total_correct _ n (tabulate b (at2 t n) ++ tabulate b' (at2 t' n))).
  2:{ by apply (lookup_tabulate a (λ i, tabulate b (at2 t i) ++ tabulate b' (at2 t' i))). }
  apply list_lookup_total_correct.
  rewrite lookup_app_l by (rewrite length_tabulate; lia). by apply lookup_tabulate.
Qed.

Lemma sum_list_with_fmap_eq {A B} (f : A → nat) (g : B → nat) l k :
  f <$> l = g <$> k → sum_list_with f l = sum_list_with g k.
Proof.
  revert k. induction l as [|a l IH]; intros [|b k] Heq; try done.
  cbn in *. injection Heq as -> Heq. by rewrite (IH k).
Qed.

Lemma level_offset_fmap_eq (x y : list T4) i :
  cells <$> x = cells <$> y → level_offset x i = level_offset y i.
Proof.
  intros Heq. unfold level_offset. apply sum_list_with_fmap_eq.
  by rewrite !fmap_take, Heq.
Qed.


Section v8_core.
Variables (self : obj) (x : list T4).
Variables (nl no reg_max nc bs cb : nat) (dfl : T3 → T3) (rvc : bool).
Variables (cv2 cv3 : list layer).

Local Abbreviation x' := (v8_levels cv2 cv3 x).
Local Abbreviation x_cat := (v8_cat bs no x').
Local Abbreviation box := (v8_box dfl reg_max nc x_cat).

Hypothesis Hno : attr_nat self "no" = Some no.
Hypothesis Hreg_max : attr_nat self "reg_max" = Some reg_max.
Hypothesis Hnc : attr_nat self "nc" = Some nc.
Hypothesis Hdfl : attr_module3 self "dfl" = Some dfl.
Hypothesis Hrvc : attr_bool self "use_rvc2" = Some rvc.
Hypothesis Hx : length x = nl.
Hypothesis Hnl : 0 < nl.
Hypothesis Hno_eq : no = reg_max * 4 + nc.
Hypothesis Hbs : 0 < bs.
Hypothesis Hnc_pos : 0 < nc.
Hypothesis Hshape : ∀ i xi, x !! i = Some xi →
  ∃ h w, 0 < h ∧ 0 < w ∧
    has_shape4 bs (reg_max * 4) h w (layer_at cv2 i xi) ∧
    has_shape4 bs nc h w (layer_at cv3 i xi).

Lemma v8_levels_shaped : Forall (shaped4 bs no) x'.
Proof.
  apply Forall_lookup. intros i v Hv. unfold v8_levels in Hv.
  rewrite list_lookup_imap in Hv.
  destruct (x !! i) as [xi|] eqn:Hxi; [|done]. injection Hv as <-.
  destruct (Hshape i xi Hxi) as (h & w & Hh & Hw & H2 & H3).
  apply (shaped4_intro bs no h w); [|done|lia|done..].
  subst no. by apply has_shape4_cat2.
Qed.

Lemma v8_levels_nonempty : x' ≠ [].
Proof.
  intros Hnil. assert (length x' = nl) as Hlen.
  { unfold v8_levels. by rewrite length_imap. }
  rewrite Hnil in Hlen. cbn in Hlen. lia.
Qed.

(** The levels after the convolution loop have the grids of their class
    logits. *)
Lemma v8_level_dims i xi :
  x !! i = Some xi →
  let xi' := cat_dim1 [layer_at cv2 i xi; layer_at cv3 i xi] in
  len2 xi' = len2 (layer_at cv3 i xi) ∧ len3 xi' = len3 (layer_at cv3 i xi) ∧
  cells xi' = cells (layer_at cv3 i xi).
Proof.
  intros Hxi xi'. destruct (Hshape i xi Hxi) as (h & w & Hh & Hw & H2 & H3).
  assert (has_shape4 bs no h w xi') as Hxi4
    by (subst no; by apply has_shape4_cat2).
  destruct (has_shape4_dims _ _ _ _ _ Hxi4) as (_ & _ & E2 & E3); [lia..|].
  destruct (has_shape4_dims _ _ _ _ _ H3) as (_ & _ & F2 & F3); [lia..|].
  unfold cells. rewrite E2, E3, F2, F3. done.
Qed.

Lemma v8_levels_cells : cells <$> x' = cells <$> branch cv3 x.
Proof.
  unfold v8_levels, branch. rewrite !fmap_imap. apply imap_ext.
  intros i xi Hxi. cbn. by destruct (v8_level_dims i xi Hxi) as (_ & _ & ?).
Qed.

(** [box = self.dfl(box)] is [dfl] of the box logits of all levels. *)
Lemma v8_box_cells : box = dfl (cells_of_levels bs (reg_max * 4) (branch cv2 x)).
Proof.
  pose proof v8_levels_shaped as Hx'. pose proof v8_levels_nonempty as Hne.
  unfold v8_box, v8_cat. rewrite x_cat_tabulate by (done || lia).
  rewrite Hno_eq, split_dim1_tabulate by lia. cbn [fst]. f_equal.
  unfold cells_of_levels. apply tabulate_ext. intros n Hn.
  apply tabulate_ext. intros k Hk. unfold level_rows. f_equal.
  unfold v8_levels, branch. rewrite !fmap_imap. apply imap_ext.
  intros i xi Hxi. cbn. f_equal.
  destruct (Hshape i xi Hxi) as (h & w & Hh & Hw & H2 & H3).
  apply (at2_zip_app_l bs (reg_max * 4) nc); [by eapply has_shape4_shape2d..|done|done].
Qed.

Lemma v8_core :
  has_shape3 bs cb (sum_list_with cells x') box →
  v8_x_cat self bs x' = Some x_cat ∧
  ∃ y, v8_y self x_cat = Some y ∧
    ∀ i xi, x !! i = Some xi →
      let xi' := cat_dim1 [layer_at cv2 i xi; layer_at cv3 i xi] in
      let scores := map4 sigmoid (layer_at cv3 i xi) in
      split_levels y x' 0 0 !! i
      = Some (cat_dim1
                [level_view box (level_offset x' i) (level_offset x' i + cells xi') xi';
                 confidence4 rvc scores; scores]).
Proof.
  intros Hbox.
  pose proof v8_levels_shaped as Hx'. pose proof v8_levels_nonempty as Hne.
  assert (0 < no) as Hno_pos by lia.
  split; [unfold v8_x_cat; by rewrite Hno|].
  unfold v8_y. rewrite Hreg_max, Hnc. cbn [mbind option_bind].
  rewrite (surjective_pairing (split_dim1 _ _ _)).
  rewrite Hdfl, Hrvc. cbn [mbind option_bind]. eexists; split; [done|].
  fold (v8_box dfl reg_max nc x_cat). set (cls_output := map3 sigmoid _).
  assert (x_cat = tabulate bs (λ n, tabulate no (level_rows x' n))) as Hcat
    by (by apply x_cat_tabulate).
  set (a := sum_list_with cells x') in *.
  assert (has_shape3 bs nc a cls_output) as Hcls.
  { unfold cls_output. rewrite Hcat, Hno_eq, split_dim1_tabulate by lia.
    cbn [snd]. rewrite map3_map_rows, map_rows_tabulate.
    apply has_shape3_tabulate. intros n k Hn Hk. rewrite length_fmap.
    apply (length_level_rows bs no); [done..|lia]. }
  assert (has_shape3 bs 1 a (confidence3 rvc cls_output)) as Hconf.
  { destruct rvc; unfold confidence3.
    - by apply (has_shape3_max bs nc).
    - destruct (has_shape3_dims _ _ _ _ Hcls) as (-> & _ & ->); [done..|].
      apply has_shape3_ones. }
  intros i xi Hxi. cbv zeta.
  set (xi' := cat_dim1 [layer_at cv2 i xi; layer_at cv3 i xi]).
  set (scores := map4 sigmoid (layer_at cv3 i xi)).
  assert (x' !! i = Some xi') as Hxi'.
  { unfold v8_levels. by rewrite list_lookup_imap, Hxi. }
  assert (shaped4 bs no xi') as Hsh.
  { rewrite Forall_lookup in Hx'. by apply (Hx' i). }
  pose proof (level_offset_le x' i xi' Hxi') as Hle. fold a in Hle.
  rewrite (split_levels_lookup _ _ 0 i xi') by done. f_equal. cbn [Nat.add].
  rewrite (level_view_eq bs no (cb + 1 + nc) a); [|done..| |done|done].
  2:{ rewrite cat_dim1_3. apply has_shape3_zip_app; [|done].
      by apply has_shape3_zip_app. }
  fold (level_cut xi' (level_offset x' i)). rewrite map_rows_cat_dim1.
  assert (map_rows (level_cut xi' (level_offset x' i)) box
          = level_view box (level_offset x' i) (level_offset x' i + cells xi') xi')
    as -> by (symmetry; by apply (level_view_eq bs no cb a)).
  destruct (Hshape i xi Hxi) as (h & w & Hh & Hw & H2 & H3).
  assert (map_rows (level_cut xi' (level_offset x' i)) cls_output = scores) as Hsc.
  { unfold cls_output, scores. rewrite Hcat, Hno_eq.
    apply (scores_level bs (reg_max * 4) nc h w); try done. by rewrite <- Hno_eq. }
  rewrite Hsc. do 2 f_equal. f_equal.
  destruct rvc; unfold confidence3, confidence4.
  - rewrite max_level by (by apply (has_shape3_nonempty bs nc a)).
    by rewrite Hsc.
  - destruct (has_shape3_dims _ _ _ _ Hcls) as (-> & _ & ->); [done..|].
    rewrite ones_level by done.
    destruct Hsh as (Hsh & _ & _).
    assert (has_shape4 bs nc h w scores) as Hs by (by apply has_shape4_map4).
    destruct (has_shape4_dims _ _ _ _ _ Hs) as (-> & _ & -> & ->); [done..|].
    assert (has_shape4 bs no h w xi') as Hxi4
      by (subst no; by apply has_shape4_cat2).
    destruct (has_shape4_dims _ _ _ _ _ Hxi4) as (_ & _ & -> & ->); [lia..|].
    done.
Qed.
End v8_core.

(** ** DetectV5 and DetectV7 compute the same function *)

Lemma conv_sigmoid_forward self (m : list layer) (x : list T4) nl :
  attr_nat self "nl" = Some nl → attr_modules self "m" = Some m →
  nl ≤ length x → nl ≤ length m →
  DetectV5.forward self x
  = Some (self,
          imap (λ i xi, layer_at m i xi) (take nl x) ++ drop nl x,
          RList (Ten4 <$> imap (λ i xi, map4 sigmoid (layer_at m i xi)) (take nl x))).
Proof.
  intros Hnl Hm Hx Hlen. unfold DetectV5.forward. rewrite Hnl, Hm. cbn.
  by rewrite conv_sigmoid_loop.
Qed.

(** C10.  [DetectV5.forward] and [DetectV7.forward] are extensionally equal:
    on adapters with the same layers [m] and the same [nl] a caller observes
    the same list and the same value for every input list (both fail on the
    same inputs), and whenever [x] and [m] have at least [nl] elements the
    value is the list of [nl] tensors whose [i]-th element is
    [sigmoid(m[i](x[i]))]. *)
Theorem detect_v5_v7_extensionally_equal (self5 self7 : obj) (x : list T4) :
  self5 !! "m" = self7 !! "m" → self5 !! "nl" = self7 !! "nl" →
  observed (DetectV5.forward self5 x) = observed (DetectV7.forward self7 x) ∧
  ∀ nl m, attr_nat self5 "nl" = Some nl → attr_modules self5 "m" = Some m →
    nl ≤ length x → nl ≤ length m →
    ∃ x' outs,
      observed (DetectV5.forward self5 x) = Some (x', RList outs) ∧
      observed (DetectV7.forward self7 x) = Some (x', RList outs) ∧
      length outs = nl ∧
      ∀ i mi xi, i < nl → m !! i = Some mi → x !! i = Some xi →
        outs !! i = Some (Ten4 (map4 sigmoid (mi xi))).
Proof.
  intros Hm Hnl.
  assert (observed (DetectV5.forward self5 x) = observed (DetectV7.forward self7 x))
    as Hsame.
  { unfold DetectV5.forward, DetectV7.forward, attr_nat, attr_modules.
    rewrite Hm, Hnl. destruct (self7 !! "nl" ≫= as_nat) as [nl|]; [|done].
    cbn. destruct (self7 !! "m" ≫= as_modules) as [m|]; [|done]. cbn.
    by destruct (for_range _ _ _ _) as [[x' outs]|]. }
  split; [done|]. intros nl m Hnl5 Hm5 Hx Hlen.
  eexists _, _. rewrite <- Hsame.
  rewrite (conv_sigmoid_forward self5 m x nl) by done. cbn.
  split; [done|]. split; [done|]. split.
  - rewrite length_fmap, length_imap, length_take. lia.
  - intros i mi xi Hi Hmi Hxi.
    rewrite list_lookup_fmap, list_lookup_imap, lookup_take_lt by done.
    rewrite Hxi. cbn. by rewrite (layer_at_lookup m i mi).
Qed.

(** ** The maximum over the channels *)









(** ** Constructors *)

(** The effect of each kind of statement. *)
#[global] Instance copy_attr_assigns old dst src :
  Assigns (copy_attr old dst src)
    (λ k prev, if String.eqb k dst then old !! src else prev).
Proof.
  intros self self' H k. unfold copy_attr in H.
  apply bind_Some in H as (v & Hv & [= <-]).
  destruct (String.eqb_spec k dst) as [->|Hne].
  - by rewrite lookup_insert_eq.
  - by rewrite lookup_insert_ne.
Qed.

#[global] Instance copy_if_has_assigns old dst src :
  Assigns (copy_if_has old dst src)
    (λ k prev, if String.eqb k dst
               then match old !! src with Some v => Some v | None => prev end
               else prev).
Proof.
  intros self self' H k. unfold copy_if_has in H.
  destruct (old !! src) as [v|]; injection H as <-;
    destruct (String.eqb_spec k dst) as [->|Hne]; try done.
  - by rewrite lookup_insert_eq.
  - by rewrite lookup_insert_ne.
Qed.

#[global] Instance copy_first_of_assigns old dst a b :
  Assigns (copy_first_of old dst a b)
    (λ k prev, if String.eqb k dst
               then match old !! a with
                    | Some v => Some v
                    | None => match old !! b with Some v => Some v | None => prev end
                    end
               else prev).
Proof.
  intros self self' H k. unfold copy_first_of, copy_if_has in H.
  destruct (old !! a) as [v|]; [|destruct (old !! b) as [v|]]; injection H as <-;
    destruct (String.eqb_spec k dst) as [->|Hne]; try done;
    by rewrite ?lookup_insert_eq, ?lookup_insert_ne.
Qed.

#[global] Instance set_attr_assigns dst v :
  Assigns (set_attr dst v) (λ k prev, if String.eqb k dst then Some v else prev).
Proof.
  intros self self' H k. unfold set_attr in H. injection H as <-.
  destruct (String.eqb_spec k dst) as [->|Hne].
  - by rewrite lookup_insert_eq.
  - by rewrite lookup_insert_ne.
Qed.

#[global] Instance nil_assigns : BodyAssigns [] [].
Proof. constructor. Qed.

#[global] Instance cons_assigns stmt E body Es :
  Assigns stmt E → BodyAssigns body Es → BodyAssigns (stmt :: body) (E :: Es).
Proof. by constructor. Qed.

(** A constructor body from a given instance on. *)
Lemma run_from_lookup body Es (start : option obj) self k :
  BodyAssigns body Es →
  foldl (λ self stmt, self ≫= stmt) start body = Some self →
  ∃ self0, start = Some self0 ∧
    self !! k = foldl (λ prev (E : effect), E k prev) (self0 !! k) Es.
Proof.
  intros HB. revert start. induction HB as [|stmt E body Es Hstmt _ IH]; intros start H.
  - cbn in H. by exists self.
  - cbn [foldl] in H. apply IH in H as (self1 & Hself1 & ->).
    apply bind_Some in Hself1 as (self0 & -> & Hself1).
    exists self0. split; [done|]. cbn [foldl]. by rewrite (Hstmt _ _ Hself1 k).
Qed.

(** The attributes of a new instance, statement by statement. *)
Lemma run_init_lookup body Es self k :
  BodyAssigns body Es → run_init body = Some self → self !! k = attr_after Es k.
Proof.
  intros HB H. destruct (run_from_lookup body Es (Some ∅) self k HB H)
    as (self0 & [= <-] & ->).
  by rewrite lookup_empty.
Qed.

(** Every statement of a constructor that returns has succeeded. *)
Lemma run_init_statements body self stmt :
  run_init body = Some self → stmt ∈ body → ∃ s s', stmt s = Some s'.
Proof.
  unfold run_init. revert self. induction body as [|st body IH] using rev_ind;
    intros self H Hin; [by apply elem_of_nil in Hin|].
  rewrite foldl_app in H. cbn in H. apply bind_Some in H as (s & Hs & Hst).
  apply elem_of_app in Hin as [Hin|Hin]; [by eapply IH|].
  apply list_elem_of_singleton in Hin as ->. by exists s, self.
Qed.

Lemma run_init_reads body self old dst src :
  run_init body = Some self → copy_attr old dst src ∈ body → is_Some (old !! src).
Proof.
  intros H Hin. destruct (run_init_statements _ _ _ H Hin) as (s & s' & Hs).
  unfold copy_attr in Hs. apply bind_Some in Hs as (v & Hv & _). by exists v.
Qed.

(** The bodies of the constructors, as lists of statements. *)
Ltac init_body H :=
  cbv [init DetectV5.init DetectV7.init DetectV6R1.init DetectV6R3.init
       DetectV6R4s.init DetectV6R4m.init DetectV8.init OBBV8.init PoseV8.init
       SegmentV8.init ClassifyV8.init DetectV2.init DetectV1.init
       v8_init_common app] in H.

(** The attribute [k] of an instance that the constructor [H] has built. *)
Ltac init_attr H k :=
  let Hk := fresh "Hk" in
  pose proof (run_init_lookup _ _ _ k _ H) as Hk;
  cbv [attr_after foldl String.eqb Ascii.eqb Bool.eqb] in Hk.

Lemma init_use_rvc2 c old rvc self :
  c ∈ rvc2_heads → init c old rvc = Some self →
  attr_bool self "use_rvc2" = Some rvc ∧ self !! "shape" = None.
Proof.
  intros Hc Hinit. unfold rvc2_heads in Hc.
  repeat (apply elem_of_cons in Hc as [->|Hc]); [..|by apply elem_of_nil in Hc];
    init_body Hinit; init_attr Hinit "use_rvc2"; init_attr Hinit "shape";
    unfold attr_bool; by rewrite Hk, Hk0.
Qed.

(** ** The decoupled heads *)

Lemma has_modules_attr self a n :
  has_modules self a n →
  attr_modules self a = Some (modules_attr self a) ∧ n ≤ length (modules_attr self a).
Proof. intros (ms & Hms & Hn). unfold modules_attr. by rewrite Hms. Qed.

Lemma is_Some_nat_attr self a :
  is_Some (attr_nat self a) → attr_nat self a = Some (nat_attr self a).
Proof. intros [n Hn]. unfold nat_attr. by rewrite Hn. Qed.



(** ** The YOLOv8 heads *)

Lemma branch_lookup ms x i xi :
  x !! i = Some xi → branch ms x !! i = Some (layer_at ms i xi).
Proof. intros Hxi. unfold branch. by rewrite list_lookup_imap, Hxi. Qed.

Lemma branch_lookup_total ms x i xi :
  x !! i = Some xi → branch ms x !!! i = layer_at ms i xi.
Proof. intros Hxi. apply list_lookup_total_correct. by apply branch_lookup. Qed.

Lemma length_branch ms x : length (branch ms x) = length x.
Proof. unfold branch. by rewrite length_imap. Qed.

Lemma v8_common c self x rvc :
  is_v8 c = true → attr_bool self "use_rvc2" = Some rvc → v8_well_shaped c self x →
  let nl := nat_attr self "nl" in
  let x' := v8_levels (modules_attr self "cv2") (modules_attr self "cv3") x in
  let x_cat := v8_cat (batch c self x) (nat_attr self "no") x' in
  attr_nat self "nl" = Some nl ∧ is_Some (x !! 0) ∧
  for_range (cv_step self) 0 nl x = Some x' ∧ length x' = nl ∧
  v8_x_cat self (batch c self x) x' = Some x_cat ∧
  ∃ y, v8_y self x_cat = Some y ∧
    ∀ i, i < nl →
      split_levels y x' 0 0 !! i
      = Some (cat_dim1 [level_box c self x i;
                        confidence4 rvc (class_scores c self x i);
                        class_scores c self x i]).
Proof.
  intros Hc Hrvc (Hnl & Hno & Hreg & Hnc & Hdfl & Hcv2 & Hcv3 & Hx & Hpos & Hno_eq
                  & Hbs & Hnc_pos & Hshape & (cb & Hbox) & _).
  apply is_Some_nat_attr in Hnl, Hno, Hreg, Hnc.
  apply has_modules_attr in Hcv2 as [Hcv2 ?], Hcv3 as [Hcv3 ?].
  assert (attr_module3 self "dfl" = Some (dfl_attr self)) as Hdfl'.
  { destruct Hdfl as [d Hd]. unfold dfl_attr. by rewrite Hd. }
  cbv zeta. split; [done|]. split; [apply lookup_lt_is_Some_2; lia|].
  split; [by apply cv_loop|]. split; [unfold v8_levels; by rewrite length_imap|].
  set (nl := nat_attr self "nl") in *. set (no := nat_attr self "no") in *.
  set (reg_max := nat_attr self "reg_max") in *. set (nc := nat_attr self "nc") in *.
  set (bs := batch c self x) in *.
  set (cv2 := modules_attr self "cv2") in *. set (cv3 := modules_attr self "cv3") in *.
  pose proof (v8_box_cells self x nl no reg_max nc bs (dfl_attr self) cv2 cv3
                Hno Hx Hpos Hno_eq Hbs Hnc_pos Hshape) as Hbc.
  pose proof (v8_levels_cells self x nl no reg_max nc bs cv2 cv3
                Hno Hx Hpos Hno_eq Hbs Hnc_pos Hshape) as Hcells.
  pose proof (v8_levels_shaped self x nl no reg_max nc bs cv2 cv3
                Hno Hx Hpos Hno_eq Hbs Hnc_pos Hshape) as Hx'.
  rewrite <- Hbc, <- (sum_list_with_fmap_eq _ _ _ _ Hcells) in Hbox.
  destruct (v8_core self x nl no reg_max nc bs cb (dfl_attr self) rvc cv2 cv3)
    as (Hcat & y & Hy & Hlev); try done.
  split; [done|]. exists y. split; [done|].
  intros i Hi. destruct (lookup_lt_is_Some_2 x i) as [xi Hxi]; [lia|].
  rewrite (Hlev i xi Hxi). unfold level_box, class_scores, class_logits.
  rewrite Hc. cbv zeta. rewrite (list_lookup_total_correct x i xi Hxi).
  fold bs reg_max cv2 cv3. rewrite (branch_lookup_total cv3 x i xi Hxi).
  set (xi' := cat_dim1 [layer_at cv2 i xi; layer_at cv3 i xi]).
  assert (v8_levels cv2 cv3 x !! i = Some xi') as Hxi'.
  { unfold v8_levels. by rewrite list_lookup_imap, Hxi. }
  assert (shaped4 bs no xi') as Hsh.
  { rewrite Forall_lookup in Hx'. by apply (Hx' i). }
  pose proof (level_offset_le _ i xi' Hxi') as Hle.
  rewrite (level_view_eq bs no cb (sum_list_with cells (v8_levels cv2 cv3 x)));
    [|done|done|lia|done|done|done].
  destruct (v8_level_dims self x nl no reg_max nc bs cv2 cv3
              Hno Hx Hpos Hno_eq Hbs Hnc_pos Hshape i xi Hxi) as (E2 & E3 & Ec).
  fold xi' in E2, E3, Ec. unfold level_cut.
  rewrite E2, E3, Ec, (level_offset_fmap_eq _ _ i Hcells), Hbc. done.
Qed.



Lemma batch_lookup c self x x0 :
  c ≠ CSegmentV8 → x !! 0 = Some x0 → length x0 = batch c self x.
Proof.
  intros Hc Hx0. rewrite <- (list_lookup_total_correct x 0 x0 Hx0).
  by destruct c.
Qed.


Lemma comprehension_tabulate {A} n (f : nat → option A) (F : nat → A) :
  (∀ i, i < n → f i = Some (F i)) → comprehension n f = Some (tabulate n F).
Proof.
  unfold comprehension, tabulate. intros Hf.
  assert (∀ j, (∀ i, j ≤ i < j + n → f i = Some (F i)) →
               mapM f (seq j n) = Some (F <$> seq j n)) as H.
  { clear Hf. induction n as [|n IH]; intros j Hf; [done|].
    cbn. rewrite Hf by lia. cbn. rewrite IH by (intros; apply Hf; lia). done. }
  apply H. intros i Hi. apply Hf. lia.
Qed.

(** The views of the extra branch: [cv4[i](x[i]).view(bs, n, -1)] for each
    level. *)
Lemma cv4_views_eq self bs n x :
  is_Some (attr_nat self "nl") → has_modules self "cv4" (nat_attr self "nl") →
  length x = nat_attr self "nl" →
  cv4_views self bs n x
  = Some ((λ t, view3_last bs n (flat4 t)) <$> branch (modules_attr self "cv4") x).
Proof.
  intros Hnl Hcv4 Hx. apply is_Some_nat_attr in Hnl.
  apply has_modules_attr in Hcv4 as [Hcv4 Hlen].
  unfold cv4_views. rewrite Hnl. cbn [mbind option_bind].
  rewrite (comprehension_tabulate _ _
    (λ i, view3_last bs n (flat4 (layer_at (modules_attr self "cv4") i (x !!! i))))).
  - f_equal. apply list_eq. intros i. rewrite list_lookup_fmap.
    destruct (decide (i < nat_attr self "nl")) as [Hi|Hi].
    + rewrite lookup_tabulate by done.
      destruct (lookup_lt_is_Some_2 x i) as [xi Hxi]; [lia|].
      rewrite (branch_lookup _ x i xi Hxi). cbn.
      by rewrite (list_lookup_total_correct x i xi Hxi).
    + rewrite !(proj2 (lookup_ge_None _ _)); [done|..].
      * rewrite length_branch. lia.
      * rewrite length_tabulate. lia.
  - intros i Hi. rewrite Hcv4. cbn [mbind option_bind].
    rewrite lookup_layer_at by lia. cbn [mbind option_bind].
    destruct (lookup_lt_is_Some_2 x i) as [xi Hxi]; [lia|].
    rewrite Hxi. cbn [mbind option_bind].
    by rewrite (list_lookup_total_correct x i xi Hxi).
Qed.

(** The views of all levels concatenated along the cells. *)
Lemma cv4_cat bs n (ts : list T4) :
  ts ≠ [] → Forall (shaped4 bs n) ts → 0 < bs → 0 < n →
  cat_dim2 ((λ t, view3_last bs n (flat4 t)) <$> ts) = cells_of_levels bs n ts.
Proof. intros. by apply x_cat_tabulate. Qed.

Lemma nonempty_Some {X} (ts : list X) : ts ≠ [] → nonempty ts = Some ts.
Proof. by destruct ts. Qed.

Lemma branch_nonempty ms x : 0 < length x → branch ms x ≠ [].
Proof.
  intros Hx Hnil. pose proof (length_branch ms x) as Hlen.
  rewrite Hnil in Hlen. cbn in Hlen. lia.
Qed.


(** ** make_anchors *)

Lemma zip_with_replicate_rows {A B C} (f : A → B → C) (l : list A) (k : list B) :
  zip_with (zip_with f) ((λ v, replicate (length k) v) <$> l) (replicate (length l) k)
  = (λ u, (λ v, f u v) <$> k) <$> l.
Proof.
  induction l as [|a l IH]; [done|]. cbn. rewrite IH. f_equal.
  clear IH. induction k as [|b k IH]; [done|]. cbn. by rewrite IH.
Qed.

Lemma zip_with_rows_replicate {A B C} (f : A → B → C) (l : list A) (k : list B) :
  zip_with (zip_with f) (replicate (length k) l) ((λ v, replicate (length l) v) <$> k)
  = (λ v, (λ u, f u v) <$> l) <$> k.
Proof.
  induction k as [|b k IH]; [done|]. cbn. rewrite IH. f_equal.
  clear IH. induction l as [|a l IH]; [done|]. cbn. by rewrite IH.
Qed.

Lemma level_anchor_points_eq offset (feat : T4) :
  level_anchor_points offset feat = cell_centers offset (len2 feat) (len3 feat).
Proof.
  unfold level_anchor_points, cell_centers, meshgrid, stack_last, arange.
  set (h := len2 feat). set (w := len3 feat).
  rewrite (zip_with_rows_replicate (λ u v, [u; v])).
  rewrite !fmap_tabulate.
  rewrite (tabulate_ext h _
    (λ r, tabulate w (λ c, [(INR c + offset)%R; (INR r + offset)%R])))
    by (intros r _; apply fmap_tabulate).
  set (st := tabulate h _).
  assert (Forall (λ row : T2, Forall (λ p : T1, length p = 2) row) st) as Hst.
  { unfold st. apply Forall_fmap, Forall_forall. intros r _. cbn.
    apply Forall_fmap, Forall_forall. by intros c _. }
  unfold flat3, build2.
  assert (Forall (λ p : T1, length p = 2) (concat st)) as Hrows.
  { apply Forall_concat. exact Hst. }
  rewrite (length_concat_uniform 2) by done.
  rewrite Nat.div_mul by lia. by apply chunks_concat.
Qed.

Lemma make_anchors_loop_eq feats offset i strides ap st :
  i + length strides ≤ length feats →
  make_anchors_loop feats offset i strides (ap, st)
  = Some (ap ++ (level_anchor_points offset <$> take (length strides) (drop i feats)),
          st ++ zip_with level_stride_rows strides (drop i feats)).
Proof.
  revert i ap st. induction strides as [|s strides IH]; intros i ap st Hlen.
  - cbn. by rewrite !app_nil_r.
  - cbn [make_anchors_loop length] in *. unfold make_anchors_step.
    destruct (feats !! i) as [f|] eqn:Hf.
    2:{ apply lookup_ge_None in Hf. lia. }
    cbn [mbind option_bind]. rewrite IH by lia.
    rewrite (drop_S feats f i Hf). cbn. by rewrite <- !app_assoc.
Qed.

Lemma make_anchors_eq feats strides offset :
  feats ≠ [] → strides ≠ [] → length strides ≤ length feats →
  make_anchors feats strides offset
  = Some (concat (level_anchor_points offset <$> take (length strides) feats),
          concat (zip_with level_stride_rows strides feats)).
Proof.
  intros Hne Hs Hlen. unfold make_anchors.
  destruct feats as [|f0 feats]; [done|]. cbn [lookup list_lookup mbind option_bind].
  rewrite make_anchors_loop_eq by (cbn in *; lia).
  destruct strides as [|s strides]; [done|]. done.
Qed.

Lemma length_cell_centers offset h w : length (cell_centers offset h w) = h * w.
Proof.
  unfold cell_centers. rewrite (length_concat_uniform w), length_tabulate; [done|].
  unfold tabulate at 1. apply Forall_fmap, Forall_forall. intros r _.
  apply length_tabulate.
Qed.

Lemma level_of_size_dims f hw :
  level_of_size f hw →
  len2 f = hw.1 ∧ (0 < hw.1 → len3 f = hw.2).
Proof.
  intros (b & c & Hb & Hc & [Hlen Hf]).
  destruct f as [|fb f]; [cbn in Hlen; lia|].
  inversion Hf as [|?? [Hlenb Hfb] _]; subst.
  destruct fb as [|p fb]; [cbn in Hc; lia|].
  inversion Hfb as [|?? [Hlenp Hp] _]; subst.
  split; [done|]. intros Hh. destruct p as [|r p]; [cbn in *; lia|].
  by inversion Hp.
Qed.

Lemma level_of_size_centers offset f hw :
  level_of_size f hw →
  cell_centers offset (len2 f) (len3 f) = cell_centers offset hw.1 hw.2 ∧
  len2 f * len3 f = hw.1 * hw.2.
Proof.
  intros Hf. destruct (level_of_size_dims f hw Hf) as [-> Hw].
  destruct (decide (0 < hw.1)) as [Hh|Hh].
  - by rewrite Hw.
  - replace hw.1 with 0 by lia. done.
Qed.

(** C4.  For a non-empty list of 4-D feature maps and as many strides,
    [make_anchors] returns the anchor points and the stride rows of all
    cells: for each level in turn the cell centres
    [(column + grid_cell_offset, row + grid_cell_offset)] of its [h] x [w]
    grid in row-major order, and [h * w] rows holding the level's stride;
    both tensors have [sum_i (h_i * w_i)] rows. *)
Theorem make_anchors_cell_centers (feats : list T4) (strides : T1)
    (grid_cell_offset : R) (sizes : list (nat * nat)) :
  feats ≠ [] → length strides = length feats →
  Forall2 level_of_size feats sizes →
  ∃ anchor_points stride_tensor,
    make_anchors feats strides grid_cell_offset = Some (anchor_points, stride_tensor) ∧
    anchor_points
    = concat ((λ hw, cell_centers grid_cell_offset hw.1 hw.2) <$> sizes) ∧
    stride_tensor
    = concat (zip_with (λ stride hw, replicate (hw.1 * hw.2) [stride]) strides sizes) ∧
    length anchor_points = sum_list_with (λ hw, hw.1 * hw.2) sizes ∧
    length stride_tensor = sum_list_with (λ hw, hw.1 * hw.2) sizes.
Proof.
  intros Hne Hlen Hsizes. eexists _, _.
  split; [apply make_anchors_eq; [done| |lia]|].
  { intros ->. destruct feats; [done|]. cbn in Hlen. lia. }
  rewrite Hlen, take_ge by lia. clear Hne.
  assert (level_anchor_points grid_cell_offset <$> feats
          = (λ hw, cell_centers grid_cell_offset hw.1 hw.2) <$> sizes) as ->.
  { clear Hlen. induction Hsizes as [|f hw feats sizes Hf _ IH]; [done|].
    cbn [fmap list_fmap]. rewrite IH, level_anchor_points_eq. f_equal.
    by apply level_of_size_centers. }
  assert (zip_with level_stride_rows strides feats
          = zip_with (λ stride hw, replicate (hw.1 * hw.2) [stride]) strides sizes) as ->.
  { revert strides Hlen. induction Hsizes as [|f hw feats sizes Hf _ IH];
      intros [|s strides] Hlen; try done.
    cbn [zip_with]. rewrite IH by (cbn in Hlen; lia). f_equal.
    unfold level_stride_rows, full_col.
    by destruct (level_of_size_centers grid_cell_offset f hw Hf) as [_ ->]. }
  split; [done|]. split; [done|]. split.
  - clear. induction sizes as [|hw sizes IH]; [done|].
    cbn. rewrite length_app, IH, length_cell_centers. done.
  - apply Forall2_length in Hsizes. rewrite Hsizes in Hlen. clear Hsizes feats.
    revert strides Hlen. induction sizes as [|hw sizes IH]; intros [|s strides] Hlen;
      try done.
    cbn. rewrite length_app, IH, length_replicate by (cbn in Hlen; lia). done.
Qed.

Lemma comprehension_length {A} n (f : nat → option A) l :
  comprehension n f = Some l → length l = n.
Proof.
  unfold comprehension. intros H. apply mapM_Some_1, Forall2_length in H.
  by rewrite length_seq in H.
Qed.

Lemma cv4_views_length self bs n x views :
  cv4_views self bs n x = Some views → length views = nat_attr self "nl".
Proof.
  unfold cv4_views, nat_attr. destruct (attr_nat self "nl") as [nl|]; [|done].
  cbn. apply comprehension_length.
Qed.

Lemma split_levels_mc_lookup (mc : list T3) (y : T3) (x : list T4) i0 s :
  i0 + length x ≤ length mc →
  ∃ outs, SegmentV8.split_levels_mc mc y x i0 s s = Some outs ∧
    length outs = 2 * length x ∧
    ∀ k, outs !! (2 * k + 1) = split_levels y x s s !! k.
Proof.
  revert i0 s. induction x as [|xi x IH]; intros i0 s Hlen.
  - exists []. split; [done|]. split; [done|]. by intros k.
  - cbn [SegmentV8.split_levels_mc length] in *.
    destruct (lookup_lt_is_Some_2 mc i0) as [mc_i Hmc]; [lia|].
    rewrite Hmc. cbn [mbind option_bind].
    destruct (IH (S i0) (s + len2 xi * len3 xi)) as (outs & Houts & Hl & Hk); [lia|].
    rewrite Houts. cbn [mbind option_bind]. eexists. split; [done|].
    split; [cbn; lia|]. intros [|k]; [done|].
    replace (2 * S k + 1) with (S (S (2 * k + 1))) by lia.
    cbn [lookup list_lookup split_levels]. apply Hk.
Qed.


(** A string is none of the listed attribute names. *)
Ltac not_in_keys :=
  let H := fresh in
  intros H; repeat (apply elem_of_cons in H as [H|H]; [discriminate H|]);
  by apply elem_of_nil in H.

Lemma v8_y_insert self k v t :
  k ∉ ["reg_max"; "nc"; "dfl"; "use_rvc2"] → v8_y (<[k := v]> self) t = v8_y self t.
Proof.
  intros Hk. unfold v8_y, attr_nat, attr_module3, attr_bool.
  rewrite !lookup_insert_ne; [done|..]; intros ->; apply Hk;
    repeat first [by left | right]; by left.
Qed.

(** The keypoint maps of a well-shaped call of PoseV8 are feature maps of
    [nk] channels. *)
Lemma pose_keypoint_maps self x :
  v8_well_shaped CPoseV8 self x →
  Forall (shaped4 (batch CPoseV8 self x) (nat_attr self "nk"))
    (branch (modules_attr self "cv4") x) ∧ 0 < nat_attr self "nk".
Proof.
  intros (_ & _ & _ & _ & _ & _ & _ & Hx & Hpos & _ & Hbs & Hnc & Hshape & _ & Hex).
  destruct Hex as (_ & _ & (nkpt & ndim & _ & Hnk & Hnkpt & Hndim) & _ & Hgrid).
  assert (0 < nat_attr self "nk") as Hnk_pos by (rewrite Hnk; destruct Hndim; subst; lia).
  split; [|done]. apply Forall_lookup. intros i t4 Ht4.
  destruct (lookup_lt_is_Some_2 x i) as [xi Hxi].
  { apply lookup_lt_Some in Ht4. by rewrite length_branch in Ht4. }
  pose proof (branch_lookup (modules_attr self "cv3") x i xi Hxi) as Ht3.
  pose proof (Forall2_lookup_lr _ _ _ i _ _ Hgrid Ht4 Ht3) as Hsh.
  destruct (Hshape i xi Hxi) as (h & w & Hh & Hw & _ & H3).
  destruct (has_shape4_dims _ _ _ _ _ H3) as (_ & _ & E2 & E3); [done..|].
  cbv beta in Hsh. rewrite E2, E3 in Hsh. by apply (shaped4_intro _ _ h w).
Qed.

Lemma pose_v8_forward self x rvc :
  attr_bool self "use_rvc2" = Some rvc → self !! "shape" = None →
  v8_well_shaped CPoseV8 self x →
  let bs := batch CPoseV8 self x in
  let x' := v8_levels (modules_attr self "cv2") (modules_attr self "cv3") x in
  ∃ dets pred_kpt stride,
    let self' :=
      <["shape" := VInt bs]>
        (<["strides" := VTensor (Ten2 (transpose
             (concat (zip_with level_stride_rows stride x'))))]>
        (<["anchors" := VTensor (Ten2 (transpose
             (concat (level_anchor_points 0.5 <$> x'))))]> self)) in
    attr_T1 self "stride" = Some stride ∧
    PoseV8.forward self x = Some (self', x', RList (dets ++ [Ten3 pred_kpt])) ∧
    length dets = nat_attr self "nl" ∧
    PoseV8.kpts_decode self' bs
      (cells_of_levels bs (nat_attr self "nk") (branch (modules_attr self "cv4") x))
    = Some pred_kpt ∧
    ∀ i, i < nat_attr self "nl" →
      dets !! i
      = Some (Ten4 (cat_dim1 [level_box CPoseV8 self x i;
                              confidence4 rvc (class_scores CPoseV8 self x i);
                              class_scores CPoseV8 self x i])).
Proof.
  intros Hrvc Hshape Hwell bs x'. subst bs x'.
  destruct (v8_common CPoseV8 self x rvc) as (Hnl & [x0 Hx0] & Hloop & Hlen & Hcat & y & Hy & Hlev);
    [done..|].
  destruct (pose_keypoint_maps self x Hwell) as [Hc4 Hnk_pos].
  set (bs := batch CPoseV8 self x) in *.
  set (x' := v8_levels (modules_attr self "cv2") (modules_attr self "cv3") x) in *.
  pose proof Hwell as (Hnl' & _ & _ & _ & _ & _ & _ & Hx & Hpos & _ & Hbs & _ & _ & _ & Hex).
  destruct Hex as (Hnk & Hcv4 & (nkpt & ndim & Hkpt & _) & (stride & Hstride & Hslen) & _).
  apply is_Some_nat_attr in Hnk.
  unfold PoseV8.forward. rewrite Hx0. cbn [mbind option_bind].
  rewrite Hnk. cbn [mbind option_bind].
  rewrite (batch_lookup CPoseV8 self x x0) by done. fold bs.
  rewrite cv4_views_eq by done. cbn [mbind option_bind].
  rewrite nonempty_Some.
  2:{ intros Hnil. apply fmap_nil_inv in Hnil. revert Hnil. apply branch_nonempty. lia. }
  cbn [mbind option_bind].
  rewrite cv4_cat; [|apply branch_nonempty; lia|done..].
  rewrite Hnl. cbn [mbind option_bind]. rewrite Hloop. cbn [mbind option_bind].
  rewrite Hcat. cbn [mbind option_bind].
  assert (PoseV8.refresh_anchors self bs x'
     = Some (<["shape" := VInt bs]>
              (<["strides" := VTensor (Ten2 (transpose
                   (concat (zip_with level_stride_rows stride x'))))]>
              (<["anchors" := VTensor (Ten2 (transpose
                   (concat (level_anchor_points 0.5 <$> x'))))]> self)))) as Href.
  { unfold PoseV8.refresh_anchors, getattr. rewrite Hshape. cbn.
    rewrite Hstride. cbn [mbind option_bind].
    rewrite make_anchors_eq.
    - cbn [mbind option_bind]. rewrite take_ge by lia. done.
    - intros Hnil. rewrite Hnil in Hlen. cbn in Hlen. lia.
    - intros ->. cbn in Hslen. lia.
    - lia. }
  rewrite Href. cbn [mbind option_bind].
  rewrite !v8_y_insert by not_in_keys. rewrite Hy. cbn [mbind option_bind].
  set (self' := <["shape" := _]> _) in *.
  assert (is_Some (PoseV8.kpts_decode self' bs
            (cells_of_levels bs (nat_attr self "nk") (branch (modules_attr self "cv4") x))))
    as [pk Hpk].
  { assert (∀ k, k ∉ ["shape"; "strides"; "anchors"] → self' !! k = self !! k) as Hk.
    { intros k Hk. unfold self'. rewrite !lookup_insert_ne; [done|..];
        intros <-; apply Hk; repeat first [by left | right]; by left. }
    unfold PoseV8.kpts_decode, attr_ints, attr_nat, getattr.
    unfold attr_ints in Hkpt. unfold attr_nat in Hnk.
    rewrite (Hk "kpt_shape") by not_in_keys. rewrite Hkpt.
    cbn [mbind option_bind lookup list_lookup].
    rewrite option_guard_True by done. cbn [mbind option_bind].
    rewrite (Hk "nk") by not_in_keys. rewrite Hnk.
    unfold self'.
    rewrite (lookup_insert_ne _ "shape" "anchors") by done.
    rewrite (lookup_insert_ne _ "strides" "anchors") by done.
    rewrite lookup_insert_eq. cbn [mbind option_bind as_T2].
    rewrite (lookup_insert_ne _ "shape" "strides") by done.
    rewrite lookup_insert_eq. cbn [mbind option_bind as_T2].
    by eexists. }
  rewrite Hpk. cbn [mbind option_bind].
  exists (Ten4 <$> split_levels y x' 0 0), pk, stride. cbv zeta.
  split; [done|]. split; [done|].
  split; [by rewrite length_fmap, length_split_levels|].
  split; [done|]. intros i Hi.
  by rewrite list_lookup_fmap, Hlev.
Qed.

(** ** The angles of OBBV8 *)



Lemma logistic_range v : (0 < 1 / (1 + exp (- v)) < 1)%R.
Proof.
  pose proof (exp_pos (- v)). split.
  - apply Rdiv_lt_0_compat; lra.
  - apply (Rmult_lt_reg_r (1 + exp (- v))); [lra|].
    unfold Rdiv. rewrite Rmult_assoc, Rinv_l; lra.
Qed.




Lemma has_shape3_cells_of_levels bs ch (ts : list T4) :
  Forall (shaped4 bs ch) ts →
  has_shape3 bs ch (sum_list_with cells ts) (cells_of_levels bs ch ts).
Proof.
  intros Hts. apply has_shape3_tabulate. intros n k Hn Hk.
  by apply (length_level_rows bs ch).
Qed.



(** ** Regrouping the channels *)

Lemma chunks_concat_group {A} k n a (tb : list (list A)) :
  Forall (λ r, length r = a) tb → length tb = k * n →
  chunks k (n * a) (concat tb) = @concat _ <$> chunks k n tb.
Proof.
  revert tb. induction k as [|k IH]; intros tb Htb Hlen; [done|].
  rewrite <- (take_drop n tb) at 1. rewrite concat_app.
  rewrite chunks_app.
  - cbn. f_equal. apply IH; [by apply Forall_drop|]. rewrite length_drop. lia.
  - rewrite (length_concat_uniform a) by (by apply Forall_take).
    rewrite length_take. f_equal. lia.
Qed.

Lemma Forall_chunks_shape k n a (tb : T2) :
  has_shape2 (k * n) a tb → Forall (has_shape2 n a) (chunks k n tb).
Proof.
  intros [Hlen Htb]. revert tb Hlen Htb.
  induction k as [|k IH]; intros tb Hlen Htb; [constructor|].
  cbn. constructor.
  - split; [rewrite length_take; lia|]. by apply Forall_take.
  - apply IH; [rewrite length_drop; lia|]. by apply Forall_drop.
Qed.

(** [(b, k * n, a)] viewed as [(b, k, n, a)]: the rows of every batch item in
    [k] groups of [n]. *)
Lemma build4_group b k n a (t : T3) :
  has_shape3 b (k * n) a t → build4 b k n a (flat3 t) = chunks k n <$> t.
Proof.
  intros [<- Ht]. unfold build4, flat3. rewrite <- concat_fmap_concat.
  rewrite <- (length_fmap (@concat _) t), (chunks_concat (k * n * a)).
  - rewrite <- list_fmap_compose. apply Forall_fmap_ext_1.
    eapply Forall_impl; [exact Ht|]. intros tb [Hlen Htb]. cbn.
    unfold build3. rewrite (chunks_concat_group k n a) by done.
    rewrite <- list_fmap_compose. rewrite <- (list_fmap_id (chunks k n tb)) at 2.
    apply Forall_fmap_ext_1.
    eapply Forall_impl; [apply (Forall_chunks_shape k n a); by split|].
    intros g Hg. cbn. by apply build2_concat.
  - apply Forall_fmap. eapply Forall_impl; [exact Ht|].
    intros tb Htb. cbn. rewrite (has_shape2_length_concat (k * n) a) by done. lia.
Qed.

(** [(b, k, n, a)] viewed as [(b, k * n, a)]. *)
Lemma build3_merge b k n a (t : T4) :
  has_shape4 b k n a t → build3 b (k * n) a (flat4 t) = @concat _ <$> t.
Proof.
  intros Ht.
  assert (flat4 t = flat3 (@concat _ <$> t)) as ->.
  { unfold flat4, flat3. by rewrite concat_fmap_concat. }
  apply build3_flat3. destruct Ht as [<- Ht].
  split; [by rewrite length_fmap|].
  apply Forall_fmap. eapply Forall_impl; [exact Ht|].
  intros tb [<- Htb]. cbn. split.
  - by apply length_concat_uniform, (Forall_impl _ _ _ Htb); intros ? [? _].
  - apply Forall_concat. eapply Forall_impl; [exact Htb|]. by intros ? [_ ?].
Qed.

(** ** The keypoints of PoseV8 *)

Lemma zip_with_fmap_same {A B C D} (f : B → C → D) (g : A → B) (h : A → C) (l : list A) :
  zip_with f (g <$> l) (h <$> l) = (λ v, f (g v) (h v)) <$> l.
Proof. induction l as [|v l IH]; [done|]. cbn. by rewrite IH. Qed.

Lemma keypoint_rows_ndim2 a (anchors strides yk : T2) :
  has_shape2 2 a yk → has_shape2 2 a anchors → has_shape2 1 a strides →
  PoseV8.decode_xy anchors strides yk = keypoint_rows anchors strides yk.
Proof.
  intros [Hy _] [Ha _] [Hs _].
  destruct yk as [|r0 [|r1 [|??]]]; try done.
  destruct anchors as [|a0 [|a1 [|??]]]; try done.
  destruct strides as [|s0 [|??]]; try done.
Qed.

Lemma keypoint_rows_ndim3 a (anchors strides yk : T2) :
  has_shape2 3 a yk → has_shape2 2 a anchors → has_shape2 1 a strides →
  PoseV8.decode_xy anchors strides yk ++ ((λ r : T1, sigmoid <$> r) <$> slice 2 3 yk)
  = keypoint_rows anchors strides yk.
Proof.
  intros [Hy _] [Ha _] [Hs _].
  destruct yk as [|r0 [|r1 [|r2 [|??]]]]; try done.
  destruct anchors as [|a0 [|a1 [|??]]]; try done.
  destruct strides as [|s0 [|??]]; try done.
Qed.

Lemma has_shape2_keypoint_rows ndim a (anchors strides yk : T2) :
  has_shape2 ndim a yk → has_shape2 2 a anchors → has_shape2 1 a strides →
  has_shape2 ndim a (keypoint_rows anchors strides yk).
Proof.
  intros [<- Hy] [Hla Ha] [Hls Hs]. unfold keypoint_rows.
  split; [by rewrite length_imap|].
  apply Forall_lookup. intros d row Hrow.
  rewrite list_lookup_imap in Hrow.
  destruct (yk !! d) as [r|] eqn:Hr; [|done]. injection Hrow as <-.
  rewrite Forall_lookup in Hy. pose proof (Hy d r Hr) as Hlr.
  unfold has_shape1 in *. case_decide; [|by rewrite length_fmap].
  rewrite !length_zip_with.
  assert (length (anchors !!! d) = a) as ->.
  { rewrite Forall_lookup in Ha. apply (Ha d).
    apply list_lookup_lookup_total_lt. lia. }
  assert (length (strides !!! 0) = a) as ->.
  { rewrite Forall_lookup in Hs. apply (Hs 0).
    apply list_lookup_lookup_total_lt. lia. }
  lia.
Qed.

Lemma kpts_decode_eq self bs (kpts : T3) nkpt ndim nk a (anchors strides : T2) :
  attr_ints self "kpt_shape" = Some [nkpt; ndim] →
  attr_nat self "nk" = Some nk → nk = nkpt * ndim →
  getattr v8_class self "anchors" = Some (VTensor (Ten2 anchors)) →
  getattr v8_class self "strides" = Some (VTensor (Ten2 strides)) →
  has_shape2 2 a anchors → has_shape2 1 a strides →
  has_shape3 bs nk a kpts → 0 < bs → 0 < nkpt → ndim = 2 ∨ ndim = 3 →
  PoseV8.kpts_decode self bs kpts
  = Some (decoded_keypoints anchors strides nkpt ndim kpts) ∧
  has_shape3 bs nk a (decoded_keypoints anchors strides nkpt ndim kpts).
Proof.
  intros Hks Hnk -> Hanc Hstr Ha Hs Hk Hbs Hnkpt Hndim.
  set (K := (λ tb : T2, keypoint_rows anchors strides <$> chunks nkpt ndim tb) <$> kpts).
  assert (has_shape4 bs nkpt ndim a K) as HK.
  { destruct Hk as [<- Hk]. split; [unfold K; by rewrite length_fmap|].
    apply Forall_fmap. eapply Forall_impl; [exact Hk|]. intros tb Htb. cbn.
    split; [by rewrite length_fmap, length_chunks|].
    apply Forall_fmap. eapply Forall_impl; [by apply (Forall_chunks_shape nkpt ndim a)|].
    intros yk Hyk. cbn. by apply has_shape2_keypoint_rows. }
  assert (decoded_keypoints anchors strides nkpt ndim kpts = @concat _ <$> K) as Hdec.
  { unfold decoded_keypoints, K. by rewrite <- list_fmap_compose. }
  split.
  2:{ rewrite Hdec, <- (build3_merge bs nkpt ndim a K HK).
      assert (flat4 K = flat3 (@concat _ <$> K)) as Hflat.
      { unfold flat4, flat3. by rewrite concat_fmap_concat. }
      rewrite (build3_merge bs nkpt ndim a K HK).
      destruct HK as [<- HK]. split; [by rewrite length_fmap|].
      apply Forall_fmap. eapply Forall_impl; [exact HK|].
      intros tb [<- Htb]. cbn. split.
      - by apply length_concat_uniform, (Forall_impl _ _ _ Htb); intros ? [? _].
      - apply Forall_concat. eapply Forall_impl; [exact Htb|]. by intros ? [_ ?]. }
  unfold PoseV8.kpts_decode. rewrite Hks. cbn [mbind option_bind lookup list_lookup].
  rewrite option_guard_True by done. cbn [mbind option_bind].
  rewrite Hanc, Hstr. cbn [mbind option_bind as_T2]. rewrite Hnk.
  cbn [mbind option_bind]. f_equal.
  rewrite (has_shape3_length_flat bs (nkpt * ndim) a kpts Hk).
  replace (bs * (nkpt * ndim * a)) with (a * (bs * nkpt * ndim)) by lia.
  rewrite Nat.div_mul by (destruct Hndim; subst; lia).
  rewrite (build4_group bs nkpt ndim a kpts Hk).
  assert ((if decide (ndim = 3)
           then zip_with (zip_with app)
                  ((λ yb : T3, PoseV8.decode_xy anchors strides <$> yb)
                     <$> (chunks nkpt ndim <$> kpts))
                  ((λ yb : T3, (λ yk : T2, (λ r : T1, sigmoid <$> r) <$> slice 2 3 yk) <$> yb)
                     <$> (chunks nkpt ndim <$> kpts))
           else (λ yb : T3, PoseV8.decode_xy anchors strides <$> yb)
                  <$> (chunks nkpt ndim <$> kpts)) = K) as ->.
  { unfold K. destruct Hk as [_ Hk]. case_decide as Hd.
    - rewrite zip_with_fmap_same, <- list_fmap_compose.
      apply Forall_fmap_ext_1. eapply Forall_impl; [exact Hk|]. intros tb Htb. cbn.
      rewrite zip_with_fmap_same. apply Forall_fmap_ext_1.
      eapply Forall_impl; [by apply (Forall_chunks_shape nkpt ndim a)|].
      intros yk Hyk. cbn. subst ndim. by apply (keypoint_rows_ndim3 a).
    - destruct Hndim as [->| ->]; [|done]. rewrite <- list_fmap_compose.
      apply Forall_fmap_ext_1. eapply Forall_impl; [exact Hk|]. intros tb Htb. cbn.
      apply Forall_fmap_ext_1.
      eapply Forall_impl; [by apply (Forall_chunks_shape nkpt 2 a)|].
      intros yk Hyk. by apply (keypoint_rows_ndim2 a). }
  unfold view3_last.
  rewrite (has_shape4_length_flat bs nkpt ndim a K HK).
  replace (bs * (nkpt * (ndim * a))) with (a * (bs * (nkpt * ndim))) by lia.
  rewrite Nat.div_mul by (destruct Hndim; subst; lia).
  by rewrite (build3_merge bs nkpt ndim a K HK).
Qed.

(** ** What the constructors copy *)

(** The attribute [a] of a new instance is the wrapped head's. *)
Ltac copied_attr H a :=
  let Hk := fresh "Hk" in
  pose proof (run_init_lookup _ _ _ a _ H) as Hk;
  cbv [attr_after foldl String.eqb Ascii.eqb Bool.eqb] in Hk;
  rewrite Hk; by repeat case_match.

Ltac each_attr H Ha :=
  cbv [copied_attrs v8_copied app] in Ha;
  repeat (apply elem_of_cons in Ha as [->|Ha];
          [match goal with |- _ !! ?a = _ => copied_attr H a end|]);
  by apply elem_of_nil in Ha.

Lemma init_copies c old use_rvc2 self :
  init c old use_rvc2 = Some self →
  ∀ a, a ∈ copied_attrs c → self !! a = old !! a.
Proof.
  intros Hinit a Ha. destruct c; init_body Hinit; each_attr Hinit Ha.
Qed.

(** [a] is not among the listed adapters. *)
Ltac not_listed Hc :=
  exfalso; repeat (apply elem_of_cons in Hc as [Hc|Hc]; [discriminate Hc|]);
  by apply elem_of_nil in Hc.

Lemma init_stride c old use_rvc2 self :
  init c old use_rvc2 = Some self →
  (c ∈ stride_copying →
   is_Some (old !! "stride") ∧ self !! "stride" = old !! "stride") ∧
  (c ∈ stride_fixing → self !! "stride" = Some fixed_stride) ∧
  (c = CClassifyV8 → self !! "stride" = None).
Proof.
  intros Hinit. unfold stride_copying, stride_fixing.
  destruct c; init_body Hinit; init_attr Hinit "stride";
    (split; [|split]); intros Hc;
    try (by not_listed Hc); try discriminate Hc; try exact Hk;
    (split; [|exact Hk]);
    (eapply (run_init_reads _ _ old "stride" "stride"); [exact Hinit|]);
    repeat first [by apply list_elem_of_here | apply list_elem_of_further].
Qed.

(** C5 (as the code has it).  A constructor that returns has taken every
    attribute of [copied_attrs] unchanged from the wrapped head.  The stride
    is the wrapped head's in DetectV5, DetectV7, DetectV6R4s, DetectV6R4m and
    the four YOLOv8 detection heads; DetectV6R1, DetectV6R3, DetectV2 and
    DetectV1 set the constant [[8, 16, 32]] whatever the head's stride is, and
    ClassifyV8 has no stride. *)
Theorem constructor_copies_hyperparameters c old use_rvc2 self :
  init c old use_rvc2 = Some self →
  (∀ a, a ∈ copied_attrs c → self !! a = old !! a) ∧
  (c ∈ stride_copying →
   is_Some (old !! "stride") ∧ self !! "stride" = old !! "stride") ∧
  (c ∈ stride_fixing → self !! "stride" = Some fixed_stride) ∧
  (c = CClassifyV8 → self !! "stride" = None).
Proof.
  intros Hinit. split; [by eapply init_copies|by eapply init_stride].
Qed.

Lemma constructor_copies_hyperparameters_witness :
  init CDetectV6R3 v6_p6_head true = Some v6_p6_adapter ∧
  (∀ a, a ∈ copied_attrs CDetectV6R3 → v6_p6_adapter !! a = v6_p6_head !! a) ∧
  (CDetectV6R3 ∈ stride_copying →
   is_Some (v6_p6_head !! "stride") ∧
   v6_p6_adapter !! "stride" = v6_p6_head !! "stride") ∧
  (CDetectV6R3 ∈ stride_fixing → v6_p6_adapter !! "stride" = Some fixed_stride) ∧
  (CDetectV6R3 = CClassifyV8 → v6_p6_adapter !! "stride" = None).
Proof.
  split; [reflexivity|].
  apply (constructor_copies_hyperparameters CDetectV6R3 v6_p6_head true).
  reflexivity.
Defined.

(** C5 (as stated) fails: DetectV6R3 built on a head whose strides are
    [[8, 16, 32, 64]] has the strides [[8, 16, 32]]. *)
Lemma stride_not_copied_by_every_adapter :
  ¬ (∀ c old use_rvc2 self,
       init c old use_rvc2 = Some self → self !! "stride" = old !! "stride").
Proof.
  intros H.
  specialize (H CDetectV6R3 v6_p6_head true v6_p6_adapter eq_refl).
  vm_compute in H. discriminate H.
Qed.

(** ** What a call leaves behind *)

(** Runs a successful [forward] backwards: every bound computation has
    returned. *)
Ltac fwd_inv H :=
  repeat first
    [ apply bind_Some in H as (? & ? & H)
    | match type of H with
      | (let '(_, _) := ?p in _) = Some _ => destruct p
      end
    | apply fmap_Some in H as (? & ? & ->) ];
  try (injection H as <- <- <-).

Lemma modules_attr_Some self a ms :
  attr_modules self a = Some ms → modules_attr self a = ms.
Proof. unfold modules_attr. by intros ->. Qed.

Lemma nat_attr_Some self a n : attr_nat self a = Some n → nat_attr self a = n.
Proof. unfold nat_attr. by intros ->. Qed.

(** One round of the loop of the anchor-based heads writes [x[i]] and at most
    the attribute [grid]. *)
Lemma anchor_head_step_inv i self x z self' x' z' :
  anchor_head_step i (self, x, z) = Some (self', x', z') →
  (∀ a, a ≠ "grid" → self' !! a = self !! a) ∧
  ∃ xi, x !! i = Some xi ∧
    x' = <[i := layer_at (modules_attr self "stems") i xi]> x.
Proof.
  unfold anchor_head_step. intros H. fwd_inv H.
  split.
  - intros a Ha.
    match goal with |- context [decide ?P] => destruct (decide P) end; [|done].
    by rewrite lookup_insert_ne.
  - eexists. split; [done|].
    erewrite modules_attr_Some, layer_at_lookup by done. done.
Qed.

(** The loop of the anchor-based heads from level [i]. *)
Lemma anchor_head_loop_inv n i self x z self' x' z' :
  for_range anchor_head_step i n (self, x, z) = Some (self', x', z') →
  (∀ a, a ≠ "grid" → self' !! a = self !! a) ∧
  (0 < n → i + n ≤ length x) ∧ length x' = length x ∧
  (∀ j, i ≤ j < i + n →
     x' !! j = Some (layer_at (modules_attr self "stems") j (x !!! j))) ∧
  (∀ j, ¬ (i ≤ j < i + n) → x' !! j = x !! j).
Proof.
  revert i self x z. induction n as [|n IH]; intros i self x z H.
  - cbn in H. injection H as <- <- <-. split; [done|]. split; [lia|]. split; [done|]. split; [intros; lia|done].
  - cbn [for_range] in H. apply bind_Some in H as ([[self1 x1] z1] & Hstep & H).
    apply anchor_head_step_inv in Hstep as (Hself1 & xi & Hxi & ->).
    apply IH in H as (Hself & Hn & Hlen & Hin & Hout).
    assert (i < length x) by (by eapply lookup_lt_Some).
    assert (modules_attr self1 "stems" = modules_attr self "stems") as Hstems.
    { unfold modules_attr, attr_modules. by rewrite Hself1. }
    rewrite length_insert in Hlen, Hn.
    split; [|split; [|split; [|split]]].
    + intros a Ha. rewrite Hself, Hself1; done.
    + destruct n; lia.
    + done.
    + intros j Hj. destruct (decide (j = i)) as [->|Hne].
      * rewrite Hout by lia. rewrite list_lookup_insert_eq by done.
        by rewrite (list_lookup_total_correct _ _ _ Hxi).
      * rewrite Hin by lia. rewrite Hstems.
        by rewrite list_lookup_total_insert_ne.
    + intros j Hj. rewrite Hout by lia. by rewrite list_lookup_insert_ne by lia.
Qed.

Lemma refresh_anchors_frame self bs x self' :
  PoseV8.refresh_anchors self bs x = Some self' →
  ∀ a, a ∉ cached_attrs CPoseV8 → self' !! a = self !! a.
Proof.
  unfold PoseV8.refresh_anchors. intros H a Ha.
  apply bind_Some in H as (shape & _ & H).
  destruct (match shape with VInt n => bool_decide (n ≠ bs) | _ => true end).
  - fwd_inv H. injection H as <-. cbn in Ha.
    rewrite !lookup_insert_ne; [done|..]; intros <-; apply Ha;
      repeat constructor.
  - by injection H as <-.
Qed.

(** A call of [forward] that returns has assigned no attribute of the
    instance but those of [cached_attrs]. *)
Lemma forward_frame c self x self' x' r :
  forward c self x = Some (self', x', r) →
  ∀ a, a ∉ cached_attrs c → self' !! a = self !! a.
Proof.
  intros H a Ha.
  destruct c; cbn in H;
    unfold DetectV5.forward, DetectV7.forward, DetectV6R1.forward,
      DetectV6R3.forward, DetectV6R4s.forward, DetectV6R4m.forward,
      DetectV8.forward, OBBV8.forward, PoseV8.forward, SegmentV8.forward,
      ClassifyV8.forward, DetectV2.forward, DetectV1.forward,
      decoupled_forward, anchor_head_forward in H;
    fwd_inv H; try done;
    first
      [ match goal with
        | H : for_range anchor_head_step _ _ _ = Some _ |- _ =>
            apply anchor_head_loop_inv in H as (Hself & _); apply Hself;
            intros ->; apply Ha; repeat constructor
        end
      | by eapply refresh_anchors_frame ].
Qed.

Lemma forward_same_instance c self x self' x' r :
  cached_attrs c = [] →
  forward c self x = Some (self', x', r) → self' = self.
Proof.
  intros Hc H. apply map_eq. intros a. eapply forward_frame; [done|].
  rewrite Hc. apply not_elem_of_nil.
Qed.

(** PoseV8 with the batch size already cached assigns nothing. *)
Lemma pose_forward_cached self x x0 self' x' r :
  PoseV8.forward self x = Some (self', x', r) → x !! 0 = Some x0 →
  getattr v8_class self "shape" = Some (VInt (length x0)) → self' = self.
Proof.
  unfold PoseV8.forward. intros H Hx0 Hshape. rewrite Hx0 in H. cbn in H.
  fwd_inv H.
  match goal with
  | H : PoseV8.refresh_anchors _ _ _ = Some _ |- _ =>
      unfold PoseV8.refresh_anchors in H; rewrite Hshape in H; cbn in H;
      rewrite bool_decide_eq_false_2 in H by (intros Hne; by apply Hne);
      by injection H as <-
  end.
Qed.

(** C2 (as the code has it).  A call of [forward] that returns has assigned
    no attribute of the instance but those of [cached_attrs]: PoseV8 writes
    [anchors], [strides] and [shape] (and nothing when the batch size it has
    cached is that of the call), DetectV6R1 and DetectV1 write [grid]; the
    other ten classes leave the instance as it was. *)
Theorem forward_assigns_only_caches c self x self' x' r :
  forward c self x = Some (self', x', r) →
  (∀ a, a ∉ cached_attrs c → self' !! a = self !! a) ∧
  (cached_attrs c = [] → self' = self) ∧
  (c = CPoseV8 → ∀ x0, x !! 0 = Some x0 →
     getattr v8_class self "shape" = Some (VInt (length x0)) → self' = self).
Proof.
  intros H. split; [by eapply forward_frame|]. split.
  - intros Hc. by eapply forward_same_instance.
  - intros -> x0 Hx0 Hshape. by eapply pose_forward_cached.
Qed.

(** The example call of PoseV8 returns, and caches the batch size. *)
Lemma pose_example_shape :
  forward CPoseV8 pose_adapter one_level ≫= (λ s, s.1.1 !! "shape")
  = Some (VInt 1).
Proof. vm_compute. reflexivity. Qed.

Lemma forward_assigns_only_caches_witness :
  ∃ self' x' r,
    forward CPoseV8 pose_adapter one_level = Some (self', x', r) ∧
    (∀ a, a ∉ cached_attrs CPoseV8 → self' !! a = pose_adapter !! a) ∧
    (cached_attrs CPoseV8 = [] → self' = pose_adapter) ∧
    (CPoseV8 = CPoseV8 → ∀ x0, one_level !! 0 = Some x0 →
       getattr v8_class pose_adapter "shape" = Some (VInt (length x0)) →
       self' = pose_adapter).
Proof.
  destruct (forward CPoseV8 pose_adapter one_level) as [[[self' x'] r]|] eqn:E.
  - exists self', x', r. split; [reflexivity|].
    apply (forward_assigns_only_caches CPoseV8 pose_adapter one_level self' x' r).
    exact E.
  - pose proof pose_example_shape as H. rewrite E in H. discriminate H.
Defined.

(** C2 (as stated) fails: a first call of PoseV8 assigns [shape] (and the
    anchors and strides), which the instance did not have. *)
Lemma forward_changes_pose_instance :
  ¬ (∀ c self x self' x' r,
       forward c self x = Some (self', x', r) → ∀ a, self' !! a = self !! a).
Proof.
  intros H. pose proof pose_example_shape as Hs.
  destruct (forward CPoseV8 pose_adapter one_level) as [[[self' x'] r]|] eqn:E;
    [|discriminate Hs].
  cbn in Hs. rewrite (H _ _ _ _ _ _ E "shape") in Hs.
  vm_compute in Hs. discriminate Hs.
Qed.

(** ** What a call writes to the caller's list *)

Lemma level_step_written {O} (g : nat → T4 → option (T4 * O)) w x n x' outs :
  for_range (level_step g) 0 n (x, []) = Some (x', outs) →
  (∀ i xi r o, i < n → x !! i = Some xi → g i xi = Some (r, o) → r = w i) →
  levels_written w n x x'.
Proof.
  intros H Hw. apply for_range_level_step_inv in H as (Hn & Hlen & _ & Hin & Hout).
  repeat split; [done..| |done].
  intros i Hi. destruct (lookup_lt_is_Some_2 x i) as [xi Hxi]; [lia|].
  destruct (Hin i xi Hi Hxi) as (r & o & Hg & -> & _). f_equal. by eapply Hw.
Qed.

Lemma upd_step_written (h : nat → T4 → option T4) w x n x' :
  for_range (upd_step h) 0 n x = Some x' →
  (∀ i xi r, i < n → x !! i = Some xi → h i xi = Some r → r = w i) →
  levels_written w n x x'.
Proof.
  intros H Hw. apply for_range_upd_step_inv in H as (Hn & Hlen & Hin & Hout).
  repeat split; [done..| |done].
  intros i Hi. destruct (lookup_lt_is_Some_2 x i) as [xi Hxi]; [lia|].
  destruct (Hin i xi Hi Hxi) as (r & Hg & ->). f_equal. by eapply Hw.
Qed.

Lemma conv_sigmoid_written self c m nl x x' outs :
  c = CDetectV5 ∨ c = CDetectV7 →
  attr_modules self "m" = Some m →
  for_range (conv_sigmoid_step m) 0 nl (x, []) = Some (x', outs) →
  levels_written (written c self x) nl x x'.
Proof.
  intros Hc Hm H.
  rewrite (for_range_ext _ _ _ _ _ (conv_sigmoid_step_level m)) in H.
  eapply level_step_written; [done|].
  intros i xi r o Hi Hxi Hg. unfold conv_sigmoid_level in Hg.
  apply bind_Some in Hg as (mi & Hmi & [= <- _]).
  destruct Hc as [-> | ->]; cbn;
    by rewrite (modules_attr_Some _ _ _ Hm), (layer_at_lookup _ _ _ Hmi),
         (list_lookup_total_correct _ _ _ Hxi).
Qed.

Lemma decoupled_written self c decode conf nl x x' outs :
  c ∈ [CDetectV6R3; CDetectV6R4s; CDetectV6R4m; CDetectV2] →
  for_range (decoupled_step decode conf self) 0 nl (x, []) = Some (x', outs) →
  levels_written (written c self x) nl x x'.
Proof.
  intros Hc H.
  rewrite (for_range_ext _ _ _ _ _ (decoupled_step_level decode conf self)) in H.
  eapply level_step_written; [done|].
  intros i xi r o Hi Hxi Hg. unfold decoupled_level in Hg.
  apply bind_Some in Hg as (stems & Hstems & Hg).
  apply bind_Some in Hg as (stem & Hstem & Hg).
  fwd_inv Hg. injection Hg as <- _.
  repeat (apply elem_of_cons in Hc as [->|Hc]); [..|by apply elem_of_nil in Hc];
    cbn;
    by rewrite (modules_attr_Some _ _ _ Hstems), (layer_at_lookup _ _ _ Hstem),
         (list_lookup_total_correct _ _ _ Hxi).
Qed.

Lemma cv_written self c nl x x' :
  is_v8 c = true →
  for_range (cv_step self) 0 nl x = Some x' →
  levels_written (written c self x) nl x x'.
Proof.
  intros Hc H. rewrite (for_range_ext _ _ _ _ _ (cv_step_level self)) in H.
  eapply upd_step_written; [done|].
  intros i xi r Hi Hxi Hg. unfold cv_level in Hg.
  apply bind_Some in Hg as (cv2 & Hcv2 & Hg).
  apply bind_Some in Hg as (cv2_i & Hcv2_i & Hg).
  apply bind_Some in Hg as (cv3 & Hcv3 & Hg).
  apply bind_Some in Hg as (cv3_i & Hcv3_i & [= <-]).
  destruct c; try discriminate Hc; cbn;
    by rewrite (modules_attr_Some _ _ _ Hcv2), (modules_attr_Some _ _ _ Hcv3),
         (layer_at_lookup _ _ _ Hcv2_i), (layer_at_lookup _ _ _ Hcv3_i),
         (list_lookup_total_correct _ _ _ Hxi).
Qed.

Lemma anchor_head_written self c nl x self' x' z :
  c = CDetectV6R1 ∨ c = CDetectV1 →
  for_range anchor_head_step 0 nl (self, x, []) = Some (self', x', z) →
  levels_written (written c self x) nl x x'.
Proof.
  intros Hc H. apply anchor_head_loop_inv in H as (_ & Hn & Hlen & Hin & Hout).
  split; [destruct nl; lia|]. split; [done|]. split.
  - intros i Hi. rewrite Hin by lia. by destruct Hc as [-> | ->].
  - intros i Hi. apply Hout. lia.
Qed.

Lemma forward_levels_written c self x self' x' r :
  c ≠ CClassifyV8 → forward c self x = Some (self', x', r) →
  ∃ nl, attr_nat self "nl" = Some nl ∧ levels_written (written c self x) nl x x'.
Proof.
  intros Hc H.
  destruct c; try done; cbn in H;
    unfold DetectV5.forward, DetectV7.forward, DetectV6R1.forward,
      DetectV6R3.forward, DetectV6R4s.forward, DetectV6R4m.forward,
      DetectV8.forward, OBBV8.forward, PoseV8.forward, SegmentV8.forward,
      DetectV2.forward, DetectV1.forward,
      decoupled_forward, anchor_head_forward in H;
    fwd_inv H; eexists; (split; [eassumption|]);
    first
      [ by eapply conv_sigmoid_written; eauto
      | by eapply decoupled_written; [|eassumption]; repeat first [by left | right]
      | by eapply cv_written
      | by eapply anchor_head_written; eauto ].
Qed.

Lemma classify_leaves_list self x self' x' r :
  ClassifyV8.forward self x = Some (self', x', r) → x' = x.
Proof. unfold ClassifyV8.forward. intros H. by fwd_inv H. Qed.

(** C8 (as the code has it).  A call that returns has assigned to [x[i]],
    for every level [i] below [nl], the tensor [written], the output of the
    level's first layer(s), and has left the elements from [nl] on as they
    were; the list keeps its length.  ClassifyV8 assigns to its local name
    only: the caller's list is as it was. *)
Theorem forward_overwrites_levels c self x self' x' r :
  forward c self x = Some (self', x', r) →
  (c = CClassifyV8 → x' = x) ∧
  (c ≠ CClassifyV8 →
   ∃ nl, attr_nat self "nl" = Some nl ∧
     levels_written (written c self x) nl x x').
Proof.
  intros H. split.
  - intros ->. by eapply classify_leaves_list.
  - intros Hc. by eapply forward_levels_written.
Qed.

Lemma forward_overwrites_levels_witness :
  ∃ self' x' r,
    forward CPoseV8 pose_adapter one_level = Some (self', x', r) ∧
    (CPoseV8 = CClassifyV8 → x' = one_level) ∧
    (CPoseV8 ≠ CClassifyV8 →
     ∃ nl, attr_nat pose_adapter "nl" = Some nl ∧
       levels_written (written CPoseV8 pose_adapter one_level) nl one_level x').
Proof.
  destruct (forward CPoseV8 pose_adapter one_level) as [[[self' x'] r]|] eqn:E.
  - exists self', x', r. split; [reflexivity|].
    apply (forward_overwrites_levels CPoseV8 pose_adapter one_level self' x' r).
    exact E.
  - pose proof pose_example_shape as H. rewrite E in H. discriminate H.
Defined.

(** The example call of ClassifyV8 returns. *)
Lemma classify_example_returns :
  is_Some (forward CClassifyV8 classify_adapter one_level).
Proof. apply (bool_decide_unpack _). vm_compute. exact I. Qed.

(** C8 (as stated) fails: ClassifyV8 leaves the caller's list as it was,
    and [x[0]] is not the convolved map. *)
Lemma classify_does_not_write_list :
  ¬ (∀ c self x self' x' r,
       forward c self x = Some (self', x', r) →
       ∀ i, i < length x → x' !! i = Some (written c self x i)).
Proof.
  intros H. destruct classify_example_returns as [[[self' x'] r] E].
  specialize (H _ _ _ _ _ _ E 0 ltac:(cbn; lia)).
  apply classify_leaves_list in E as ->.
  assert (attr_module4 classify_adapter "conv" = Some (map4 (λ v, v + 1)%R))
    as Hconv by reflexivity.
  unfold written in H. rewrite Hconv in H. cbn in H.
  injection H as H _. lra.
Qed.

(** ** Distribution decoding *)

Lemma tabulate_S {A} n (f : nat → A) :
  tabulate (S n) f = f 0 :: tabulate n (λ i, f (S i)).
Proof. unfold tabulate. cbn. f_equal. by rewrite <- fmap_S_seq, <- list_fmap_compose. Qed.

Lemma tabulate_const {A} n (v : A) : tabulate n (λ _, v) = replicate n v.
Proof.
  induction n as [|n IH]; [done|]. rewrite tabulate_S. cbn. by rewrite IH.
Qed.



(** The columns of a matrix. *)
Lemma transpose_columns {A} `{Inhabited A} b (m : list (list A)) :
  m ≠ [] → Forall (λ row, length row = b) m →
  transpose m = tabulate b (λ j, (λ row, row !!! j) <$> m).
Proof.
  intros Hne Hm. unfold transpose.
  assert (length (default [] (head m)) = b) as ->.
  { destruct Hm; [done|]. done. }
  clear Hne. induction Hm as [|row m Hrow _ IH].
  - cbn. by rewrite tabulate_const.
  - cbn [foldr fmap list_fmap]. rewrite IH.
    rewrite (tabulate_lookup_total row) at 1. rewrite Hrow.
    rewrite zip_with_tabulate. done.
Qed.

(** Sums of real numbers. *)
Lemma foldl_Rplus (a : R) (l : T1) : foldl Rplus a l = (a + sum_list_R l)%R.
Proof.
  unfold sum_list_R. revert a.
  induction l as [|v l IH]; intros a; cbn [foldl foldr]; [lra|]. rewrite IH. lra.
Qed.





Lemma has_shape2_shape2d a b (t : T2) : has_shape2 a b t ↔ shape2d a b t.
Proof. done. Qed.



Section softmax.
Variables (K a l : nat) (chans : T3).
Hypothesis HK : 0 < K.
Hypothesis Hchans : has_shape3 K a l chans.

(** One batch item of [F.softmax(t, dim=1)]. *)
Local Abbreviation softmax_item :=
  (let e := map3 exp chans in
   let s := reduce (zip_with (zip_with Rplus)) [] e in
   (λ ch : T2, zip_with (zip_with Rdiv) ch s) <$> e).






End softmax.






Section dfl.
Variables (φ : T1 → R) (reg_max b h w : nat) (reg : T4).
Hypothesis Hb : 0 < b.
Hypothesis Hh : 0 < h.
Hypothesis Hw : 0 < w.
Hypothesis Hreg : has_shape4 b (4 * (reg_max + 1)) h w reg.

Local Abbreviation K := (reg_max + 1).
Local Abbreviation l := (h * w).

(** The channels of a batch item, flattened and taken in four groups. *)
Local Abbreviation groups := (λ reg_n : T3, chunks 4 K (@concat _ <$> reg_n)).





(** The tensor before the last reshape, without its channel dimension. *)
Local Abbreviation projected :=
  ((λ reg_n : T3, pointwise (φ ∘ softmax_vec) 4 l (transpose (groups reg_n)))
     <$> reg).







End dfl.


(** ** The decoding in the forward of the decoupled heads *)






(** ** Examples *)

(** The shape of a tensor that is given by its entries. *)
Ltac shape_of_example := vm_compute; repeat constructor.

Lemma make_anchors_cell_centers_witness :
  one_level ≠ [] ∧ length [8%R] = length one_level ∧
  Forall2 level_of_size one_level [(1, 2)] ∧
  ∃ anchor_points stride_tensor,
    make_anchors one_level [8%R] 0.5 = Some (anchor_points, stride_tensor) ∧
    anchor_points = concat ((λ hw, cell_centers 0.5 hw.1 hw.2) <$> [(1, 2)]) ∧
    stride_tensor
    = concat (zip_with (λ stride hw, replicate (hw.1 * hw.2) [stride]) [8%R] [(1, 2)]) ∧
    length anchor_points = sum_list_with (λ hw, hw.1 * hw.2) [(1, 2)] ∧
    length stride_tensor = sum_list_with (λ hw, hw.1 * hw.2) [(1, 2)].
Proof.
  assert (Forall2 level_of_size one_level [(1, 2)]) as Hsizes.
  { repeat constructor. exists 1, 1. repeat constructor. }
  split; [discriminate|]. split; [reflexivity|]. split; [exact Hsizes|].
  apply (make_anchors_cell_centers one_level [8%R] 0.5 [(1, 2)]).
  - discriminate.
  - reflexivity.
  - exact Hsizes.
Defined.

Lemma detect_v5_v7_extensionally_equal_witness :
  v5_adapter !! "m" = v7_adapter !! "m" ∧ v5_adapter !! "nl" = v7_adapter !! "nl" ∧
  observed (DetectV5.forward v5_adapter one_level)
  = observed (DetectV7.forward v7_adapter one_level) ∧
  ∀ nl m, attr_nat v5_adapter "nl" = Some nl → attr_modules v5_adapter "m" = Some m →
    nl ≤ length one_level → nl ≤ length m →
    ∃ x' outs,
      observed (DetectV5.forward v5_adapter one_level) = Some (x', RList outs) ∧
      observed (DetectV7.forward v7_adapter one_level) = Some (x', RList outs) ∧
      length outs = nl ∧
      ∀ i mi xi, i < nl → m !! i = Some mi → one_level !! i = Some xi →
        outs !! i = Some (Ten4 (map4 sigmoid (mi xi))).
Proof.
  split; [reflexivity|]. split; [reflexivity|].
  apply (detect_v5_v7_extensionally_equal v5_adapter v7_adapter one_level).
  - reflexivity.
  - reflexivity.
Defined.

(** A call of the pose adapter on [one_level] leaves it as [pose_cached]. *)
Lemma pose_example_caches :
  forward CPoseV8 pose_adapter one_level ≫= (λ s, Some s.1.1) = Some pose_cached.
Proof. reflexivity. Qed.

(** * Further properties *)

(** ** The box decoding of DetectV6R1 and DetectV1 *)

Lemma zip_with_ext_Forall {A B C} (P : A → Prop) (Q : B → Prop) (f g : A → B → C) l k :
  (∀ a b, P a → Q b → f a b = g a b) → Forall P l → Forall Q k →
  zip_with f l k = zip_with g l k.
Proof.
  intros Hfg Hl. revert k. induction Hl as [|a l Ha _ IH]; intros k Hk; [done|].
  destruct Hk as [|b k Hb Hk]; [done|]. cbn. rewrite Hfg by done. f_equal. by apply IH.
Qed.

Lemma decode_cell_entries (stride_i x y w h gx gy : R) (rest : T1) (inplace : bool) :
  decode_cell stride_i inplace (x :: y :: w :: h :: rest) [gx; gy]
  = [(x + gx) * stride_i; (y + gy) * stride_i; exp w * stride_i; exp h * stride_i]%R
    ++ rest.
Proof. by destruct inplace. Qed.

Lemma decode_cell_inplace (stride_i : R) (r g : T1) :
  4 ≤ length r → length g = 2 →
  decode_cell stride_i true r g = decode_cell stride_i false r g.
Proof.
  intros Hr Hg.
  destruct r as [|x [|y [|w [|h rest]]]]; try (cbn in Hr; lia).
  destruct g as [|gx [|gy [|? ?]]]; try discriminate Hg.
  by rewrite !decode_cell_entries.
Qed.

(** X1.  The two branches of the box decoding, [inplace] and not, return
    the same tensor when every prediction row has at least the four box
    entries and every grid cell its two coordinates: the centre is
    [(xy + grid) * stride], the size [exp(wh) * stride], and the entries
    from the fifth on are as they were. *)
Theorem decode_boxes_inplace_irrelevant (stride_i : R) (y grid : T5) :
  rows5 (λ r, 4 ≤ length r) y → rows5 (λ g, length g = 2) grid →
  decode_boxes stride_i true y grid = decode_boxes stride_i false y grid ∧
  ∀ inplace x0 y0 w h rest gx gy,
    decode_boxes stride_i inplace [[[[x0 :: y0 :: w :: h :: rest]]]] [[[[[gx; gy]]]]]
    = [[[[[(x0 + gx) * stride_i; (y0 + gy) * stride_i;
           exp w * stride_i; exp h * stride_i]%R ++ rest]]]].
Proof.
  intros Hy Hgrid. split.
  - unfold decode_boxes. apply Forall_fmap_ext.
    eapply Forall_impl; [exact Hy|]. intros yb Hyb. cbn beta.
    assert (Forall (Forall (Forall (λ g : T1, length g = 2))) (default [] (head grid)))
      as Hg by (destruct Hgrid; [constructor|done]).
    eapply zip_with_ext_Forall; [|exact Hyb|exact Hg]. intros ya ga Hya Hga.
    eapply zip_with_ext_Forall; [|exact Hya|exact Hga]. intros yr gr Hyr Hgr.
    eapply zip_with_ext_Forall; [|exact Hyr|exact Hgr]. intros r g Hr Hg'.
    by apply decode_cell_inplace.
  - intros inplace x0 y0 w h rest gx gy. unfold decode_boxes. cbn.
    by rewrite decode_cell_entries.
Qed.

Lemma decode_boxes_inplace_irrelevant_witness :
  rows5 (λ r, 4 ≤ length r) box_example ∧ rows5 (λ g, length g = 2) grid_example ∧
  decode_boxes 8 true box_example grid_example
  = decode_boxes 8 false box_example grid_example ∧
  ∀ inplace x0 y0 w h rest gx gy,
    decode_boxes 8 inplace [[[[x0 :: y0 :: w :: h :: rest]]]] [[[[[gx; gy]]]]]
    = [[[[[(x0 + gx) * 8; (y0 + gy) * 8; exp w * 8; exp h * 8]%R ++ rest]]]].
Proof.
  assert (rows5 (λ r, 4 ≤ length r) box_example) as Hy.
  { repeat constructor; cbn; lia. }
  assert (rows5 (λ g, length g = 2) grid_example) as Hg by (repeat constructor).
  split; [exact Hy|]. split; [exact Hg|].
  apply (decode_boxes_inplace_irrelevant 8 box_example grid_example Hy Hg).
Defined.

(** ** The grid of the anchor-based heads *)

Lemma build5_single ny nx (t : T3) :
  has_shape3 ny nx 2 t → build5 1 1 ny nx 2 (flat3 t) = [[t]].
Proof.
  intros Ht. pose proof (has_shape3_length_flat _ _ _ _ Ht) as Hlen.
  unfold build5, build4. cbn [chunks fmap list_fmap].
  rewrite !take_ge by (rewrite ?length_take; lia).
  by rewrite (build3_flat3 ny nx 2).
Qed.

(** X2.  The grid that DetectV6R1 and DetectV1 build for a level of [ny]
    rows and [nx] columns (one anchor per cell) holds at row [j], column [k]
    the pair [(k, j)]: the column index first. *)
Theorem make_grid_cells (ny nx : nat) :
  make_grid 1 ny nx = [[tabulate ny (λ j, tabulate nx (λ k, [INR k; INR j]))]] ∧
  ∀ j k, j < ny → k < nx →
    (((make_grid 1 ny nx !!! 0) !!! 0) !!! j) !!! k = [INR k; INR j].
Proof.
  assert (make_grid 1 ny nx
          = [[tabulate ny (λ j, tabulate nx (λ k, [INR k; INR j]))]]) as Hgrid.
  { unfold make_grid, meshgrid, stack_last, arange.
    cbv beta iota zeta.
    rewrite (zip_with_rows_replicate (λ u v, [u; v])).
    rewrite fmap_tabulate.
    rewrite (tabulate_ext ny _ (λ j, tabulate nx (λ k, [INR k; INR j])))
      by (intros j _; apply fmap_tabulate).
    apply build5_single.
    apply (has_shape3_tabulate ny nx 2 (λ j k, [INR k; INR j])). done. }
  split; [done|]. intros j k Hj Hk. rewrite Hgrid. cbn.
  by apply (at2_tabulate ny nx (λ j k, [INR k; INR j])).
Qed.

(** ** What the constructors need of the wrapped head *)

#[global] Instance copy_attr_needs old dst src :
  Needs (copy_attr old dst src) (is_Some (old !! src)).
Proof.
  intros self. unfold copy_attr. destruct (old !! src) as [v|]; cbn.
  - split; by eexists.
  - split; by intros [? ?].
Qed.

#[global] Instance copy_if_has_needs old dst src :
  Needs (copy_if_has old dst src) True.
Proof. intros self. unfold copy_if_has. by destruct (old !! src). Qed.

#[global] Instance copy_first_of_needs old dst a b :
  Needs (copy_first_of old dst a b) True.
Proof.
  intros self. unfold copy_first_of, copy_if_has.
  by destruct (old !! a), (old !! b).
Qed.

#[global] Instance set_attr_needs dst v : Needs (set_attr dst v) True.
Proof. intros self. by unfold set_attr. Qed.

#[global] Instance nil_needs : BodyNeeds [] [].
Proof. constructor. Qed.

#[global] Instance cons_needs stmt P body Ps :
  Needs stmt P → BodyNeeds body Ps → BodyNeeds (stmt :: body) (P :: Ps).
Proof. by constructor. Qed.

Lemma run_from_is_Some body Ps (start : option obj) :
  BodyNeeds body Ps →
  is_Some (foldl (λ self stmt, self ≫= stmt) start body)
  ↔ is_Some start ∧ Forall (λ P : Prop, P) Ps.
Proof.
  intros HB. revert start. induction HB as [|stmt P body Ps Hstmt _ IH]; intros start.
  - cbn. split; [by split|by intros [? _]].
  - cbn [foldl]. rewrite IH, Forall_cons.
    destruct start as [s|]; cbn.
    + rewrite (Hstmt s). split; [by intros [? ?]|by intros [_ [? ?]]].
    + split; [by intros [[? ?] _]|by intros [[? ?] _]].
Qed.

Lemma run_init_is_Some body Ps :
  BodyNeeds body Ps → is_Some (run_init body) ↔ Forall (λ P : Prop, P) Ps.
Proof.
  intros HB. unfold run_init. rewrite (run_from_is_Some body Ps _ HB).
  split; [by intros [_ ?]|by split].
Qed.

Lemma init_needs (c : adapter) (old : obj) (use_rvc2 : bool) :
  is_Some (init c old use_rvc2)
  ↔ Forall (λ a, is_Some (old !! a)) (required_attrs c).
Proof.
  destruct c;
    cbv [init DetectV5.init DetectV7.init DetectV6R1.init DetectV6R3.init
         DetectV6R4s.init DetectV6R4m.init DetectV8.init OBBV8.init PoseV8.init
         SegmentV8.init ClassifyV8.init DetectV2.init DetectV1.init
         v8_init_common required_attrs v8_copied app];
    (etransitivity; [apply run_init_is_Some; apply _|]);
    (split; intros H;
     repeat match type of H with
       | Forall _ (_ :: _) => apply Forall_cons in H as [? H]
       end;
     repeat (apply Forall_cons; split); try apply Forall_nil;
     (assumption || exact I)).
Qed.

(** X3.  A constructor returns exactly when the wrapped head has every
    attribute of [required_attrs]; a missing one makes it fail (an
    [AttributeError]), and the attributes read under [hasattr] are not
    needed. *)
Theorem init_requirements (c : adapter) (old : obj) (use_rvc2 : bool) :
  is_Some (init c old use_rvc2)
  ↔ ∀ a, a ∈ required_attrs c → is_Some (old !! a).
Proof. rewrite <- Forall_forall. apply init_needs. Qed.

(** ** How many tensors a call returns *)

Lemma conv_sigmoid_outputs m nl x x' outs :
  for_range (conv_sigmoid_step m) 0 nl (x, []) = Some (x', outs) → length outs = nl.
Proof.
  intros H. rewrite (for_range_ext _ _ _ _ _ (conv_sigmoid_step_level m)) in H.
  by apply for_range_level_step_inv in H as (_ & _ & ? & _).
Qed.

Lemma decoupled_outputs decode conf self nl x x' outs :
  for_range (decoupled_step decode conf self) 0 nl (x, []) = Some (x', outs) →
  length outs = nl.
Proof.
  intros H.
  rewrite (for_range_ext _ _ _ _ _ (decoupled_step_level decode conf self)) in H.
  by apply for_range_level_step_inv in H as (_ & _ & ? & _).
Qed.

Lemma cv_loop_length self nl x x' :
  for_range (cv_step self) 0 nl x = Some x' → nl ≤ length x ∧ length x' = length x.
Proof.
  intros H. rewrite (for_range_ext _ _ _ _ _ (cv_step_level self)) in H.
  by apply for_range_upd_step_inv in H as (? & ? & _).
Qed.

Lemma split_levels_mc_length mc y x i s e outs :
  SegmentV8.split_levels_mc mc y x i s e = Some outs →
  length outs = 2 * length x ∧ (0 < length x → i + length x ≤ length mc).
Proof.
  revert i s e outs. induction x as [|xi x IH]; intros i s e outs H.
  - cbn in H. injection H as <-. cbn. lia.
  - cbn [SegmentV8.split_levels_mc] in H.
    apply bind_Some in H as (mc_i & Hmc & H).
    apply bind_Some in H as (rest & Hrest & [= <-]).
    apply IH in Hrest as [Hlen Hi]. apply lookup_lt_Some in Hmc. cbn.
    split; [lia|]. intros _. destruct x; cbn in *; lia.
Qed.

(** X4.  A call that returns a list returns [output_count] tensors: [nl]
    in DetectV5, DetectV7, DetectV6R3, DetectV6R4s, DetectV6R4m and DetectV2;
    one per element of the input list in DetectV8, one more in OBBV8 and
    PoseV8, and two per element and one more in SegmentV8, whose input list
    must then have exactly [nl] elements.  DetectV6R1, DetectV1 and
    ClassifyV8 return one tensor. *)
Theorem forward_output_count c self x self' x' r :
  forward c self x = Some (self', x', r) →
  match r with
  | RList outs =>
      (c ∉ tensor_heads) ∧ length outs = output_count c self x ∧
      (c = CSegmentV8 → length x = nat_attr self "nl")
  | RTensor _ => c ∈ tensor_heads
  end.
Proof.
  intros H. unfold tensor_heads.
  destruct c; cbn in H;
    unfold DetectV5.forward, DetectV7.forward, DetectV6R1.forward,
      DetectV6R3.forward, DetectV6R4s.forward, DetectV6R4m.forward,
      DetectV8.forward, OBBV8.forward, PoseV8.forward, SegmentV8.forward,
      ClassifyV8.forward, DetectV2.forward, DetectV1.forward,
      decoupled_forward, anchor_head_forward in H;
    fwd_inv H;
    try (repeat first [by apply list_elem_of_here | apply list_elem_of_further]);
    (split; [not_in_keys|]); (split; [|try done]);
    cbn [output_count];
    rewrite ?length_app, ?length_fmap, ?length_split_levels; cbn [length];
    repeat match goal with
    | H : attr_nat _ "nl" = Some _ |- _ => apply nat_attr_Some in H
    | H : for_range (conv_sigmoid_step _) _ _ _ = Some _ |- _ =>
        apply conv_sigmoid_outputs in H
    | H : for_range (decoupled_step _ _ _) _ _ _ = Some _ |- _ =>
        apply decoupled_outputs in H
    | H : for_range (cv_step _) _ _ _ = Some _ |- _ =>
        apply cv_loop_length in H as [? ?]
    | H : SegmentV8.split_levels_mc _ _ _ _ _ _ = Some _ |- _ =>
        apply split_levels_mc_length in H as [? ?]
    | H : cv4_views _ _ _ _ = Some _ |- _ => apply cv4_views_length in H
    end;
    try (intros _); lia.
Qed.

Lemma forward_output_count_witness :
  ∃ self' x' r,
    forward CPoseV8 pose_adapter one_level = Some (self', x', r) ∧
    match r with
    | RList outs =>
        (CPoseV8 ∉ tensor_heads) ∧
        length outs = output_count CPoseV8 pose_adapter one_level ∧
        (CPoseV8 = CSegmentV8 → length one_level = nat_attr pose_adapter "nl")
    | RTensor _ => CPoseV8 ∈ tensor_heads
    end.
Proof.
  destruct (forward CPoseV8 pose_adapter one_level) as [[[self' x'] r]|] eqn:E.
  - exists self', x', r. split; [reflexivity|].
    apply (forward_output_count CPoseV8 pose_adapter one_level self' x' r).
    exact E.
  - pose proof pose_example_shape as H. rewrite E in H. discriminate H.
Defined.

(** ** The heads that extend DetectV8 *)

(** The detection part of a YOLOv8 head, from the values its statements
    have computed. *)
Lemma detect_v8_pipeline self x x0 nl x1 x_cat y :
  x !! 0 = Some x0 → attr_nat self "nl" = Some nl →
  for_range (cv_step self) 0 nl x = Some x1 →
  v8_x_cat self (length x0) x1 = Some x_cat → v8_y self x_cat = Some y →
  DetectV8.forward self x = Some (self, x1, RList (Ten4 <$> split_levels y x1 0 0)).
Proof.
  intros Hx0 Hnl Hloop Hcat Hy. unfold DetectV8.forward.
  rewrite Hx0. cbn [mbind option_bind]. rewrite Hnl. cbn [mbind option_bind].
  rewrite Hloop. cbn [mbind option_bind]. rewrite Hcat. cbn [mbind option_bind].
  by rewrite Hy.
Qed.

Lemma refresh_anchors_v8_y self bs x self' t :
  PoseV8.refresh_anchors self bs x = Some self' → v8_y self' t = v8_y self t.
Proof.
  unfold PoseV8.refresh_anchors. intros H.
  apply bind_Some in H as (shape & _ & H).
  destruct (match shape with VInt n => bool_decide (n ≠ bs) | _ => true end).
  - fwd_inv H. injection H as <-. by rewrite !v8_y_insert by not_in_keys.
  - by injection H as <-.
Qed.

(** X5.  OBBV8, PoseV8 and SegmentV8 return the detections of DetectV8:
    on the same instance and input (for SegmentV8 when the prototypes keep
    the batch size of [x[0]]) a call of theirs that returns a list has
    written the list that [DetectV8.forward] writes, and the tensor at
    [detection_index c i] of their output is the [i]-th tensor DetectV8
    returns. *)
Theorem extended_heads_return_detections c self x self' x' outs :
  c ∈ [COBBV8; CPoseV8; CSegmentV8] →
  batch c self x = length (x !!! 0) →
  forward c self x = Some (self', x', RList outs) →
  ∃ dets,
    DetectV8.forward self x = Some (self, x', RList dets) ∧
    length dets = length x ∧
    ∀ i, i < length dets → outs !! detection_index c i = dets !! i.
Proof.
  intros Hc Hbatch H.
  repeat (apply elem_of_cons in Hc as [->|Hc]); [..|by apply elem_of_nil in Hc];
    cbn in H; unfold OBBV8.forward, PoseV8.forward, SegmentV8.forward in H;
    fwd_inv H.
  - eexists. split; [by eapply detect_v8_pipeline|].
    rewrite length_fmap, length_split_levels.
    split; [by eapply cv_loop_length|]. intros i Hi. cbn [detection_index].
    by rewrite lookup_app_l by (by rewrite length_fmap, length_split_levels).
  - match goal with
    | Hr : PoseV8.refresh_anchors _ _ _ = Some _, Hy : v8_y _ _ = Some _ |- _ =>
        rewrite (refresh_anchors_v8_y _ _ _ _ _ Hr) in Hy
    end.
    eexists. split; [by eapply detect_v8_pipeline|].
    rewrite length_fmap, length_split_levels.
    split; [by eapply cv_loop_length|]. intros i Hi. cbn [detection_index].
    by rewrite lookup_app_l by (by rewrite length_fmap, length_split_levels).
  - match goal with
    | Hp : attr_module4 _ "proto" = Some ?p, Hx : x !! 0 = Some ?x0 |- _ =>
        assert (length (p x0) = length x0) as Hbs
          by (unfold batch in Hbatch; rewrite Hp in Hbatch; cbn in Hbatch;
              by rewrite (list_lookup_total_correct _ _ _ Hx) in Hbatch)
    end.
    rewrite Hbs in *.
    match goal with
    | Hmc : SegmentV8.split_levels_mc ?mc ?y ?x1 0 0 0 = Some ?o |- _ =>
        pose proof (split_levels_mc_length _ _ _ _ _ _ _ Hmc) as [Hlen Hle];
        destruct (split_levels_mc_lookup mc y x1 0 0) as (o' & Ho' & _ & Hodd);
          [destruct x1; cbn in *; lia|];
        rewrite Hmc in Ho'; injection Ho' as <-
    end.
    eexists. split; [by eapply detect_v8_pipeline|].
    rewrite length_fmap, length_split_levels.
    split; [by eapply cv_loop_length|]. intros i Hi. cbn [detection_index].
    rewrite lookup_app_l by (rewrite length_fmap; lia).
    by rewrite !list_lookup_fmap, Hodd.
Qed.

(** The example call of OBBV8 returns a list of two tensors. *)
Lemma obb_example_returns :
  forward COBBV8 obb_adapter one_level
    ≫= (λ s, match s.2 with RList outs => Some (length outs) | RTensor _ => None end)
  = Some 2.
Proof. reflexivity. Qed.

Lemma extended_heads_return_detections_witness :
  COBBV8 ∈ [COBBV8; CPoseV8; CSegmentV8] ∧
  batch COBBV8 obb_adapter one_level = length (one_level !!! 0) ∧
  ∃ self' x' outs,
    forward COBBV8 obb_adapter one_level = Some (self', x', RList outs) ∧
    ∃ dets,
      DetectV8.forward obb_adapter one_level = Some (obb_adapter, x', RList dets) ∧
      length dets = length one_level ∧
      ∀ i, i < length dets → outs !! detection_index COBBV8 i = dets !! i.
Proof.
  assert (COBBV8 ∈ [COBBV8; CPoseV8; CSegmentV8]) as Hc by (by left).
  split; [exact Hc|]. split; [reflexivity|].
  destruct (forward COBBV8 obb_adapter one_level) as [[[self' x'] [outs|t]]|] eqn:E.
  - exists self', x', outs. split; [reflexivity|].
    apply (extended_heads_return_detections COBBV8 obb_adapter one_level self' x' outs Hc).
    + reflexivity.
    + exact E.
  - pose proof obb_example_returns as H. rewrite E in H. discriminate H.
  - pose proof obb_example_returns as H. rewrite E in H. discriminate H.
Defined.

(** ** The cache of PoseV8 *)

Lemma refresh_anchors_shape self bs x self' :
  PoseV8.refresh_anchors self bs x = Some self' →
  getattr v8_class self' "shape" = Some (VInt bs).
Proof.
  unfold PoseV8.refresh_anchors. intros H.
  apply bind_Some in H as (shape & Hshape & H).
  destruct shape as [| |n| | | | | | | | |];
    try (fwd_inv H; injection H as <-; unfold getattr; by rewrite lookup_insert_eq).
  destruct (bool_decide (n ≠ bs)) eqn:Hn.
  - fwd_inv H. injection H as <-. unfold getattr. by rewrite lookup_insert_eq.
  - injection H as <-. apply bool_decide_eq_false in Hn.
    destruct (decide (n = bs)) as [->|Hne]; [done|]. by destruct Hn.
Qed.

Lemma pose_forward_shape self x x0 self' x' r :
  PoseV8.forward self x = Some (self', x', r) → x !! 0 = Some x0 →
  getattr v8_class self' "shape" = Some (VInt (length x0)).
Proof.
  unfold PoseV8.forward. intros H Hx0. rewrite Hx0 in H. cbn in H. fwd_inv H.
  by eapply refresh_anchors_shape.
Qed.

(** X6.  PoseV8 keys its cache on the batch size alone: after a call that
    returns, a later call whose first feature map has the same batch size
    leaves the instance, and so the cached anchors and strides, as they
    are, whatever the spatial sizes of its feature maps. *)
Theorem pose_cache_keyed_on_batch_size self x1 a self1 x1' r1 x2 b self2 x2' r2 :
  PoseV8.forward self x1 = Some (self1, x1', r1) → x1 !! 0 = Some a →
  PoseV8.forward self1 x2 = Some (self2, x2', r2) → x2 !! 0 = Some b →
  length a = length b →
  self2 = self1 ∧ getattr v8_class self2 "shape" = Some (VInt (length a)).
Proof.
  intros H1 Ha H2 Hb Hlen.
  pose proof (pose_forward_shape _ _ _ _ _ _ H1 Ha) as Hshape.
  assert (self2 = self1) as ->.
  { eapply pose_forward_cached; [exact H2|exact Hb|]. by rewrite <- Hlen. }
  done.
Qed.

(** Two calls of the example pose adapter, on a 1 x 2 and on a 2 x 1 grid,
    return. *)
Lemma pose_example_two_calls :
  (forward CPoseV8 pose_adapter one_level
     ≫= (λ s : obj * list T4 * result, forward CPoseV8 s.1.1 tall_level))
    ≫= (λ s : obj * list T4 * result, s.1.1 !! "shape")
  = Some (VInt 1).
Proof. reflexivity. Qed.

Lemma pose_cache_keyed_on_batch_size_witness :
  ∃ a self1 x1' r1 b self2 x2' r2,
    PoseV8.forward pose_adapter one_level = Some (self1, x1', r1) ∧
    one_level !! 0 = Some a ∧
    PoseV8.forward self1 tall_level = Some (self2, x2', r2) ∧
    tall_level !! 0 = Some b ∧ length a = length b ∧
    self2 = self1 ∧ getattr v8_class self2 "shape" = Some (VInt (length a)).
Proof.
  pose proof pose_example_two_calls as H. cbn [forward] in H.
  destruct (PoseV8.forward pose_adapter one_level) as [[[self1 x1'] r1]|] eqn:E1;
    [|discriminate H].
  cbn [mbind option_bind fst] in H.
  destruct (PoseV8.forward self1 tall_level) as [[[self2 x2'] r2]|] eqn:E2;
    [|discriminate H].
  eexists _, self1, x1', r1, _, self2, x2', r2.
  split; [reflexivity|]. split; [reflexivity|]. split; [exact E2|].
  split; [reflexivity|]. split; [reflexivity|].
  apply (pose_cache_keyed_on_batch_size pose_adapter one_level _ self1 x1' r1
           tall_level _ self2 x2' r2 E1 eq_refl E2 eq_refl eq_refl).
Defined.

(** ** DetectV2 and DetectV6R3 *)

(** The decoupled loop reads the instance through [decoupled_reads] only. *)
Lemma decoupled_level_agree decode self self' i xi :
  (∀ k, k ∈ decoupled_reads → self !! k = self' !! k) →
  attr_bool self' "use_rvc2" = Some true →
  decoupled_level (dfl_branch decode) conf_max self i xi
  = decoupled_level (dfl_branch decode) conf_rvc2 self' i xi.
Proof.
  intros Hk Hrvc.
  unfold decoupled_level, dfl_branch, conf_max, conf_rvc2,
    attr_modules, attr_bool, attr_nat, attr_module4 in *.
  rewrite Hrvc.
  rewrite !(Hk "stems"), !(Hk "cls_convs"), !(Hk "cls_preds"), !(Hk "reg_convs"),
    !(Hk "reg_preds"), !(Hk "use_dfl"), !(Hk "reg_max"), !(Hk "proj_conv")
    by (unfold decoupled_reads;
        repeat first [by apply list_elem_of_here | apply list_elem_of_further]).
  done.
Qed.

Lemma decoupled_forward_agree decode self self' x :
  (∀ k, k ∈ decoupled_reads → self !! k = self' !! k) →
  attr_bool self' "use_rvc2" = Some true →
  observed (decoupled_forward (dfl_branch decode) conf_max self x)
  = observed (decoupled_forward (dfl_branch decode) conf_rvc2 self' x).
Proof.
  intros Hk Hrvc. unfold decoupled_forward, attr_nat.
  rewrite (Hk "nl") by (by left).
  destruct (self' !! "nl" ≫= as_nat) as [nl|]; [|done]. cbn [mbind option_bind].
  rewrite (for_range_ext _ (decoupled_step (dfl_branch decode) conf_rvc2 self')).
  - by destruct (for_range _ _ _ _) as [[x' outs]|].
  - intros j s. rewrite !decoupled_step_level. destruct s as [xs outs].
    unfold level_step. destruct (xs !! j) as [xj|]; [|done]. cbn [mbind option_bind].
    by rewrite (decoupled_level_agree decode self self').
Qed.

(** X7.  DetectV2 is DetectV6R3 with [use_rvc2 = True]: whenever
    [DetectV2(old)] can be built, so can [DetectV6R3(old, True)], and on
    every input the two calls write the same list and return the same
    value (or both fail). *)
Theorem detect_v2_is_v6r3_with_rvc2 (old self2 : obj) :
  DetectV2.init old = Some self2 →
  ∃ self3,
    DetectV6R3.init old true = Some self3 ∧
    ∀ x, observed (DetectV2.forward self2 x) = observed (DetectV6R3.forward self3 x).
Proof.
  intros H2.
  assert (is_Some (init CDetectV6R3 old true)) as [self3 H3].
  { apply init_needs. assert (is_Some (init CDetectV2 old true)) as Hs by (by eexists).
    apply init_needs in Hs. cbv [required_attrs] in *.
    repeat match type of Hs with
      | Forall _ (_ :: _) => apply Forall_cons in Hs as [? Hs]
      end.
    repeat (apply Forall_cons; split); try apply Forall_nil; (assumption || exact I). }
  exists self3. split; [exact H3|]. intros x.
  change (init CDetectV2 old true = Some self2) in H2.
  assert (is_Some (old !! "cls_preds") ∧ is_Some (old !! "reg_preds")) as [[cp Hcp] [rp Hrp]].
  { init_body H2.
    split; (eapply run_init_reads; [exact H2|]);
      repeat first [by apply list_elem_of_here | apply list_elem_of_further]. }
  init_body H2. init_body H3.
  apply decoupled_forward_agree.
  - intros k Hk. unfold decoupled_reads in Hk.
    repeat (apply elem_of_cons in Hk as [->|Hk]); [..|by apply elem_of_nil in Hk];
      match goal with
      | |- _ !! ?a = _ =>
          rewrite (run_init_lookup _ _ _ a _ H2), (run_init_lookup _ _ _ a _ H3);
          cbv [attr_after foldl String.eqb Ascii.eqb Bool.eqb];
          rewrite ?Hcp, ?Hrp; reflexivity
      end.
  - unfold attr_bool. rewrite (run_init_lookup _ _ _ "use_rvc2" _ H3).
    reflexivity.
Qed.

Lemma detect_v2_is_v6r3_with_rvc2_witness :
  ∃ self2,
    DetectV2.init v6_p6_head = Some self2 ∧
    ∃ self3,
      DetectV6R3.init v6_p6_head true = Some self3 ∧
      ∀ x, observed (DetectV2.forward self2 x)
           = observed (DetectV6R3.forward self3 x).
Proof.
  eexists. split; [reflexivity|].
  apply (detect_v2_is_v6r3_with_rvc2 v6_p6_head). reflexivity.
Defined.

(** ** make_anchors on lists of unequal length *)

Lemma make_anchors_loop_short feats offset i strides s :
  i ≤ length feats → length feats < i + length strides →
  make_anchors_loop feats offset i strides s = None.
Proof.
  revert i s. induction strides as [|stride strides IH]; intros i s Hi Hlen.
  - cbn in Hlen. lia.
  - cbn [make_anchors_loop]. destruct s as [ap st]. unfold make_anchors_step.
    destruct (feats !! i) as [feat|] eqn:Hfeat; [|done]. cbn [mbind option_bind].
    apply lookup_lt_Some in Hfeat. apply IH; cbn in Hlen; lia.
Qed.

(** X8.  [make_anchors] fails on an empty list of feature maps and when
    there are more strides than feature maps (an [IndexError] at [feats[0]]
    or [feats[i]]).  Feature maps beyond the number of strides are not
    looked at: with at least one stride, the result is that on the first
    [len(strides)] feature maps. *)
Theorem make_anchors_unequal_lengths (feats : list T4) (strides : T1) (offset : R) :
  (feats = [] → make_anchors feats strides offset = None) ∧
  (length feats < length strides → make_anchors feats strides offset = None) ∧
  (strides ≠ [] → length strides ≤ length feats →
   make_anchors feats strides offset
   = make_anchors (take (length strides) feats) strides offset ∧
   is_Some (make_anchors feats strides offset)).
Proof.
  split; [by intros ->|]. split.
  - intros Hlen. unfold make_anchors.
    destruct (feats !! 0); [|done]. cbn [mbind option_bind].
    by rewrite make_anchors_loop_short by (cbn; lia).
  - intros Hne Hlen.
    assert (feats ≠ []) as Hfeats.
    { intros ->. destruct strides; [done|cbn in Hlen; lia]. }
    assert (take (length strides) feats ≠ []) as Htake.
    { destruct strides; [done|]. by destruct feats. }
    rewrite (make_anchors_eq feats) by done.
    rewrite (make_anchors_eq (take (length strides) feats))
      by (done || rewrite length_take; lia).
    split; [|by eexists].
    by rewrite take_take, Nat.min_id, zip_with_take_r.
Qed.

Lemma make_anchors_unequal_lengths_witness :
  make_anchors [] [8%R] 0.5 = None ∧
  length one_level < length [8; 16]%R ∧ make_anchors one_level [8; 16]%R 0.5 = None ∧
  [8%R] ≠ [] ∧ length [8%R] ≤ length (one_level ++ tall_level) ∧
  make_anchors (one_level ++ tall_level) [8%R] 0.5
  = make_anchors (take (length [8%R]) (one_level ++ tall_level)) [8%R] 0.5 ∧
  is_Some (make_anchors (one_level ++ tall_level) [8%R] 0.5).
Proof.
  destruct (make_anchors_unequal_lengths [] [8%R] 0.5) as (Hempty & _ & _).
  destruct (make_anchors_unequal_lengths one_level [8; 16]%R 0.5) as (_ & Hshort & _).
  destruct (make_anchors_unequal_lengths (one_level ++ tall_level) [8%R] 0.5)
    as (_ & _ & Hlong).
  split; [by apply Hempty|]. split; [cbn; lia|].
  split; [apply Hshort; cbn; lia|].
  split; [discriminate|]. split; [cbn; lia|].
  apply Hlong; [discriminate|cbn; lia].
Defined.

(** ** Concatenating the levels and cutting them apart *)

Lemma shaped4_dims bs c (xi : T4) :
  shaped4 bs c xi → 0 < bs → 0 < c → length xi = bs ∧ shape2d bs c xi.
Proof.
  intros [Hs _] Hbs Hc. split; [by destruct Hs|]. by eapply has_shape4_shape2d.
Qed.

(** X9.  The output loop of the YOLOv8 heads inverts the concatenation
    before it: cutting [torch.cat([xi.view(bs, no, -1) for xi in x], 2)] at
    the running offsets [start:end] and viewing every piece at its level's
    size gives the levels back, none of their cells lost or moved. *)
Theorem split_levels_inverts_cat (bs no : nat) (x : list T4) :
  x ≠ [] → Forall (shaped4 bs no) x → 0 < bs → 0 < no →
  split_levels (v8_cat bs no x) x 0 0 = x.
Proof.
  intros Hne Hx Hbs Hno. unfold v8_cat.
  rewrite (x_cat_tabulate bs no x) by done.
  set (y := tabulate bs (λ n, tabulate no (level_rows x n))).
  assert (has_shape3 bs no (sum_list_with cells x) y) as Hy.
  { apply has_shape3_tabulate. intros n k Hn Hk. by apply (length_level_rows bs no). }
  apply list_eq. intros i.
  destruct (x !! i) as [xi|] eqn:Hxi.
  - rewrite (split_levels_lookup y x 0 i xi Hxi). f_equal. cbn [Nat.add].
    assert (shaped4 bs no xi) as Hxi_shape.
    { rewrite Forall_lookup in Hx. by eapply Hx. }
    rewrite (level_view_eq bs no no (sum_list_with cells x));
      [|done..|by apply level_offset_le].
    unfold y. rewrite map_rows_tabulate.
    destruct (shaped4_dims bs no xi Hxi_shape Hbs Hno) as [_ Hshape].
    etransitivity; [|symmetry; by apply (tabulate_at2 bs no xi)].
    apply tabulate_ext. intros n Hn. apply tabulate_ext. intros k Hk.
    cbn [compose]. by apply (level_rows_slice bs no).
  - apply lookup_ge_None in Hxi. apply lookup_ge_None.
    by rewrite length_split_levels.
Qed.

Lemma split_levels_inverts_cat_witness :
  one_level ++ tall_level ≠ [] ∧ Forall (shaped4 1 1) (one_level ++ tall_level) ∧
  0 < 1 ∧ 0 < 1 ∧
  split_levels (v8_cat 1 1 (one_level ++ tall_level)) (one_level ++ tall_level) 0 0
  = one_level ++ tall_level.
Proof.
  assert (Forall (shaped4 1 1) (one_level ++ tall_level)) as Hx.
  { repeat constructor. }
  split; [discriminate|]. split; [exact Hx|]. split; [lia|]. split; [lia|].
  apply (split_levels_inverts_cat 1 1 (one_level ++ tall_level));
    [discriminate|exact Hx|lia|lia].
Defined.

(** ** The confidence and the largest logit *)

Lemma logistic_mono a b :
  (a <= b)%R → (1 / (1 + exp (- a)) <= 1 / (1 + exp (- b)))%R.
Proof.
  intros Hab. unfold Rdiv. rewrite !Rmult_1_l.
  pose proof (exp_pos (- a)). pose proof (exp_pos (- b)).
  apply Rinv_le_contravar; [lra|].
  destruct (Rle_lt_or_eq _ _ Hab) as [Hlt| ->]; [|lra].
  pose proof (exp_increasing (- b) (- a) ltac:(lra)). lra.
Qed.

Lemma sigmoid_mono a b : (a <= b)%R → (sigmoid a <= sigmoid b)%R.
Proof.
  intros Hab. pose proof (logistic_range a). pose proof (logistic_range b).
  pose proof (logistic_mono a b Hab). unfold sigmoid.
  destruct (Rle_dec 100 a), (Rle_dec 100 b), (Rle_dec a (-104)), (Rle_dec b (-104)); lra.
Qed.

Lemma sigmoid_Rmax a b : sigmoid (Rmax a b) = Rmax (sigmoid a) (sigmoid b).
Proof.
  destruct (Rle_dec a b) as [Hab|Hab].
  - rewrite !Rmax_right; [done|by apply sigmoid_mono|done].
  - rewrite !Rmax_left; [done|apply sigmoid_mono; lra|lra].
Qed.

Lemma fmap_zip_with_commute {A} (g : A → A) (f : A → A → A) (u v : list A) :
  (∀ a b, g (f a b) = f (g a) (g b)) →
  g <$> zip_with f u v = zip_with f (g <$> u) (g <$> v).
Proof.
  intros Hg. revert v. induction u as [|a u IH]; intros [|b v]; try done.
  cbn. by rewrite Hg, IH.
Qed.

Lemma sigmoid_max_rows (u v : T1) :
  sigmoid <$> zip_with Rmax u v = zip_with Rmax (sigmoid <$> u) (sigmoid <$> v).
Proof. apply fmap_zip_with_commute, sigmoid_Rmax. Qed.

Lemma sigmoid_max_maps (u v : T2) :
  map2 sigmoid (zip_with (zip_with Rmax) u v)
  = zip_with (zip_with Rmax) (map2 sigmoid u) (map2 sigmoid v).
Proof.
  unfold map2.
  apply (fmap_zip_with_commute (λ r : T1, sigmoid <$> r) (zip_with Rmax)).
  apply sigmoid_max_rows.
Qed.

(** X10.  With [use_rvc2] the confidence is the sigmoid of the largest
    class logit: the maximum that the heads take over the scores, after the
    sigmoid, is the sigmoid of the maximum over the logits (for the rank-4
    scores of the YOLOv6 heads and the rank-3 scores of the YOLOv8 heads,
    with at least one class). *)
Theorem confidence_is_sigmoid_of_max_logit (t4 : T4) (t3 : T3) :
  Forall (λ tb, tb ≠ []) t4 → Forall (λ tb, tb ≠ []) t3 →
  confidence4 true (map4 sigmoid t4) = map4 sigmoid (max_dim1_4 t4) ∧
  confidence3 true (map3 sigmoid t3) = map3 sigmoid (max_dim1_3 t3).
Proof.
  intros H4 H3. split.
  - unfold confidence4, max_dim1_4, map4. rewrite <- !list_fmap_compose.
    apply Forall_fmap_ext. eapply Forall_impl; [exact H4|]. intros tb Htb.
    cbn [compose]. unfold map3 at 2. cbn [fmap list_fmap]. f_equal. symmetry.
    apply (reduce_commute (map2 sigmoid)); [|done]. apply sigmoid_max_maps.
  - unfold confidence3, max_dim1_3, map3. rewrite <- !list_fmap_compose.
    apply Forall_fmap_ext. eapply Forall_impl; [exact H3|]. intros tb Htb.
    cbn [compose]. unfold map2 at 2. cbn [fmap list_fmap]. f_equal. symmetry.
    apply (reduce_commute (λ r : T1, sigmoid <$> r)); [|done].
    apply sigmoid_max_rows.
Qed.

Lemma confidence_is_sigmoid_of_max_logit_witness :
  Forall (λ tb, tb ≠ []) logits4_example ∧ Forall (λ tb, tb ≠ []) logits3_example ∧
  confidence4 true (map4 sigmoid logits4_example)
  = map4 sigmoid (max_dim1_4 logits4_example) ∧
  confidence3 true (map3 sigmoid logits3_example)
  = map3 sigmoid (max_dim1_3 logits3_example).
Proof.
  assert (Forall (λ tb : T3, tb ≠ []) logits4_example) as H4 by (by repeat constructor).
  assert (Forall (λ tb : T2, tb ≠ []) logits3_example) as H3 by (by repeat constructor).
  split; [exact H4|]. split; [exact H3|].
  apply (confidence_is_sigmoid_of_max_logit logits4_example logits3_example H4 H3).
Defined.

(** ** make_anchors looks at the sizes only *)

Lemma make_anchors_step_sizes feats feats' offset i stride s :
  Forall2 same_size feats feats' →
  make_anchors_step feats offset i stride s
  = make_anchors_step feats' offset i stride s.
Proof.
  intros Hf. unfold make_anchors_step. destruct s as [ap st].
  destruct (feats !! i) as [f|] eqn:Hfi.
  - destruct (Forall2_lookup_l _ _ _ _ _ Hf Hfi) as (g & -> & [H2 H3]).
    cbn [mbind option_bind]. unfold level_anchor_points, level_stride_rows.
    by rewrite H2, H3.
  - assert (feats' !! i = None) as ->; [|done].
    apply lookup_ge_None. apply lookup_ge_None in Hfi.
    by rewrite <- (Forall2_length _ _ _ Hf).
Qed.

Lemma make_anchors_loop_sizes feats feats' offset i strides s :
  Forall2 same_size feats feats' →
  make_anchors_loop feats offset i strides s
  = make_anchors_loop feats' offset i strides s.
Proof.
  intros Hf. revert i s. induction strides as [|stride strides IH]; intros i s; [done|].
  cbn [make_anchors_loop]. rewrite (make_anchors_step_sizes feats feats') by done.
  destruct (make_anchors_step feats' offset i stride s) as [s'|]; [|done].
  cbn [mbind option_bind]. apply IH.
Qed.

(** X11.  [make_anchors] looks at the spatial sizes of the feature maps
    only: two lists whose maps have, level by level, the same height and
    width give the same anchor points and strides (or fail alike),
    whatever their values, batch sizes and channel counts. *)
Theorem make_anchors_depends_on_sizes (feats feats' : list T4) (strides : T1)
    (offset : R) :
  Forall2 same_size feats feats' →
  make_anchors feats strides offset = make_anchors feats' strides offset.
Proof.
  intros Hf. unfold make_anchors.
  rewrite (make_anchors_loop_sizes feats feats') by done.
  destruct Hf as [|f g feats feats' _ _]; done.
Qed.

Lemma make_anchors_depends_on_sizes_witness :
  Forall2 same_size one_level other_level ∧
  make_anchors one_level [8%R] 0.5 = make_anchors other_level [8%R] 0.5.
Proof.
  assert (Forall2 same_size one_level other_level) as Hf by (by repeat constructor).
  split; [exact Hf|].
  apply (make_anchors_depends_on_sizes one_level other_level [8%R] 0.5 Hf).
Defined.

(** ** DetectV6R4s and the distribution decoding *)

Lemma no_decode_level_insert self k v i xi :
  k ∈ dfl_attrs →
  decoupled_level no_decode conf_rvc2 (<[k := v]> self) i xi
  = decoupled_level no_decode conf_rvc2 self i xi.
Proof.
  intros Hk. unfold decoupled_level, no_decode, conf_rvc2, attr_modules, attr_bool.
  unfold dfl_attrs in Hk.
  repeat (apply elem_of_cons in Hk as [->|Hk]); [..|by apply elem_of_nil in Hk];
    by rewrite !lookup_insert_ne by done.
Qed.

(** X12.  DetectV6R4s never decodes a distribution: its constructor
    copies [use_dfl], [reg_max] and [proj_conv] when the head has them,
    but [forward] does not read them, so whatever they hold the call writes
    the same list and returns the same value. *)
Theorem detect_v6r4s_ignores_dfl (self : obj) (x : list T4) (k : string) (v : value) :
  k ∈ dfl_attrs →
  observed (DetectV6R4s.forward (<[k := v]> self) x)
  = observed (DetectV6R4s.forward self x).
Proof.
  intros Hk. unfold DetectV6R4s.forward, decoupled_forward, attr_nat.
  assert (k ≠ "nl") as Hnl.
  { unfold dfl_attrs in Hk. intros ->.
    repeat (apply elem_of_cons in Hk as [Hk|Hk]; [discriminate Hk|]).
    by apply elem_of_nil in Hk. }
  rewrite lookup_insert_ne by done.
  destruct (self !! "nl" ≫= as_nat) as [nl|]; [|done]. cbn [mbind option_bind].
  rewrite (for_range_ext _ (decoupled_step no_decode conf_rvc2 self)).
  - by destruct (for_range _ _ _ _) as [[x' outs]|].
  - intros j s. rewrite !decoupled_step_level. destruct s as [xs outs].
    unfold level_step. destruct (xs !! j) as [xj|]; [|done]. cbn [mbind option_bind].
    by rewrite no_decode_level_insert.
Qed.

Lemma detect_v6r4s_ignores_dfl_witness :
  "use_dfl" ∈ dfl_attrs ∧
  observed (DetectV6R4s.forward (<["use_dfl" := VBool true]> v6_adapter) one_level)
  = observed (DetectV6R4s.forward v6_adapter one_level).
Proof.
  assert ("use_dfl" ∈ dfl_attrs) as Hk by (by left).
  split; [exact Hk|].
  apply (detect_v6r4s_ignores_dfl v6_adapter one_level "use_dfl" (VBool true) Hk).
Defined.

(** ** The keypoints in the output of PoseV8 *)

Lemma Forall_cell_centers offset h w :
  Forall (λ p : T1, length p = 2) (cell_centers offset h w).
Proof.
  unfold cell_centers. apply Forall_concat, Forall_fmap, Forall_forall.
  intros r _. cbn. apply Forall_fmap, Forall_forall. by intros c _.
Qed.

(** The anchor points of the levels after the convolution loop are the cell
    centres of the grids of the class logits. *)
Lemma anchor_points_levels (x' grids : list T4) :
  Forall2 (λ t g : T4, len2 t = len2 g ∧ len3 t = len3 g) x' grids →
  concat (level_anchor_points 0.5 <$> x')
  = concat ((λ t : T4, cell_centers 0.5 (len2 t) (len3 t)) <$> grids).
Proof.
  induction 1 as [|t g x' grids [E2 E3] _ IH]; [done|].
  cbn [fmap list_fmap concat]. by rewrite IH, level_anchor_points_eq, E2, E3.
Qed.

Lemma length_anchor_points (grids : list T4) :
  length (concat ((λ t : T4, cell_centers 0.5 (len2 t) (len3 t)) <$> grids))
  = sum_list_with cells grids.
Proof.
  induction grids as [|g grids IH]; [done|].
  cbn [fmap list_fmap concat sum_list_with].
  by rewrite length_app, IH, length_cell_centers.
Qed.

Lemma transpose_anchor_points (grids : list T4) :
  0 < sum_list_with cells grids →
  transpose (concat ((λ t : T4, cell_centers 0.5 (len2 t) (len3 t)) <$> grids))
  = anchor_rows grids.
Proof.
  intros Hpos. rewrite (transpose_columns 2); [done| |].
  - intros Hnil. pose proof (length_anchor_points grids) as Hlen.
    rewrite Hnil in Hlen. cbn in Hlen. lia.
  - apply Forall_concat, Forall_fmap, Forall_forall. intros g _. cbn.
    apply Forall_cell_centers.
Qed.

Lemma has_shape2_anchor_rows (grids : list T4) :
  has_shape2 2 (sum_list_with cells grids) (anchor_rows grids).
Proof.
  unfold anchor_rows. cbv zeta. split; [done|].
  repeat constructor; unfold has_shape1; by rewrite length_fmap, length_anchor_points.
Qed.

(** The stride rows, transposed, are one row of strides. *)
Lemma stride_rows_levels (stride : T1) (x' grids : list T4) :
  Forall2 (λ t g : T4, len2 t = len2 g ∧ len3 t = len3 g) x' grids →
  (λ p : T1, p !!! 0) <$> concat (zip_with level_stride_rows stride x')
  = concat (zip_with (λ s (t : T4), replicate (cells t) s) stride grids).
Proof.
  intros Hx. revert stride. induction Hx as [|t g x' grids [E2 E3] _ IH];
    intros [|s stride]; try done.
  cbn [zip_with concat]. rewrite fmap_app, IH. f_equal.
  unfold level_stride_rows, full_col, cells. rewrite E2, E3.
  by rewrite fmap_replicate.
Qed.

Lemma length_stride_rows (stride : T1) (x' : list T4) :
  length stride = length x' →
  length (concat (zip_with level_stride_rows stride x')) = sum_list_with cells x'.
Proof.
  revert x'. induction stride as [|s stride IH]; intros [|t x'] Hlen; try done.
  cbn [zip_with concat sum_list_with]. rewrite length_app, IH by (cbn in Hlen; lia).
  unfold level_stride_rows, full_col, cells. by rewrite length_replicate.
Qed.

Lemma transpose_stride_rows (stride : T1) (x' grids : list T4) :
  Forall2 (λ t g : T4, len2 t = len2 g ∧ len3 t = len3 g) x' grids →
  length stride = length x' → 0 < sum_list_with cells x' →
  transpose (concat (zip_with level_stride_rows stride x')) = stride_row stride grids.
Proof.
  intros Hx Hlen Hpos. rewrite (transpose_columns 1).
  - unfold stride_row. cbn. by rewrite (stride_rows_levels stride x' grids).
  - intros Hnil. pose proof (length_stride_rows stride x' Hlen) as Hl.
    rewrite Hnil in Hl. cbn in Hl. lia.
  - apply Forall_concat. clear. revert x'.
    induction stride as [|s stride IH]; intros [|t x']; try constructor.
    + unfold level_stride_rows, full_col. by apply Forall_replicate.
    + apply IH.
Qed.

Lemma has_shape2_stride_row (stride : T1) (grids : list T4) :
  length stride = length grids →
  has_shape2 1 (sum_list_with cells grids) (stride_row stride grids).
Proof.
  intros Hlen. split; [done|]. repeat constructor. unfold has_shape1.
  revert grids Hlen. induction stride as [|s stride IH]; intros [|g grids] Hlen;
    try done.
  cbn. rewrite length_app, length_replicate, IH by (cbn in Hlen; lia). done.
Qed.

(** The levels of a well-shaped call of PoseV8 after the convolution loop,
    the class logits and the keypoint maps have the same grids. *)
Lemma pose_grids self x :
  v8_well_shaped CPoseV8 self x →
  let x' := v8_levels (modules_attr self "cv2") (modules_attr self "cv3") x in
  let grids := branch (modules_attr self "cv3") x in
  let maps := branch (modules_attr self "cv4") x in
  Forall2 (λ t g : T4, len2 t = len2 g ∧ len3 t = len3 g) x' grids ∧
  cells <$> maps = cells <$> grids ∧
  cells <$> x' = cells <$> grids ∧
  0 < sum_list_with cells grids.
Proof.
  intros (_ & Hno & _ & _ & _ & _ & _ & Hx & Hpos & Hno_eq & Hbs & Hnc & Hshape & _ & Hex).
  destruct Hex as (_ & _ & (nkpt & ndim & _ & Hnk & Hnkpt & Hndim) & _ & Hgrid).
  apply is_Some_nat_attr in Hno. cbv zeta.
  assert (0 < nat_attr self "nk") as Hnk_pos by (rewrite Hnk; destruct Hndim; subst; lia).
  pose proof (v8_level_dims self x _ _ _ _ _ _ _ Hno Hx Hpos Hno_eq Hbs Hnc Hshape) as Hdims.
  split; [|split; [|split]].
  - apply Forall2_same_length_lookup. split.
    { unfold v8_levels. by rewrite length_imap, length_branch. }
    intros i t g Ht Hg.
    destruct (lookup_lt_is_Some_2 x i) as [xi Hxi].
    { apply lookup_lt_Some in Hg. by rewrite length_branch in Hg. }
    rewrite (branch_lookup _ x i xi Hxi) in Hg. injection Hg as <-.
    unfold v8_levels in Ht. rewrite list_lookup_imap, Hxi in Ht. injection Ht as <-.
    by destruct (Hdims i xi Hxi) as (? & ? & _).
  - apply list_eq. intros i. rewrite !list_lookup_fmap.
    destruct (x !! i) as [xi|] eqn:Hxi.
    + pose proof (branch_lookup (modules_attr self "cv4") x i xi Hxi) as H4.
      pose proof (branch_lookup (modules_attr self "cv3") x i xi Hxi) as H3.
      pose proof (Forall2_lookup_lr _ _ _ i _ _ Hgrid H4 H3) as Hsh. cbv beta in Hsh.
      rewrite H4, H3. cbn. f_equal.
      destruct (Hshape i xi Hxi) as (h & w & Hh & Hw & _ & Hs3).
      destruct (has_shape4_dims _ _ _ _ _ Hs3) as (_ & _ & E2 & E3); [done..|].
      rewrite E2, E3 in Hsh.
      destruct (has_shape4_dims _ _ _ _ _ Hsh) as (_ & _ & F2 & F3); [done..|].
      unfold cells. by rewrite E2, E3, F2, F3.
    + apply lookup_ge_None in Hxi.
      rewrite !(proj2 (lookup_ge_None _ _)); [done|by rewrite length_branch..].
  - by apply (v8_levels_cells self x (nat_attr self "nl") (nat_attr self "no")
                (nat_attr self "reg_max") (nat_attr self "nc") (batch CPoseV8 self x)).
  - destruct (lookup_lt_is_Some_2 x 0) as [x0 Hx0]; [lia|].
    pose proof (branch_lookup (modules_attr self "cv3") x 0 x0 Hx0) as H3.
    destruct (Hshape 0 x0 Hx0) as (h & w & Hh & Hw & _ & Hs3).
    destruct (has_shape4_dims _ _ _ _ _ Hs3) as (_ & _ & E2 & E3); [done..|].
    destruct (branch (modules_attr self "cv3") x) as [|g grids]; [done|].
    injection H3 as ->. cbn. unfold cells at 1. rewrite E2, E3. nia.
Qed.

(** What a first call of PoseV8 returns and caches. *)
Lemma pose_forward_keypoints old use_rvc2 self x :
  init CPoseV8 old use_rvc2 = Some self → well_shaped CPoseV8 self x →
  let bs := batch CPoseV8 self x in
  let grids := branch (modules_attr self "cv3") x in
  let raw := cells_of_levels bs (nat_attr self "nk") (branch (modules_attr self "cv4") x) in
  ∃ self' x' dets nkpt ndim stride,
    attr_ints self "kpt_shape" = Some [nkpt; ndim] ∧
    attr_T1 self "stride" = Some stride ∧
    PoseV8.forward self x
    = Some (self', x',
            RList (dets ++ [Ten3 (decoded_keypoints (anchor_rows grids)
                                    (stride_row stride grids) nkpt ndim raw)])) ∧
    length dets = nat_attr self "nl" ∧
    self' !! "anchors" = Some (VTensor (Ten2 (anchor_rows grids))) ∧
    self' !! "strides" = Some (VTensor (Ten2 (stride_row stride grids))) ∧
    has_shape3 bs (nat_attr self "nk") (sum_list_with cells grids) raw.
Proof.
  intros Hinit Hwell bs grids raw. subst bs grids raw.
  destruct (init_use_rvc2 CPoseV8 old use_rvc2 self) as [Hrvc Hshape];
    [repeat first [by left | right]|done|].
  change (v8_well_shaped CPoseV8 self x) in Hwell.
  destruct (pose_v8_forward self x use_rvc2 Hrvc Hshape Hwell)
    as (dets & pk & stride & Hstride & Hf & Hlen & Hpk & _).
  destruct (pose_grids self x Hwell) as (Hdims & Hc4 & Hcx & Hpos).
  destruct (pose_keypoint_maps self x Hwell) as [Hmaps Hnk_pos].
  pose proof Hwell as (_ & _ & _ & _ & _ & _ & _ & Hx & _ & _ & Hbs & _ & _ & _ & Hex).
  destruct Hex as (Hnk & _ & (nkpt & ndim & Hkpt & Hnk_eq & Hnkpt & Hndim)
                   & (stride' & Hstride' & Hslen) & _).
  rewrite Hstride in Hstride'. injection Hstride' as <-.
  apply is_Some_nat_attr in Hnk.
  set (x' := v8_levels (modules_attr self "cv2") (modules_attr self "cv3") x) in *.
  set (bs := batch CPoseV8 self x) in *.
  set (grids := branch (modules_attr self "cv3") x) in *.
  set (raw := cells_of_levels bs _ _) in *.
  assert (length x' = length x) as Hlx by (unfold x', v8_levels; by rewrite length_imap).
  rewrite (anchor_points_levels x' grids Hdims) in Hf, Hpk.
  rewrite (transpose_anchor_points grids Hpos) in Hf, Hpk.
  assert (length stride = length x') as Hls by lia.
  assert (0 < sum_list_with cells x') as Hpos'
    by (by rewrite (sum_list_with_fmap_eq _ _ _ _ Hcx)).
  rewrite (transpose_stride_rows stride x' grids Hdims Hls Hpos') in Hf, Hpk.
  assert (has_shape3 bs (nat_attr self "nk") (sum_list_with cells grids) raw) as Hraw.
  { rewrite <- (sum_list_with_fmap_eq _ _ _ _ Hc4).
    by apply has_shape3_cells_of_levels. }
  set (self' := <["shape" := _]> _) in *.
  assert (∀ k, k ∉ ["shape"; "strides"; "anchors"] → self' !! k = self !! k) as Hk.
  { intros k Hk. unfold self'. rewrite !lookup_insert_ne; [done|..];
      intros <-; apply Hk; repeat first [by left | right]; by left. }
  assert (self' !! "anchors" = Some (VTensor (Ten2 (anchor_rows grids)))) as Ha.
  { unfold self'. rewrite (lookup_insert_ne _ "shape" "anchors") by done.
    rewrite (lookup_insert_ne _ "strides" "anchors") by done.
    by rewrite lookup_insert_eq. }
  assert (self' !! "strides" = Some (VTensor (Ten2 (stride_row stride grids)))) as Hs.
  { unfold self'. rewrite (lookup_insert_ne _ "shape" "strides") by done.
    by rewrite lookup_insert_eq. }
  destruct (kpts_decode_eq self' bs raw nkpt ndim (nat_attr self "nk")
              (sum_list_with cells grids) (anchor_rows grids) (stride_row stride grids))
    as [Hdec _]; try done.
  - unfold attr_ints. rewrite (Hk "kpt_shape") by not_in_keys. exact Hkpt.
  - unfold attr_nat. rewrite (Hk "nk") by not_in_keys. exact Hnk.
  - unfold getattr. by rewrite Ha.
  - unfold getattr. by rewrite Hs.
  - apply has_shape2_anchor_rows.
  - apply has_shape2_stride_row. unfold grids. rewrite length_branch. lia.
  - rewrite Hdec in Hpk. injection Hpk as <-.
    by exists self', x', dets, nkpt, ndim, stride.
Qed.

(** C6.  [PoseV8.kpts_decode] views the [(bs, nk, A)] keypoints as
    [(bs, kpt_shape[0], kpt_shape[1], A)], maps the [x] and [y] channel of
    every keypoint to [(raw * 2.0 + (anchor - 0.5)) * stride] with the cached
    anchors and strides, puts the third channel through sigmoid when
    [kpt_shape[1]] is 3 (there is none when it is 2) and returns the result
    as [(bs, nk, A)].  A well-shaped call of [PoseV8.forward] on a new
    instance, when it returns, returns the detection outputs of the levels
    followed, as the last element, by the decoding of the raw keypoints —
    the cells of [cv4[i](x[i])], level after level — with the anchors and
    strides the call has cached: the centres of the cells of the levels and
    the stride of each cell's level. *)
Theorem pose_keypoints_decoded (self : obj) (bs : nat) (kpts : T3)
    (nkpt ndim nk a : nat) (anchors strides : T2)
    (old self0 self' : obj) (use_rvc2 : bool) (x x' : list T4) (outs : list tensor) :
  attr_ints self "kpt_shape" = Some [nkpt; ndim] →
  attr_nat self "nk" = Some nk → nk = nkpt * ndim →
  getattr v8_class self "anchors" = Some (VTensor (Ten2 anchors)) →
  getattr v8_class self "strides" = Some (VTensor (Ten2 strides)) →
  has_shape2 2 a anchors → has_shape2 1 a strides →
  has_shape3 bs nk a kpts → 0 < bs → 0 < nkpt → ndim = 2 ∨ ndim = 3 →
  init CPoseV8 old use_rvc2 = Some self0 → well_shaped CPoseV8 self0 x →
  PoseV8.forward self0 x = Some (self', x', RList outs) →
  (PoseV8.kpts_decode self bs kpts
   = Some (decoded_keypoints anchors strides nkpt ndim kpts) ∧
   has_shape3 bs nk a (decoded_keypoints anchors strides nkpt ndim kpts) ∧
   (ndim = 2 → ∀ r0 r1 : T1,
      keypoint_rows anchors strides [r0; r1]
      = [zip_with (λ v s, v * s)%R
           (zip_with (λ raw an, raw * 2 + (an - 0.5))%R r0 (anchors !!! 0)) (strides !!! 0);
         zip_with (λ v s, v * s)%R
           (zip_with (λ raw an, raw * 2 + (an - 0.5))%R r1 (anchors !!! 1)) (strides !!! 0)]) ∧
   (ndim = 3 → ∀ r0 r1 r2 : T1,
      keypoint_rows anchors strides [r0; r1; r2]
      = [zip_with (λ v s, v * s)%R
           (zip_with (λ raw an, raw * 2 + (an - 0.5))%R r0 (anchors !!! 0)) (strides !!! 0);
         zip_with (λ v s, v * s)%R
           (zip_with (λ raw an, raw * 2 + (an - 0.5))%R r1 (anchors !!! 1)) (strides !!! 0);
         sigmoid <$> r2])) ∧
  (let bs0 := batch CPoseV8 self0 x in
   let grids := branch (modules_attr self0 "cv3") x in
   let raw := cells_of_levels bs0 (nat_attr self0 "nk")
                (branch (modules_attr self0 "cv4") x) in
   ∃ dets nkpt0 ndim0 stride,
     attr_ints self0 "kpt_shape" = Some [nkpt0; ndim0] ∧
     attr_T1 self0 "stride" = Some stride ∧
     self' !! "anchors" = Some (VTensor (Ten2 (anchor_rows grids))) ∧
     self' !! "strides" = Some (VTensor (Ten2 (stride_row stride grids))) ∧
     has_shape3 bs0 (nat_attr self0 "nk") (sum_list_with cells grids) raw ∧
     length dets = nat_attr self0 "nl" ∧
     outs = dets ++ [Ten3 (decoded_keypoints (anchor_rows grids)
                             (stride_row stride grids) nkpt0 ndim0 raw)]).
Proof.
  intros Hks Hnk Hnk_eq Hanc Hstr Ha Hs Hk Hbs Hnkpt Hndim Hinit Hwell Hfwd. split.
  - destruct (kpts_decode_eq self bs kpts nkpt ndim nk a anchors strides) as [Hd Hsh];
      try done.
  - cbv zeta.
    destruct (pose_forward_keypoints old use_rvc2 self0 x Hinit Hwell)
      as (self1 & x1 & dets & nkpt0 & ndim0 & stride & Hkpt & Hstride & Hf & Hlen
          & Hanchors & Hstrides & Hraw).
    rewrite Hf in Hfwd. injection Hfwd as <- <- <-.
    by exists dets, nkpt0, ndim0, stride.
Qed.

(** ** The detection layout of the heads with [use_rvc2] *)











(** ** The examples are well-shaped calls *)


(** What the two-level head returns for its first level: four box channels,
    the confidence and the two class scores of the two cells. *)
Lemma detect2_example_output :
  forward CDetectV8 detect2_adapter two_levels ≫= (λ s,
    match s.2 with RList outs => outs !! 0 | RTensor _ => None end)
  = Some (Ten4 [ [ [[0; 1]]; [[0; 1]]; [[0; 1]]; [[0; 1]];
                   [[Rmax (sigmoid 0) (sigmoid (1 - 0));
                     Rmax (sigmoid 1) (sigmoid (1 - 1))]];
                   [[sigmoid 0; sigmoid 1]];
                   [[sigmoid (1 - 0); sigmoid (1 - 1)]] ] ]%R).
Proof. reflexivity. Qed.



(** The head with distribution decoding on [one_level]: eight channels of
    bin logits on the 1 x 2 grid of the input. *)
Lemma dfl_example_well_shaped : well_shaped CDetectV6R3 dfl_adapter one_level.
Proof.
  cbv [well_shaped is_v8 decoupled_well_shaped decode_ready].
  repeat match goal with |- _ ∧ _ => split end;
    try (vm_compute; by eexists); try (vm_compute; lia); try done.
  - intros _. split; [vm_compute; by eexists|].
    exists proj_conv_01, (dot [0; 1]%R). by split.
  - intros i Hi. assert (i = 0) as -> by (vm_compute in Hi; lia).
    exists 1, 8, 1, 2. (split; [lia|]). (split; [lia|]). (split; [lia|]).
    split; [shape_of_example|]. split; [shape_of_example|]. intros _.
    by vm_compute.
Qed.


Ltac v8_example_well_shaped :=
  cbv [well_shaped is_v8 v8_well_shaped extras_ready];
  repeat match goal with |- _ ∧ _ => split end;
  try (vm_compute; by eexists); try (vm_compute; by eexists _, _);
  try (vm_compute; lia);
  try solve [ intros [|i] xi Hxi; [|discriminate Hxi]; injection Hxi as <-;
              exists 1, 2; (split; [lia|]); (split; [lia|]); split; shape_of_example ];
  try solve [ eexists; shape_of_example ].




Lemma pose_example_well_shaped : well_shaped CPoseV8 pose_adapter one_level.
Proof.
  v8_example_well_shaped.
  - exists 1, 3. vm_compute. repeat split; lia.
  - shape_of_example.
Qed.

(** The keypoints the pose adapter returns on [one_level]: the raw values 0
    and 1 of the two cells, decoded with the anchors [(0.5, 0.5)] and
    [(1.5, 0.5)] and the stride 8. *)
Lemma pose_example_keypoints :
  forward CPoseV8 pose_adapter one_level ≫= (λ s,
    match s.2 with RList outs => last outs | RTensor _ => None end)
  = Some (Ten3 [ [ [(0 * 2 + (0 + 0.5 - 0.5)) * 8; (1 * 2 + (1 + 0.5 - 0.5)) * 8];
                   [(0 * 2 + (0 + 0.5 - 0.5)) * 8; (1 * 2 + (0 + 0.5 - 0.5)) * 8];
                   [sigmoid 0; sigmoid 1] ] ]%R).
Proof. reflexivity. Qed.

Lemma pose_keypoints_decoded_witness :
  let anchors := cell_anchors in
  let strides := cell_strides in
  attr_ints pose_cached "kpt_shape" = Some [1; 3] ∧
  attr_nat pose_cached "nk" = Some 3 ∧ 3 = 1 * 3 ∧
  getattr v8_class pose_cached "anchors" = Some (VTensor (Ten2 anchors)) ∧
  getattr v8_class pose_cached "strides" = Some (VTensor (Ten2 strides)) ∧
  has_shape2 2 2 anchors ∧ has_shape2 1 2 strides ∧
  has_shape3 1 3 2 kpts_example ∧ 0 < 1 ∧ 0 < 1 ∧ (3 = 2 ∨ 3 = 3) ∧
  init CPoseV8 pose_head false = Some pose_adapter ∧
  well_shaped CPoseV8 pose_adapter one_level ∧
  ∃ x' outs,
  PoseV8.forward pose_adapter one_level = Some (pose_cached, x', RList outs) ∧
  (PoseV8.kpts_decode pose_cached 1 kpts_example
   = Some (decoded_keypoints anchors strides 1 3 kpts_example) ∧
   has_shape3 1 3 2 (decoded_keypoints anchors strides 1 3 kpts_example) ∧
   (3 = 2 → ∀ r0 r1 : T1,
      keypoint_rows anchors strides [r0; r1]
      = [zip_with (λ v s, v * s)%R
           (zip_with (λ raw an, raw * 2 + (an - 0.5))%R r0 (anchors !!! 0)) (strides !!! 0);
         zip_with (λ v s, v * s)%R
           (zip_with (λ raw an, raw * 2 + (an - 0.5))%R r1 (anchors !!! 1)) (strides !!! 0)]) ∧
   (3 = 3 → ∀ r0 r1 r2 : T1,
      keypoint_rows anchors strides [r0; r1; r2]
      = [zip_with (λ v s, v * s)%R
           (zip_with (λ raw an, raw * 2 + (an - 0.5))%R r0 (anchors !!! 0)) (strides !!! 0);
         zip_with (λ v s, v * s)%R
           (zip_with (λ raw an, raw * 2 + (an - 0.5))%R r1 (anchors !!! 1)) (strides !!! 0);
         sigmoid <$> r2])) ∧
  (let bs0 := batch CPoseV8 pose_adapter one_level in
   let grids := branch (modules_attr pose_adapter "cv3") one_level in
   let raw := cells_of_levels bs0 (nat_attr pose_adapter "nk")
                (branch (modules_attr pose_adapter "cv4") one_level) in
   ∃ dets nkpt0 ndim0 stride,
     attr_ints pose_adapter "kpt_shape" = Some [nkpt0; ndim0] ∧
     attr_T1 pose_adapter "stride" = Some stride ∧
     pose_cached !! "anchors" = Some (VTensor (Ten2 (anchor_rows grids))) ∧
     pose_cached !! "strides" = Some (VTensor (Ten2 (stride_row stride grids))) ∧
     has_shape3 bs0 (nat_attr pose_adapter "nk") (sum_list_with cells grids) raw ∧
     length dets = nat_attr pose_adapter "nl" ∧
     outs = dets ++ [Ten3 (decoded_keypoints (anchor_rows grids)
                             (stride_row stride grids) nkpt0 ndim0 raw)]).
Proof.
  cbv zeta.
  split; [reflexivity|]. split; [reflexivity|]. split; [reflexivity|].
  split; [reflexivity|]. split; [reflexivity|].
  split; [repeat constructor|]. split; [repeat constructor|].
  split; [repeat constructor|]. split; [lia|]. split; [lia|].
  split; [right; reflexivity|]. split; [reflexivity|].
  split; [exact pose_example_well_shaped|].
  eexists _, _. split; [reflexivity|].
  eapply (pose_keypoints_decoded pose_cached 1 kpts_example 1 3 3 2
            cell_anchors cell_strides pose_head pose_adapter pose_cached false
            one_level).
  - reflexivity.
  - reflexivity.
  - reflexivity.
  - reflexivity.
  - reflexivity.
  - repeat constructor.
  - repeat constructor.
  - repeat constructor.
  - lia.
  - lia.
  - right. reflexivity.
  - reflexivity.
  - exact pose_example_well_shaped.
  - reflexivity.
Defined.

